(** * verify-owners: the OWNERS / OWNERS_ALIASES validation plugin

    A shallow embedding of [handle], [getMembersForOrg] and
    [getNonMembersFromLists] of package [verifyowners]
    (src/prow/plugins/cherrypick/cherrypick-unapproved.go, second
    document of the file), with the calls to collaborators recorded as a
    trace of events.

    Go values are modelled as follows: [int] as [Z], [string] as [string],
    [error] by its [Error()] text, [sets.String] as [gset string],
    [map[string]T] as [gmap string T], slices as lists. *)

From Stdlib Require Import ZArith List Ascii String DecimalString Lia Sorted.
From stdpp Require Import base option list gmap sets strings.

Local Open Scope string_scope.
Local Open Scope Z_scope.
Local Open Scope list_scope.

(** ** Strings *)

Module strings.

(** [strings.Join]. *)
Fixpoint Join (elems : list string) (sep : string) : string :=
  match elems with
  | [] => ""
  | [x] => x
  | x :: rest => x +:+ sep +:+ Join rest sep
  end.

(** Splitting at every occurrence of one separator byte; [acc] holds
    the bytes of the current element, last byte first. *)
Fixpoint split_on (sep : ascii) (acc : string) (s : string) : list string :=
  match s with
  | EmptyString => [String.rev acc]
  | String c rest =>
      if Ascii.eqb c sep then String.rev acc :: split_on sep "" rest
      else split_on sep (String c acc) rest
  end.

(** The elements one after the other. *)
Fixpoint cat (elems : list string) : string :=
  match elems with
  | [] => ""
  | x :: rest => x +:+ cat rest
  end.

End strings.

(** ** [path/filepath] on a host whose separator is the slash *)

Module filepath.

Definition Separator : ascii := "/"%char.

Definition rooted (path : string) : bool :=
  match path with
  | String c _ => Ascii.eqb c Separator
  | EmptyString => false
  end.

(** The element stack of [Clean], top first: an empty element and [.]
    are dropped, [..] removes the element before it when there is one
    that is not itself [..], and is kept only in a path that is not
    rooted. *)
Fixpoint clean_elems (is_rooted : bool) (out : list string) (elems : list string)
  : list string :=
  match elems with
  | [] => out
  | e :: rest =>
      if String.eqb e "" || String.eqb e "." then clean_elems is_rooted out rest
      else if String.eqb e ".." then
        match out with
        | top :: below =>
            if String.eqb top ".."
            then clean_elems is_rooted (".." :: out) rest
            else clean_elems is_rooted below rest
        | [] =>
            if is_rooted then clean_elems is_rooted [] rest
            else clean_elems is_rooted [".."] rest
        end
      else clean_elems is_rooted (e :: out) rest
  end.

Definition Clean (path : string) : string :=
  if String.eqb path "" then "."
  else
    let r := rooted path in
    let body := strings.Join (rev (clean_elems r [] (strings.split_on Separator "" path))) "/" in
    let res := if r then "/" +:+ body else body in
    if String.eqb res "" then "." else res.

(** [filepath.Join]: the non-empty elements joined by the separator,
    then cleaned; the empty string when there is none. *)
Definition Join (elems : list string) : string :=
  match filter (fun e => e ≠ "") elems with
  | [] => ""
  | es => Clean (strings.Join es "/")
  end.

(** The bytes of [s] without its trailing separators. *)
Definition strip_trailing (s : string) : string :=
  String.rev
    ((fix drop (r : string) : string :=
        match r with
        | String c rest => if Ascii.eqb c Separator then drop rest else r
        | EmptyString => EmptyString
        end) (String.rev s)).

(** [filepath.Base]: the last element of the path. *)
Definition Base (path : string) : string :=
  if String.eqb path "" then "."
  else
    let p := strip_trailing path in
    if String.eqb p "" then "/"
    else List.last (strings.split_on Separator "" p) "".

(** [filepath.Dir]: all but the last element, cleaned.  The prefix
    passed to [Clean] ends at the last separator of the path. *)
Definition Dir (path : string) : string :=
  let elems := strings.split_on Separator "" path in
  match rev elems with
  | [] => Clean ""
  | _ :: before =>
      match before with
      | [] => Clean ""
      | _ => Clean (strings.Join (rev before) "/" +:+ "/")
      end
  end.

End filepath.

(** ** [sets.String] of k8s.io/apimachinery, as [gset string] *)

Module sets.

Definition NewString (items : list string) : gset string := list_to_set items.

Definition Len (s : gset string) : Z := Z.of_nat (size s).

Definition Has (s : gset string) (item : string) : bool := bool_decide (item ∈ s).

Definition HasAny (s : gset string) (items : list string) : bool :=
  existsb (Has s) items.

Definition Union (s1 s2 : gset string) : gset string := s1 ∪ s2.

Definition Intersection (s1 s2 : gset string) : gset string := s1 ∩ s2.

Definition Difference (s1 s2 : gset string) : gset string := s1 ∖ s2.

Definition Delete (s : gset string) (item : string) : gset string := s ∖ {[ item ]}.

Fixpoint insert_sorted (x : string) (l : list string) : list string :=
  match l with
  | [] => [x]
  | y :: rest => if String.leb x y then x :: l else y :: insert_sorted x rest
  end.

(** [List]: the elements in increasing byte order. *)
Definition List (s : gset string) : list string :=
  foldr insert_sorted [] (elements s).

End sets.

(** ** [fmt] verbs used by the plugin *)

Module fmt.

(** [%d]. *)
Definition int (n : Z) : string := NilZero.string_of_int (Z.to_int n).

(** [%s] of a [[]string]. *)
Definition strings (l : list string) : string := "[" +:+ strings.Join l " " +:+ "]".

Definition newline : string := String (ascii_of_nat 10) "".

End fmt.

(** ** The pattern [line (\d+)] and [strconv.Atoi] *)

Module lineno.

Definition is_digit (c : ascii) : bool :=
  let n := nat_of_ascii c in (48 <=? n)%nat && (n <=? 57)%nat.

(** The longest run of digits at the head of [s]. *)
Fixpoint digits (s : string) : string :=
  match s with
  | String c rest => if is_digit c then String c (digits rest) else ""
  | EmptyString => ""
  end.

(** [FindStringSubmatch] of [line (\d+)]: the capture group of the
    leftmost match, [None] when the pattern matches nowhere. *)
Fixpoint FindStringSubmatch (s : string) : option string :=
  match s with
  | EmptyString => None
  | String _ rest =>
      if String.prefix "line " s then
        match digits (String.substring 5 (String.length s - 5) s) with
        | EmptyString => FindStringSubmatch rest
        | ds => Some ds
        end
      else FindStringSubmatch rest
  end.

Definition MaxInt : Z := 2 ^ 63 - 1.

(** [strconv.Atoi] on a string of digits (64-bit [int]); out of range
    it yields the largest [int] next to an error the plugin drops. *)
Definition Atoi (ds : string) : Z :=
  let v :=
    (fix go (acc : Z) (s : string) : Z :=
       match s with
       | String c rest => go (10 * acc + (Z.of_nat (nat_of_ascii c) - 48)) rest
       | EmptyString => acc
       end) 0 ds in
  Z.min v MaxInt.

End lineno.

(** ** Data of the [github], [repoowners] and [org] packages *)

Definition error : Type := string.

Inductive result (A : Type) : Type :=
| Ok (a : A)
| Err (e : error).
Arguments Ok {A} a.
Arguments Err {A} e.

Module github.

Record User : Type := { Login : string }.

Record Repo : Type := { Owner : User; Name : string; FullName : string }.

Record PullRequestBranch : Type := { SHA : string }.

Record PullRequest : Type := {
  Body : string;
  HTMLURL : string;
  PRUser : User;
  Head : PullRequestBranch
}.

Record PullRequestEvent : Type := {
  Action : string;
  Number : Z;
  PR : PullRequest;
  EvRepo : Repo
}.

Definition PullRequestActionOpened : string := "opened".
Definition PullRequestActionReopened : string := "reopened".
Definition PullRequestActionSynchronize : string := "synchronize".

Record PullRequestChange : Type := { Filename : string; Patch : string }.

Record DraftReviewComment : Type := {
  Path : string;
  Position : Z;
  CommentBody : string
}.

Record DraftReview : Type := {
  CommitSHA : string;
  ReviewBody : string;
  ReviewAction : string;
  Comments : list DraftReviewComment
}.

End github.

Module repoowners.

Record Config : Type := {
  Approvers : list string;
  Reviewers : list string;
  RequiredReviewers : list string;
  Labels : list string
}.

Record SimpleConfig : Type := { SimpleCfg : Config }.

(** The filters of a [FullConfig], as the pairs of a path pattern and
    the roles declared for it. *)
Record FullConfig : Type := { Filters : list (string * Config) }.

(** Modelled from the spec: [SimpleConfig.Empty] lives in package
    repoowners, outside src/; an empty declaration is one whose four
    role lists all have length zero. *)
Definition Empty (s : SimpleConfig) : bool :=
  match Approvers (SimpleCfg s), Reviewers (SimpleCfg s),
        RequiredReviewers (SimpleCfg s), Labels (SimpleCfg s) with
  | [], [], [], [] => true
  | _, _, _, _ => false
  end.

(** Modelled from the spec: [RepoAliases.ExpandAllAliases] lives in
    package repoowners, outside src/; it is the set of all user names
    reachable through one alias lookup. *)
Definition ExpandAllAliases (a : gmap string (gset string)) : gset string :=
  map_fold (fun _ users acc => acc ∪ users) ∅ a.

End repoowners.

Module org.

Record Config : Type := { Members : list string }.

(** The composite literal [org.Config{}]. *)
Definition zero : Config := {| Members := [] |}.

End org.

Record messageWithLine : Type := { line : Z; message : string }.

(** ** Collaborators *)

(** Functions and constants the plugin imports from packages that are
    not part of the translated source. *)
Record Lib : Type := {
  ParseSimpleConfig : string -> result repoowners.SimpleConfig;
  ParseFullConfig : string -> result repoowners.FullConfig;
  (** [ParseAliasesConfig] returns its table next to the error. *)
  ParseAliasesConfig : string -> gmap string (gset string) * option error;
  (** [golint.AddedLines]: absolute line of the new file to position in
      the patch. *)
  AddedLines : string -> result (gmap Z Z);
  (** [yaml.Unmarshal] called with an [org.Config] value. *)
  yaml_Unmarshal : string -> org.Config -> option error;
  FormatResponseRaw : string -> string -> string -> string -> string;
  (** [labels.InvalidOwners] and [github.Comment]. *)
  InvalidOwners : string;
  Comment : string
}.

(** What the outside world answers during one run. *)
Record World : Type := {
  GetPullRequestChanges : string -> string -> Z -> result (list github.PullRequestChange);
  AddLabel : string -> string -> Z -> string -> option error;
  RemoveLabel : string -> string -> Z -> string -> option error;
  CreateReview : string -> string -> Z -> github.DraftReview -> option error;
  (** [git.Client.Clone] yields the directory of the clone. *)
  Clone : string -> result string;
  CheckoutPullRequest : Z -> option error;
  CleanRepo : option error;
  ReadFile : string -> result string;
  (** [http.Get], then [ioutil.ReadAll] of the body. *)
  http_Get : string -> result (result string)
}.

(** The calls a run makes, in order.  [EvCreateComment] belongs to the
    [githubClient] interface of the plugin and [EvPruneComments] to the
    [commentPruner] interface of the sibling plugin invalidcommitmsg;
    [handle] is given no comment pruner. *)
Inductive event : Type :=
| EvGetPullRequestChanges (org repo : string) (number : Z)
| EvClone (fullName : string)
| EvCheckoutPullRequest (number : Z)
| EvCleanRepo
| EvReadFile (path : string)
| EvHttpGet (url : string)
| EvAddLabel (org repo : string) (number : Z) (label : string)
| EvRemoveLabel (org repo : string) (number : Z) (label : string)
| EvCreateReview (org repo : string) (number : Z) (r : github.DraftReview)
| EvCreateComment (org repo : string) (number : Z) (comment : string)
| EvPruneComments
| EvErrorf (err : error) (msg : string)
| EvDebugf (msg : string).

(** ** Runs: a trace and either a value to go on with or the value
    [handle] returns *)

Inductive step (A : Type) : Type :=
| Continue (a : A)
| Return (err : option error).
Arguments Continue {A} a.
Arguments Return {A} err.

Definition M (A : Type) : Type := list event * step A.

Definition emit (e : event) : M unit := ([e], Continue tt).

Definition return_ {A : Type} (err : option error) : M A := ([], Return err).

Global Instance M_ret : MRet M := fun A a => ([], Continue a).

Global Instance M_bind : MBind M := fun A B f m =>
  match m with
  | (tr, Continue a) => let '(tr', r) := f a in (tr ++ tr', r)
  | (tr, Return err) => (tr, Return err)
  end.

(** [for _, c := range l] whose body may [continue] (it yields the next
    state) or [return]. *)
Fixpoint range {S X : Type} (body : S -> X -> M S) (l : list X) (st : S) : M S :=
  match l with
  | [] => mret st
  | c :: rest => st' ← body st c; range body rest st'
  end.

(** ** The plugin *)

Definition PluginName : string := "verify-owners".
Definition ownersFileName : string := "OWNERS".
Definition ownersAliasesFileName : string := "OWNERS_ALIASES".

(** The variables of [handle] that the loop over the OWNERS files
    reads and assigns. *)
Record vstate : Type := {
  wrongOwnersFiles : gmap string messageWithLine;
  ownersAliasesFileError : messageWithLine;
  wrongOwnersAliasesFilePresent : bool;
  repoAliases : gmap string (gset string);
  members : gset string;
  nonMembers : gset string
}.

(** The zero values [handle] starts from. *)
Definition vstate0 : vstate := {|
  wrongOwnersFiles := ∅;
  ownersAliasesFileError := {| line := 0; message := "" |};
  wrongOwnersAliasesFilePresent := false;
  repoAliases := ∅;
  members := ∅;
  nonMembers := ∅
|}.

(** The total-users set [getNonMembersFromLists] builds: each list is
    added, then every login of that list which is a key of the alias
    table is deleted. *)
Definition dropAliases (aliases : gmap string (gset string)) (list : list string)
    (totalUsers : gset string) : gset string :=
  foldl (fun acc login =>
           match aliases !! login with
           | Some _ => sets.Delete acc login
           | None => acc
           end) totalUsers list.

Definition totalUsers (aliases : gmap string (gset string)) (lists : list (list string))
  : gset string :=
  foldl (fun acc list => dropAliases aliases list (sets.Union acc (sets.NewString list)))
        ∅ lists.

Definition getNonMembersFromLists (aliases : gmap string (gset string))
    (roster : gset string) (lists : list (list string)) : gset string :=
  sets.Difference (totalUsers aliases lists) roster.

(** The total-users set of the three role lists [handle] passes to
    [getNonMembersFromLists]. *)
Definition checkedUsers (aliases : gmap string (gset string)) (roles : repoowners.Config)
  : gset string :=
  totalUsers aliases [repoowners.Approvers roles; repoowners.Reviewers roles;
                      repoowners.RequiredReviewers roles].

Section Plugin.

Variable lib : Lib.
Variable w : World.

(** [config] is a local struct value and [yaml.Unmarshal] receives a
    copy of it, so the roster is built from the [Members] of the
    composite literal. *)
Definition getMembersForOrg (orgName : string) : M (result (gset string)) :=
  let url := "https://raw.githubusercontent.com/kubernetes/org/master/config/"
             +:+ orgName +:+ "/org.yaml" in
  _ ← emit (EvHttpGet url);
  mret
    match http_Get w url with
    | Err e => Err e
    | Ok (Err e) => Err ("unable to read the content at " +:+ url +:+ ": " +:+ e)
    | Ok (Ok data) =>
        let config := org.zero in
        match yaml_Unmarshal lib data config with
        | Some e => Err ("failed to unmarshal org config: " +:+ e)
        | None => Ok (sets.NewString (org.Members config))
        end
    end.

(** [if members.Len() == 0 { members, err = getMembersForOrg(org) ... }]. *)
Definition ensureMembers (orgName : string) (roster : gset string) : M (gset string) :=
  if sets.Len roster =? 0 then
    r ← getMembersForOrg orgName;
    match r with
    | Err e => return_ (Some ("failed to get members for org " +:+ orgName +:+ ": " +:+ e))
    | Ok fetched => mret fetched
    end
  else mret roster.

(** The line an error is bound to: line 1 unless the error text names
    a line that the patch of the file maps to a position. *)
Definition relativeLine (filename patch errText : string) : M Z :=
  match lineno.FindStringSubmatch errText with
  | Some ds =>
      let absoluteLineNumber := lineno.Atoi ds in
      match AddedLines lib patch with
      | Err e =>
          _ ← emit (EvErrorf e ("Failed to compute added lines in " +:+ filename
                                 +:+ ": " +:+ e));
          mret 1
      | Ok al =>
          match al !! absoluteLineNumber with
          | Some val => mret val
          | None => mret 1
          end
      end
  | None => mret 1
  end.

Definition readFile (path : string) : M string :=
  _ ← emit (EvReadFile path);
  match ReadFile w path with
  | Err e =>
      _ ← emit (EvErrorf e ("Failed to read " +:+ path +:+ "."));
      return_ None
  | Ok b => mret b
  end.

(** The block [if ownerAliasesModified { ... }]. *)
Definition checkOwnersAliases (orgName dir : string)
    (modifiedOwnerAliasesFile : github.PullRequestChange) (st : vstate) : M vstate :=
  let path := filepath.Join [dir; ownersAliasesFileName] in
  b ← readFile path;
  let '(aliases, perr) := ParseAliasesConfig lib b in
  located ←
    match perr with
    | Some e =>
        lineNumber ← relativeLine ownersAliasesFileName
                       (github.Patch modifiedOwnerAliasesFile) e;
        mret ({| line := lineNumber; message := "Cannot parse file: " +:+ e +:+ "." |}, true)
    | None => mret (ownersAliasesFileError st, wrongOwnersAliasesFilePresent st)
    end;
  roster ← ensureMembers orgName (members st);
  let users := repoowners.ExpandAllAliases aliases in
  mret {| wrongOwnersFiles := wrongOwnersFiles st;
          ownersAliasesFileError := located.1;
          wrongOwnersAliasesFilePresent := located.2;
          repoAliases := aliases;
          members := roster;
          nonMembers := sets.Difference users roster |}.

(** The block [if len(modifiedOwnersFiles) != 0 && !ownerAliasesModified]:
    it reads and parses the alias file of the checkout and returns. *)
Definition loadBaseAliases {A : Type} (dir : string) : M A :=
  let path := filepath.Join [dir; ownersAliasesFileName] in
  b ← readFile path;
  let '(_, perr) := ParseAliasesConfig lib b in
  return_ perr.

(** The roles of every filter of a [FullConfig], appended. *)
Definition allFilters (full : repoowners.FullConfig) : repoowners.Config :=
  let configs := map snd (repoowners.Filters full) in
  {| repoowners.Approvers := concat (map repoowners.Approvers configs);
     repoowners.Reviewers := concat (map repoowners.Reviewers configs);
     repoowners.RequiredReviewers := concat (map repoowners.RequiredReviewers configs);
     repoowners.Labels := concat (map repoowners.Labels configs) |}.

(** [err != nil || simple.Empty()] for the result of [ParseSimpleConfig]. *)
Definition simpleFailedOrEmpty (r : result repoowners.SimpleConfig) : bool :=
  match r with
  | Err _ => true
  | Ok simple => repoowners.Empty simple
  end.

(** The roles of the branch [// it's a SimpleConfig], taken when
    [err != nil || simple.Empty()] is false. *)
Definition simpleRoles (r : result repoowners.SimpleConfig) : option repoowners.Config :=
  match r with
  | Err _ => None
  | Ok simple => if repoowners.Empty simple then None else Some (repoowners.SimpleCfg simple)
  end.

(** Parsing of one OWNERS file: the roles to check, or the error to
    record before the loop goes on to the next file. *)
Definition parseOwners (c : github.PullRequestChange) (b : string)
  : M (messageWithLine + repoowners.Config) :=
  match simpleRoles (ParseSimpleConfig lib b) with
  | None =>
      match ParseFullConfig lib b with
      | Err e =>
          lineNumber ← relativeLine (github.Filename c) (github.Patch c) e;
          mret (inl {| line := lineNumber; message := "Cannot parse file: " +:+ e +:+ "." |})
      | Ok full =>
          (* it's a FullConfig *)
          mret (inr (allFilters full))
      end
  | Some roles =>
      (* it's a SimpleConfig *)
      mret (inr roles)
  end.

Definition recordWrong (st : vstate) (filename : string) (m : messageWithLine) : vstate :=
  {| wrongOwnersFiles := <[filename := m]> (wrongOwnersFiles st);
     ownersAliasesFileError := ownersAliasesFileError st;
     wrongOwnersAliasesFilePresent := wrongOwnersAliasesFilePresent st;
     repoAliases := repoAliases st;
     members := members st;
     nonMembers := nonMembers st |}.

Definition blacklistedMessage (labels labelsBlackList : list string) : string :=
  "File contains blacklisted labels: "
  +:+ fmt.strings (sets.List (sets.Intersection (sets.NewString labels)
                                                 (sets.NewString labelsBlackList)))
  +:+ ".".

Definition noApproversMessage : string :=
  "No approvers defined in this root directory " +:+ ownersFileName +:+ " file.".

(** The error recorded for roles that parsed: the blacklist is checked
    first, the approvers of a root file second. *)
Definition rolesError (labelsBlackList : list string) (filename : string)
    (roles : repoowners.Config) : option messageWithLine :=
  if sets.HasAny (sets.NewString (repoowners.Labels roles)) labelsBlackList then
    Some {| line := 1;
            message := blacklistedMessage (repoowners.Labels roles) labelsBlackList |}
  else if String.eqb (filepath.Dir filename) "."
          && (Z.of_nat (length (repoowners.Approvers roles)) =? 0) then
    Some {| line := 1; message := noApproversMessage |}
  else None.

(** The declaration of an OWNERS file as a three-way result: the roles
    of the flat schema, the roles of the filtered schema when the flat
    parse fails or is empty, or the failure of the filtered parse. *)
Definition ownersRoles (b : string) : result repoowners.Config :=
  match simpleRoles (ParseSimpleConfig lib b) with
  | Some roles => Ok roles
  | None =>
      match ParseFullConfig lib b with
      | Err e => Err e
      | Ok full => Ok (allFilters full)
      end
  end.

(** The message a run records for an OWNERS file with content [b],
    [None] when the file gets as far as the membership check. *)
Definition ownersFileMessage (labelsBlackList : list string) (filename b : string)
  : option string :=
  match ownersRoles b with
  | Err e => Some ("Cannot parse file: " +:+ e +:+ ".")
  | Ok roles => message <$> rolesError labelsBlackList filename roles
  end.

(** One iteration of [for _, c := range modifiedOwnersFiles]. *)
Definition checkOwnersFile (orgName dir : string) (labelsBlackList : list string)
    (st : vstate) (c : github.PullRequestChange) : M vstate :=
  let path := filepath.Join [dir; github.Filename c] in
  b ← readFile path;
  (* by default we bind errors to line 1 *)
  let lineNumber := 1 in
  parsed ← parseOwners c b;
  match parsed with
  | inl m => mret (recordWrong st (github.Filename c) m)
  | inr roles =>
      let approvers := repoowners.Approvers roles in
      let labels := repoowners.Labels roles in
      let reviewers := repoowners.Reviewers roles in
      let requiredReviewers := repoowners.RequiredReviewers roles in
      (* Check labels against blacklist *)
      if sets.HasAny (sets.NewString labels) labelsBlackList then
        mret (recordWrong st (github.Filename c)
                {| line := lineNumber;
                   message := blacklistedMessage labels labelsBlackList |})
      (* Check approvers isn't empty *)
      else if String.eqb (filepath.Dir (github.Filename c)) "."
              && (Z.of_nat (length approvers) =? 0) then
        mret (recordWrong st (github.Filename c)
                {| line := lineNumber; message := noApproversMessage |})
      else
        (* Check if all listed users are members *)
        roster ← ensureMembers orgName (members st);
        mret {| wrongOwnersFiles := wrongOwnersFiles st;
                ownersAliasesFileError := ownersAliasesFileError st;
                wrongOwnersAliasesFilePresent := wrongOwnersAliasesFilePresent st;
                repoAliases := repoAliases st;
                members := roster;
                nonMembers :=
                  sets.Union (nonMembers st)
                    (getNonMembersFromLists (repoAliases st) roster
                       [approvers; reviewers; requiredReviewers]) |}
  end.

(** The comments of the review: one for every entry of
    [wrongOwnersFiles] (Go ranges over the map in no fixed order; the
    model takes the order of [map_to_list]), then one for the alias
    file. *)
Definition reviewComments (st : vstate) : list github.DraftReviewComment :=
  map (fun '(errFile, err) =>
         {| github.Path := errFile;
            github.CommentBody := message err;
            github.Position := line err |})
      (map_to_list (wrongOwnersFiles st))
  ++ (if wrongOwnersAliasesFilePresent st then
        [ {| github.Path := ownersAliasesFileName;
             github.CommentBody := message (ownersAliasesFileError st);
             github.Position := line (ownersAliasesFileError st) |} ]
      else []).

Definition plural (st : vstate) : string :=
  if Z.of_nat (size (wrongOwnersFiles st)) =? 1 then "" else "s".

Definition nonMemberResp (orgName : string) (st : vstate) : string :=
  foldl (fun acc user => acc +:+ fmt.newline +:+ "  - @" +:+ user)
    ("- The following users are not members of the " +:+ orgName
     +:+ " GitHub org. Membership is mandatory for being listed in an "
     +:+ ownersFileName
     +:+ " file. Instructions for applying for membership can be found [here](https://git.k8s.io/community/community-membership.md#member).")
    (sets.List (nonMembers st)).

(** The review body before [plugins.FormatResponseRaw]. *)
Definition response (orgName : string) (st : vstate) : string :=
  let r0 := "Adding the " +:+ InvalidOwners lib
            +:+ " label because of the following errors:" +:+ fmt.newline in
  let r1 := if 0 <? Z.of_nat (size (wrongOwnersFiles st)) then
              r0 +:+ "- " +:+ fmt.int (Z.of_nat (size (wrongOwnersFiles st)))
              +:+ " invalid " +:+ ownersFileName +:+ " file" +:+ plural st
            else r0 in
  let r2 := if wrongOwnersAliasesFilePresent st then
              r1 +:+ "- An invalid " +:+ ownersAliasesFileName +:+ " file"
            else r1 in
  if 0 <? Z.of_nat (size (nonMembers st)) then r2 +:+ nonMemberResp orgName st else r2.

Definition draftReview (pre : github.PullRequestEvent) (st : vstate) : github.DraftReview :=
  {| github.ReviewBody :=
       FormatResponseRaw lib (github.Body (github.PR pre)) (github.HTMLURL (github.PR pre))
         (github.Login (github.PRUser (github.PR pre)))
         (response (github.Login (github.Owner (github.EvRepo pre))) st);
     github.ReviewAction := Comment lib;
     github.Comments := reviewComments st;
     github.CommitSHA :=
       if negb (String.eqb (github.SHA (github.Head (github.PR pre))) "")
       then github.SHA (github.Head (github.PR pre)) else "" |}.

(** [len(wrongOwnersFiles) > 0 || wrongOwnersAliasesFilePresent || len(nonMembers) > 0]. *)
Definition sawSomething (st : vstate) : bool :=
  (0 <? Z.of_nat (size (wrongOwnersFiles st)))
  || wrongOwnersAliasesFilePresent st
  || (0 <? Z.of_nat (size (nonMembers st))).

(** [// React if we saw something.] up to the final [return nil]. *)
Definition react (pre : github.PullRequestEvent) (st : vstate) : M Empty_set :=
  let orgName := github.Login (github.Owner (github.EvRepo pre)) in
  let repo := github.Name (github.EvRepo pre) in
  if sawSomething st then
    _ ← emit (EvAddLabel orgName repo (github.Number pre) (InvalidOwners lib));
    match AddLabel w orgName repo (github.Number pre) (InvalidOwners lib) with
    | Some e => return_ (Some e)
    | None =>
        _ ← (if 0 <? Z.of_nat (size (wrongOwnersFiles st)) then
               emit (EvDebugf ("Creating a review for "
                               +:+ fmt.int (Z.of_nat (size (wrongOwnersFiles st)))
                               +:+ " " +:+ ownersFileName +:+ " file" +:+ plural st +:+ "."))
             else mret tt);
        _ ← (if wrongOwnersAliasesFilePresent st then
               emit (EvDebugf ("Creating a review for the " +:+ ownersAliasesFileName
                               +:+ " file."))
             else mret tt);
        _ ← emit (EvCreateReview orgName repo (github.Number pre) (draftReview pre st));
        match CreateReview w orgName repo (github.Number pre) (draftReview pre st) with
        | Some e =>
            return_ (Some ("error creating a review for " +:+ response orgName st
                           +:+ ": " +:+ e))
        | None => return_ None
        end
    end
  else
    _ ← emit (EvRemoveLabel orgName repo (github.Number pre) (InvalidOwners lib));
    match RemoveLabel w orgName repo (github.Number pre) (InvalidOwners lib) with
    | Some e => return_ (Some ("failed removing " +:+ InvalidOwners lib +:+ " label: " +:+ e))
    | None => return_ None
    end.

(** The last change named OWNERS_ALIASES, and whether there is one. *)
Definition findOwnerAliases (changes : list github.PullRequestChange)
  : github.PullRequestChange * bool :=
  foldl (fun found change =>
           if String.eqb (github.Filename change) ownersAliasesFileName
           then (change, true) else found)
        ({| github.Filename := ""; github.Patch := "" |}, false) changes.

Definition listOwnersFiles (changes : list github.PullRequestChange)
  : list github.PullRequestChange :=
  filter (fun change => filepath.Base (github.Filename change) = ownersFileName) changes.

(** From the checkout of the pull request to the end of the loop over
    the OWNERS files: the run up to [// React if we saw something.]. *)
Definition validate (pre : github.PullRequestEvent) (labelsBlackList : list string)
    (dir : string) (changes : list github.PullRequestChange) : M vstate :=
  let orgName := github.Login (github.Owner (github.EvRepo pre)) in
  let '(modifiedOwnerAliasesFile, ownerAliasesModified) := findOwnerAliases changes in
  let modifiedOwnersFiles := listOwnersFiles changes in
  _ ← emit (EvCheckoutPullRequest (github.Number pre));
  match CheckoutPullRequest w (github.Number pre) with
  | Some e => return_ (Some e)
  | None =>
      (* Check the OWNERS_ALIASES file *)
      st ← (if ownerAliasesModified
            then checkOwnersAliases orgName dir modifiedOwnerAliasesFile vstate0
            else mret vstate0);
      _ ← (if negb (Z.of_nat (length modifiedOwnersFiles) =? 0) && negb ownerAliasesModified
           then loadBaseAliases dir
           else mret tt);
      (* Check each OWNERS file. *)
      range (checkOwnersFile orgName dir labelsBlackList) modifiedOwnersFiles st
  end.

(** [defer r.Clean()]: runs when [handle] returns, whatever the way. *)
Definition deferClean {A : Type} (m : M A) : M A :=
  let '(tr, r) := m in
  (tr ++ EvCleanRepo ::
     match CleanRepo w with
     | Some e => [EvErrorf e "Error cleaning up repo."]
     | None => []
     end, r).

Definition handleM (pre : github.PullRequestEvent) (labelsBlackList : list string)
  : M Empty_set :=
  let orgName := github.Login (github.Owner (github.EvRepo pre)) in
  let repo := github.Name (github.EvRepo pre) in
  (* Get changes. *)
  _ ← emit (EvGetPullRequestChanges orgName repo (github.Number pre));
  match GetPullRequestChanges w orgName repo (github.Number pre) with
  | Err e => return_ (Some ("error getting PR changes: " +:+ e))
  | Ok changes =>
      let ownerAliasesModified := (findOwnerAliases changes).2 in
      let modifiedOwnersFiles := listOwnersFiles changes in
      if (Z.of_nat (length modifiedOwnersFiles) =? 0) && negb ownerAliasesModified
      then return_ None
      else
        (* Clone the repo, checkout the PR. *)
        _ ← emit (EvClone (github.FullName (github.EvRepo pre)));
        match Clone w (github.FullName (github.EvRepo pre)) with
        | Err e => return_ (Some e)
        | Ok dir =>
            deferClean (st ← validate pre labelsBlackList dir changes; react pre st)
        end
  end.

(** What a run leaves behind: its calls and the error it returns
    ([None] for [nil]). *)
Definition finish (m : M Empty_set) : list event * option error :=
  match m with
  | (tr, Return err) => (tr, err)
  | (tr, Continue x) => match x with end
  end.

Definition handle (pre : github.PullRequestEvent) (labelsBlackList : list string)
  : list event * option error :=
  finish (handleM pre labelsBlackList).

End Plugin.

Definition handlePullRequest (lib : Lib) (w : World) (labelsBlackList : list string)
    (pre : github.PullRequestEvent) : list event * option error :=
  if negb (String.eqb (github.Action pre) github.PullRequestActionOpened)
     && negb (String.eqb (github.Action pre) github.PullRequestActionReopened)
     && negb (String.eqb (github.Action pre) github.PullRequestActionSynchronize)
  then ([], None)
  else handle lib w pre labelsBlackList.

(** ** Observations on runs *)

(** The calls that change the pull request: labels, comments, reviews. *)
Definition is_action (e : event) : bool :=
  match e with
  | EvAddLabel _ _ _ _ | EvRemoveLabel _ _ _ _ | EvCreateReview _ _ _ _
  | EvCreateComment _ _ _ _ | EvPruneComments => true
  | _ => false
  end.

Definition is_fetch (e : event) : bool :=
  match e with
  | EvHttpGet _ => true
  | _ => false
  end.

(** The roster fetch and the log: the calls of the steps that read no
    file. *)
Definition is_lookup_event (e : event) : bool :=
  match e with
  | EvHttpGet _ | EvErrorf _ _ => true
  | _ => false
  end.

(** The calls made between the checkout and the decision. *)
Definition is_validation_event (e : event) : bool :=
  match e with
  | EvCheckoutPullRequest _ | EvReadFile _ | EvHttpGet _ | EvErrorf _ _ => true
  | _ => false
  end.

(** The state a run decides on, when it gets as far as
    [// React if we saw something.]. *)
Definition decision (lib : Lib) (w : World) (pre : github.PullRequestEvent)
    (labelsBlackList : list string) : option vstate :=
  match GetPullRequestChanges w (github.Login (github.Owner (github.EvRepo pre)))
          (github.Name (github.EvRepo pre)) (github.Number pre) with
  | Err _ => None
  | Ok changes =>
      if (Z.of_nat (length (listOwnersFiles changes)) =? 0)
         && negb (findOwnerAliases changes).2
      then None
      else
        match Clone w (github.FullName (github.EvRepo pre)) with
        | Err _ => None
        | Ok dir =>
            match validate lib w pre labelsBlackList dir changes with
            | (_, Continue st) => Some st
            | (_, Return _) => None
            end
        end
  end.

Definition cleanEvents (w : World) : list event :=
  EvCleanRepo ::
    match CleanRepo w with
    | Some e => [EvErrorf e "Error cleaning up repo."]
    | None => []
    end.

(** The summary as the specification words it, part by part: the
    heading, the count of invalid OWNERS files, the alias-file
    violation, and the users that are not members, one bullet each. *)
Definition summaryParts (lib : Lib) (orgName : string) (st : vstate) : list string :=
  ["Adding the " +:+ InvalidOwners lib +:+ " label because of the following errors:"
   +:+ fmt.newline]
  ++ (if 0 <? Z.of_nat (size (wrongOwnersFiles st)) then
        ["- " +:+ fmt.int (Z.of_nat (size (wrongOwnersFiles st))) +:+ " invalid OWNERS file"
         +:+ (if Z.of_nat (size (wrongOwnersFiles st)) =? 1 then "" else "s")]
      else [])
  ++ (if wrongOwnersAliasesFilePresent st then ["- An invalid OWNERS_ALIASES file"] else [])
  ++ (if 0 <? Z.of_nat (size (nonMembers st)) then
        ("- The following users are not members of the " +:+ orgName
         +:+ " GitHub org. Membership is mandatory for being listed in an OWNERS file. Instructions for applying for membership can be found [here](https://git.k8s.io/community/community-membership.md#member).")
        :: map (fun user => fmt.newline +:+ "  - @" +:+ user) (sets.List (nonMembers st))
      else []).

(** A read that fails is logged and is the last step of the
    computation, which makes [handle] return nil. *)
Definition read_failures_end (w : World) {A : Type} (m : M A) : Prop :=
  ∀ path e,
    EvReadFile path ∈ m.1 → ReadFile w path = Err e →
    m.2 = Return None ∧ EvErrorf e ("Failed to read " +:+ path +:+ ".") ∈ m.1.

(** A roster fetch that fails is the last step of the computation,
    which makes [handle] return [msg]. *)
Definition fetch_failure_ends {A : Type} (msg : error) (m : M A) : Prop :=
  ∀ url, EvHttpGet url ∈ m.1 → m.2 = Return (Some msg).

(** A position that may be given to an inline comment on a file with
    this patch: 1, or a position [golint.AddedLines] has for a line of
    the patch. *)
Definition placedInPatch (lib : Lib) (patch : string) (position : Z) : Prop :=
  position = 1
  ∨ ∃ al absoluteLineNumber,
      AddedLines lib patch = Ok al ∧ al !! absoluteLineNumber = Some position.

(** ** A concrete pull request to run the plugin on *)

Module Scenario.

Definition roles (approvers reviewers required labels : list string) : repoowners.Config :=
  {| repoowners.Approvers := approvers; repoowners.Reviewers := reviewers;
     repoowners.RequiredReviewers := required; repoowners.Labels := labels |}.

Definition brokenYaml : string := "approvers: [alice".
Definition flatError : string := "error converting YAML to JSON: yaml: line 1: did not find expected ',' or ']'".
Definition filteredError : string := "error converting YAML to JSON: yaml: line 4: did not find expected key".

(** A parser table over the file contents the scenarios use. *)
Definition parseSimple (b : string) : result repoowners.SimpleConfig :=
  if String.eqb b "approvers: [alice]" then
    Ok {| repoowners.SimpleCfg := roles ["alice"] [] [] [] |}
  else if String.eqb b "approvers: [team-a, bob]" then
    Ok {| repoowners.SimpleCfg := roles ["team-a"; "bob"] [] [] [] |}
  else if String.eqb b "approvers: [carol], labels: [priority/critical-urgent]" then
    Ok {| repoowners.SimpleCfg := roles ["carol"] [] [] ["priority/critical-urgent"] |}
  else if String.eqb b "reviewers: [erin]" then
    Ok {| repoowners.SimpleCfg := roles [] ["erin"] [] [] |}
  else if String.eqb b "labels: [sig/testing]" then
    Ok {| repoowners.SimpleCfg := roles [] [] [] ["sig/testing"] |}
  else if String.eqb b brokenYaml then Err flatError
  else Ok {| repoowners.SimpleCfg := roles [] [] [] [] |}.

Definition parseFull (b : string) : result repoowners.FullConfig :=
  if String.eqb b "filters: {.*: {approvers: [dave]}}" then
    Ok {| repoowners.Filters := [(".*", roles ["dave"] [] [] [])] |}
  else if String.eqb b brokenYaml then Err filteredError
  else Ok {| repoowners.Filters := [] |}.

Definition parseAliases (b : string) : gmap string (gset string) * option error :=
  if String.eqb b "aliases: {team-a: [alice]}" then
    ({[ "team-a" := {[ "alice" ]} ]}, None)
  else if String.eqb b "aliases: {}" then (∅, None)
  else (∅, Some "error converting YAML to JSON: yaml: line 2: mapping values are not allowed in this context").

Definition lib : Lib := {|
  ParseSimpleConfig := parseSimple;
  ParseFullConfig := parseFull;
  ParseAliasesConfig := parseAliases;
  AddedLines := fun patch =>
    if String.eqb patch "@@ -1,3 +1,4 @@" then Ok {[ 3 := 3; 4 := 4 ]} else Ok ∅;
  yaml_Unmarshal := fun _ _ => None;
  FormatResponseRaw := fun body url login reply => "@" +:+ login +:+ ": " +:+ reply;
  InvalidOwners := "do-not-merge/invalid-owners-file";
  Comment := "COMMENT"
|}.

Definition pre : github.PullRequestEvent := {|
  github.Action := github.PullRequestActionOpened;
  github.Number := 7;
  github.PR := {| github.Body := "body"; github.HTMLURL := "https://example.test/pr/7";
                  github.PRUser := {| github.Login := "author" |};
                  github.Head := {| github.SHA := "abc123" |} |};
  github.EvRepo := {| github.Owner := {| github.Login := "kubernetes" |};
                      github.Name := "test-infra";
                      github.FullName := "kubernetes/test-infra" |}
|}.

Definition change (name : string) : github.PullRequestChange :=
  {| github.Filename := name; github.Patch := "@@ -1,3 +1,4 @@" |}.

(** A world in which every call succeeds; [files] gives the content of
    the checkout by path. *)
Definition world (changes : list github.PullRequestChange)
    (files : list (string * string)) : World := {|
  GetPullRequestChanges := fun _ _ _ => Ok changes;
  AddLabel := fun _ _ _ _ => None;
  RemoveLabel := fun _ _ _ _ => None;
  CreateReview := fun _ _ _ _ => None;
  Clone := fun _ => Ok "/tmp/clone";
  CheckoutPullRequest := fun _ => None;
  CleanRepo := None;
  ReadFile := fun path =>
    match find (fun kv => String.eqb (fst kv) path) files with
    | Some kv => Ok (snd kv)
    | None => Err ("open " +:+ path +:+ ": no such file or directory")
    end;
  http_Get := fun _ => Ok (Ok "members: []")
|}.

(** [w] with the answers of the label and review calls replaced. *)
Definition answering (w : World) (addLabel removeLabel createReview : option error) : World := {|
  GetPullRequestChanges := GetPullRequestChanges w;
  AddLabel := fun _ _ _ _ => addLabel;
  RemoveLabel := fun _ _ _ _ => removeLabel;
  CreateReview := fun _ _ _ _ => createReview;
  Clone := Clone w;
  CheckoutPullRequest := CheckoutPullRequest w;
  CleanRepo := CleanRepo w;
  ReadFile := ReadFile w;
  http_Get := http_Get w
|}.

(** A clean pull request: an alias file without aliases and an OWNERS
    file of a subdirectory that only declares a label. *)
Definition cleanPR : World :=
  world [change "pkg/OWNERS"; change "OWNERS_ALIASES"]
        [("/tmp/clone/pkg/OWNERS", "labels: [sig/testing]");
         ("/tmp/clone/OWNERS_ALIASES", "aliases: {}")].

(** A pull request whose root OWNERS file does not parse, next to a
    changed alias file. *)
Definition brokenPR : World :=
  world [change "OWNERS"; change "OWNERS_ALIASES"]
        [("/tmp/clone/OWNERS", brokenYaml);
         ("/tmp/clone/OWNERS_ALIASES", "aliases: {}")].

(** The same broken OWNERS file in a pull request that leaves the alias
    file alone. *)
Definition brokenOwnersOnlyPR : World :=
  world [change "OWNERS"]
        [("/tmp/clone/OWNERS", brokenYaml);
         ("/tmp/clone/OWNERS_ALIASES", "aliases: {}")].

(** A pull request that changes the alias file, in a checkout where the
    file cannot be read. *)
Definition unreadablePR : World := world [change "OWNERS_ALIASES"] [].

(** A pull request whose root OWNERS file declares a blacklisted label,
    next to a changed alias file. *)
Definition blacklistedPR : World :=
  world [change "OWNERS"; change "OWNERS_ALIASES"]
        [("/tmp/clone/OWNERS", "approvers: [carol], labels: [priority/critical-urgent]");
         ("/tmp/clone/OWNERS_ALIASES", "aliases: {}")].

Definition blacklist : list string := ["priority/critical-urgent"].

(** A pull request that touches no ownership file. *)
Definition unrelatedPR : World :=
  world [change "README.md"; change "docs/OWNERS.md"] [("/tmp/clone/README.md", "hello")].

(** A pull request whose changes cannot be listed. *)
Definition unlistablePR : World := {|
  GetPullRequestChanges := fun _ _ _ => Err "503 Service Unavailable";
  AddLabel := fun _ _ _ _ => None;
  RemoveLabel := fun _ _ _ _ => None;
  CreateReview := fun _ _ _ _ => None;
  Clone := fun _ => Ok "/tmp/clone";
  CheckoutPullRequest := fun _ => None;
  CleanRepo := None;
  ReadFile := fun path => Err ("open " +:+ path +:+ ": no such file or directory");
  http_Get := fun _ => Ok (Ok "members: []")
|}.

(** A pull request that changes the alias file and an OWNERS file that
    names an alias and a user. *)
Definition teamPR : World :=
  world [change "pkg/OWNERS"; change "OWNERS_ALIASES"]
        [("/tmp/clone/pkg/OWNERS", "approvers: [team-a, bob]");
         ("/tmp/clone/OWNERS_ALIASES", "aliases: {team-a: [alice]}")].

(** The clean pull request at a time when the roster cannot be fetched. *)
Definition rosterDownPR : World := {|
  GetPullRequestChanges := GetPullRequestChanges cleanPR;
  AddLabel := AddLabel cleanPR;
  RemoveLabel := RemoveLabel cleanPR;
  CreateReview := CreateReview cleanPR;
  Clone := Clone cleanPR;
  CheckoutPullRequest := CheckoutPullRequest cleanPR;
  CleanRepo := CleanRepo cleanPR;
  ReadFile := ReadFile cleanPR;
  http_Get := fun _ => Err "dial tcp: i/o timeout"
|}.

Definition rosterURL : string :=
  "https://raw.githubusercontent.com/kubernetes/org/master/config/kubernetes/org.yaml".

End Scenario.

(** ** Regular expressions, as far as the plugins use them

    The patterns of the plugins only have ASCII literals and the ASCII
    classes [\s], [\w] and [\d], so that matching bytes and matching
    runes agree.  [MatchString] only says whether some part of the
    string matches, which derivatives decide. *)

Module regexp.

Inductive re : Type :=
| Fail
| Eps
| Class (p : ascii -> bool)
| Seq (r1 r2 : re)
| Alt (r1 r2 : re)
| Star (r : re).

Definition Lit (c : ascii) : re := Class (Ascii.eqb c).

(** A literal string. *)
Fixpoint Str (s : string) : re :=
  match s with
  | EmptyString => Eps
  | String c rest => Seq (Lit c) (Str rest)
  end.

(** [[...]] with the listed bytes. *)
Definition OneOf (s : string) : re :=
  Class (fun c => existsb (Ascii.eqb c) (list_ascii_of_string s)).

(** [r+] and [r?]. *)
Definition Plus (r : re) : re := Seq r (Star r).
Definition Opt (r : re) : re := Alt r Eps.
Definition Any : re := Class (fun _ => true).

Definition between (lo hi : nat) (c : ascii) : bool :=
  (lo <=? nat_of_ascii c)%nat && (nat_of_ascii c <=? hi)%nat.

(** [\d], [\w] and [\s]. *)
Definition digit (c : ascii) : bool := between 48 57 c.
Definition word (c : ascii) : bool :=
  digit c || between 65 90 c || between 97 122 c || Ascii.eqb c "_".
Definition space (c : ascii) : bool :=
  existsb (fun n => (nat_of_ascii c =? n)%nat) [9; 10; 12; 13; 32]%nat.

(** The strings a pattern matches in full. *)
Inductive Matches : re -> list ascii -> Prop :=
| MEps : Matches Eps []
| MClass p c : p c = true -> Matches (Class p) [c]
| MSeq r1 r2 s1 s2 : Matches r1 s1 -> Matches r2 s2 -> Matches (Seq r1 r2) (s1 ++ s2)
| MAltL r1 r2 s : Matches r1 s -> Matches (Alt r1 r2) s
| MAltR r1 r2 s : Matches r2 s -> Matches (Alt r1 r2) s
| MStarNil r : Matches (Star r) []
| MStarApp r s1 s2 : Matches r s1 -> Matches (Star r) s2 -> Matches (Star r) (s1 ++ s2).

Fixpoint nullable (r : re) : bool :=
  match r with
  | Fail => false
  | Eps => true
  | Class _ => false
  | Seq r1 r2 => nullable r1 && nullable r2
  | Alt r1 r2 => nullable r1 || nullable r2
  | Star _ => true
  end.

(** Sequence and choice that drop what cannot match. *)
Definition seq (r1 r2 : re) : re :=
  match r1, r2 with
  | Fail, _ => Fail
  | _, Fail => Fail
  | Eps, _ => r2
  | _, _ => Seq r1 r2
  end.

Definition alt (r1 r2 : re) : re :=
  match r1, r2 with
  | Fail, _ => r2
  | _, Fail => r1
  | _, _ => Alt r1 r2
  end.

(** What is left to match after the byte [c]. *)
Fixpoint deriv (c : ascii) (r : re) : re :=
  match r with
  | Fail => Fail
  | Eps => Fail
  | Class p => if p c then Eps else Fail
  | Seq r1 r2 =>
      alt (seq (deriv c r1) r2) (if nullable r1 then deriv c r2 else Fail)
  | Alt r1 r2 => alt (deriv c r1) (deriv c r2)
  | Star r1 => seq (deriv c r1) (Star r1)
  end.

Fixpoint matches (r : re) (s : list ascii) : bool :=
  match s with
  | [] => nullable r
  | c :: rest => matches (deriv c r) rest
  end.

(** [Regexp.MatchString]: some part of [s] matches [r]. *)
Definition MatchString (r : re) (s : string) : bool :=
  matches (Seq (Star Any) (Seq r (Star Any))) (list_ascii_of_string s).

End regexp.

(** ** What the cherrypick and invalidcommitmsg plugins share *)

Module labelplugins.

Record Label : Type := { LabelName : string }.

Record Commit : Type := { Message : string }.

Record RepositoryCommit : Type := { CommitSHA : string; RepoCommit : Commit }.

Record IssueComment : Type := { IssueCommentBody : string }.

(** The fields of [github.PullRequestEvent] the two plugins read. *)
Record PullRequestEvent : Type := {
  Action : string;
  Number : Z;
  UserLogin : string;
  BaseRef : string;
  Repo : github.Repo
}.

(** The methods of the two [githubClient] interfaces, with what the
    client answers.  [GetIssueLabels] hands back its labels next to the
    error. *)
Record Client : Type := {
  GetIssueLabels : string -> string -> Z -> list Label * option error;
  ListPullRequestCommits : string -> string -> Z -> result (list RepositoryCommit);
  AddLabel : string -> string -> Z -> string -> option error;
  RemoveLabel : string -> string -> Z -> string -> option error;
  CreateComment : string -> string -> Z -> string -> option error
}.

(** What the plugins import from the github and plugins packages, and
    the verb [%q] of [fmt]. *)
Record Deps : Type := {
  HasLabel : string -> list Label -> bool;
  FormatSimpleResponse : string -> string -> string;
  quote : string -> string
}.

(** The calls of a run, in order. *)
Inductive call : Type :=
| CallGetIssueLabels (org repo : string) (number : Z)
| CallListPullRequestCommits (org repo : string) (number : Z)
| CallAddLabel (org repo : string) (number : Z) (label : string)
| CallRemoveLabel (org repo : string) (number : Z) (label : string)
| CallCreateComment (org repo : string) (number : Z) (comment : string)
| CallPruneComments (shouldPrune : IssueComment -> bool)
| CallErrorf (err : error) (msg : string).

(** [if err := ...; err != nil { log.WithError(err).Errorf(msg) }]. *)
Definition logged (err : option error) (msg : string) : list call :=
  match err with
  | Some e => [CallErrorf e msg]
  | None => []
  end.

(** The calls that change the pull request. *)
Definition is_change (c : call) : bool :=
  match c with
  | CallAddLabel _ _ _ _ | CallRemoveLabel _ _ _ _ | CallCreateComment _ _ _ _
  | CallPruneComments _ => true
  | _ => false
  end.

(** The calls that only read the pull request. *)
Definition is_listing (c : call) : bool :=
  match c with
  | CallGetIssueLabels _ _ _ | CallListPullRequestCommits _ _ _ => true
  | _ => false
  end.

Definition is_label_change (c : call) : bool :=
  match c with
  | CallAddLabel _ _ _ _ | CallRemoveLabel _ _ _ _ => true
  | _ => false
  end.

(** How a run ends: it returns, or it panics. *)
Inductive ending : Type :=
| Returns (err : option error)
| Panics.

(** [org/repo#number], as the log messages print it. *)
Definition ref (org repo : string) (number : Z) : string :=
  org +:+ "/" +:+ repo +:+ "#" +:+ fmt.int number.

Definition tab : string := String (ascii_of_nat 9) "".

(** [strings.Contains]. *)
Fixpoint Contains (s substr : string) : bool :=
  String.prefix substr s
  || match s with
     | EmptyString => false
     | String _ rest => Contains rest substr
     end.

End labelplugins.

(** ** The cherrypick plugin *)

Module cherrypick.

Import labelplugins.

Definition pluginName : string := "cherrypick".

Definition cpUnapprovedLabel : string := "do-not-merge/cherry-pick-not-approved".
Definition cpApprovedLabel : string := "cherrypick-approved".

(** [fmt.Sprintf(labelUnapprovedFormat, cpApprovedLabel, cpUnapprovedLabel)]. *)
Definition labelUnapprovedBody : string :=
  "This PR is not for the master branch but does not have the `" +:+ cpApprovedLabel
  +:+ "` label. Adding the `" +:+ cpUnapprovedLabel +:+ "` label." +:+ fmt.newline.

(** [fmt.Sprintf(assignPatchReleaseManager, branch)]. *)
Definition assignPatchReleaseManager (branch : string) : string :=
  fmt.newline +:+ tab
  +:+ "To approve the cherrypick, please assign the patch release manager for the `"
  +:+ branch +:+ "` branch by writing `/assign @username` in a comment when ready."
  +:+ fmt.newline
  +:+ "The list of patch release managers for each release can be found [here](https://git.k8s.io/sig-release/release-managers.md).".

Definition handlePR (deps : Deps) (gc : Client) (pr : PullRequestEvent)
  : list call * option error :=
  (* Only consider the events that indicate opening of the PR *)
  if negb (String.eqb (Action pr) github.PullRequestActionOpened)
     && negb (String.eqb (Action pr) github.PullRequestActionReopened)
  then ([], None)
  else
    let org := github.Login (github.Owner (Repo pr)) in
    let repo := github.Name (Repo pr) in
    let branch := BaseRef pr in
    (* if it is not against a release branch, don't do anything *)
    if negb (String.prefix "release-" branch) then ([], None)
    else
      let '(labels, err) := GetIssueLabels gc org repo (Number pr) in
      let listed :=
        CallGetIssueLabels org repo (Number pr)
        :: logged err ("failed to list labels on  " +:+ ref org repo (Number pr)) in
      let hasCherryPickApprovedLabel := HasLabel deps cpApprovedLabel labels in
      let hasCherryPickUnapprovedLabel := HasLabel deps cpUnapprovedLabel labels in
      if hasCherryPickApprovedLabel then
        (* remove the unapproved label (if it exists) and don't do anything *)
        if hasCherryPickUnapprovedLabel then
          (listed
           ++ CallRemoveLabel org repo (Number pr) cpUnapprovedLabel
           :: logged (RemoveLabel gc org repo (Number pr) cpUnapprovedLabel)
                ("Github failed to remove the following label on  "
                 +:+ ref org repo (Number pr) +:+ ": " +:+ cpUnapprovedLabel),
           None)
        else (listed, None)
      (* if it already has the unapproved label, we are done here *)
      else if hasCherryPickUnapprovedLabel then (listed, None)
      else
        (* only add the label and comment if none of the approved and
           unapproved labels are present *)
        let body := labelUnapprovedBody +:+ assignPatchReleaseManager branch in
        let comment := FormatSimpleResponse deps (UserLogin pr) body in
        (listed
         ++ CallAddLabel org repo (Number pr) cpUnapprovedLabel
         :: logged (AddLabel gc org repo (Number pr) cpUnapprovedLabel)
              ("Github failed to add the following label on "
               +:+ ref org repo (Number pr) +:+ ": " +:+ cpUnapprovedLabel)
         ++ CallCreateComment org repo (Number pr) comment
         :: logged (CreateComment gc org repo (Number pr) comment)
              ("Failed to comment on " +:+ ref org repo (Number pr)
               +:+ " with comment " +:+ quote deps comment +:+ "."),
         None).

Definition handlePullRequest (deps : Deps) (gc : Client) (pr : PullRequestEvent)
  : list call * option error :=
  handlePR deps gc pr.

End cherrypick.

(** ** The invalidcommitmsg plugin *)

Module invalidcommitmsg.

Import labelplugins.

Definition pluginName : string := "invalidcommitmsg".
Definition invalidCommitMsgLabel : string := "do-not-merge/invalid-commit-message".

Definition commentBody : string :=
  "[Keywords](https://help.github.com/articles/closing-issues-using-keywords) which can automatically close issues and at(@) mentions are not allowed in commit messages."
  +:+ fmt.newline +:+ fmt.newline
  +:+ "Please remove these keywords from the following commit messages: ".

(** [e[sd]?], the tail of close and resolve. *)
Definition e_s_d : regexp.re :=
  regexp.Seq (regexp.Lit "e") (regexp.Opt (regexp.OneOf "sd")).

(** [(([cC]los(?:e[sd]?))|([fF]ix(?:(es|ed)?))|([rR]esolv(?:e[sd]?)))]. *)
Definition closeKeyword : regexp.re :=
  regexp.Alt
    (regexp.Alt
       (regexp.Seq (regexp.OneOf "cC") (regexp.Seq (regexp.Str "los") e_s_d))
       (regexp.Seq (regexp.OneOf "fF")
          (regexp.Seq (regexp.Str "ix")
             (regexp.Opt (regexp.Alt (regexp.Str "es") (regexp.Str "ed"))))))
    (regexp.Seq (regexp.OneOf "rR") (regexp.Seq (regexp.Str "esolv") e_s_d)).

(** The bytes of [[\s:]] and of [[-\w]]. *)
Definition separator (c : ascii) : bool := regexp.space c || Ascii.eqb c ":".
Definition mentionChar (c : ascii) : bool := Ascii.eqb c "-" || regexp.word c.

(** The keyword, then [[\s:]+(\w+/\w+)?#(\d+)]. *)
Definition closeIssueRegex : regexp.re :=
  regexp.Seq closeKeyword
    (regexp.Seq
       (regexp.Plus (regexp.Class separator))
       (regexp.Seq
          (regexp.Opt
             (regexp.Seq (regexp.Plus (regexp.Class regexp.word))
                (regexp.Seq (regexp.Lit "/") (regexp.Plus (regexp.Class regexp.word)))))
          (regexp.Seq (regexp.Lit "#") (regexp.Plus (regexp.Class regexp.digit))))).

(** [@[-\w]+]. *)
Definition atMentionRegex : regexp.re :=
  regexp.Seq (regexp.Lit "@") (regexp.Plus (regexp.Class mentionChar)).

(** The words the keyword part of [closeIssueRegex] matches. *)
Definition closeKeywords : list string :=
  ["close"; "closes"; "closed"; "Close"; "Closes"; "Closed";
   "fix"; "fixes"; "fixed"; "Fix"; "Fixes"; "Fixed";
   "resolve"; "resolves"; "resolved"; "Resolve"; "Resolves"; "Resolved"].

(** The condition under which the loop of [handle] takes a commit for
    invalid. *)
Definition invalidMessage (message : string) : bool :=
  regexp.MatchString closeIssueRegex message || regexp.MatchString atMentionRegex message.

(** Whether the loop of [handle] takes the commit for invalid. *)
Definition flagged (c : RepositoryCommit) : bool :=
  invalidMessage (Message (RepoCommit c)).

(** these are the only actions indicating that the code diffs may have
    changed. *)
Definition isPRChanged (pr : PullRequestEvent) : bool :=
  if String.eqb (Action pr) github.PullRequestActionOpened then true
  else if String.eqb (Action pr) github.PullRequestActionReopened then true
  else if String.eqb (Action pr) github.PullRequestActionSynchronize then true
  else false.

(** [repoCommit.SHA[0:7]]: out of range for a SHA of fewer than seven
    bytes, which panics. *)
Definition shortSHA (sha : string) : option string :=
  if (7 <=? String.length sha)%nat then Some (String.substring 0 7 sha) else None.

(** The loop that gathers the short SHAs of the invalid commits, [None]
    when it panics. *)
Fixpoint invalidCommits (repoCommits : list RepositoryCommit) (invalidCommitSHAs : list string)
  : option (list string) :=
  match repoCommits with
  | [] => Some invalidCommitSHAs
  | repoCommit :: rest =>
      if invalidMessage (Message (RepoCommit repoCommit)) then
        match shortSHA (CommitSHA repoCommit) with
        | Some sha => invalidCommits rest (invalidCommitSHAs ++ [sha])
        | None => None
        end
      else invalidCommits rest invalidCommitSHAs
  end.

(** The predicate [handle] gives to the comment pruner. *)
Definition shouldPrune (comment : IssueComment) : bool :=
  Contains (IssueCommentBody comment) commentBody.

Definition handle (deps : Deps) (gc : Client) (pr : PullRequestEvent)
  : list call * ending :=
  (* Only consider actions indicating that the code diffs may have changed. *)
  if negb (isPRChanged pr) then ([], Returns None)
  else
    let org := github.Login (github.Owner (Repo pr)) in
    let repo := github.Name (Repo pr) in
    let number := Number pr in
    match GetIssueLabels gc org repo (Number pr) with
    | (_, Some err) => ([CallGetIssueLabels org repo (Number pr)], Returns (Some err))
    | (labels, None) =>
        let hasInvalidCommitMsgLabel := HasLabel deps invalidCommitMsgLabel labels in
        let listed := [CallGetIssueLabels org repo (Number pr);
                       CallListPullRequestCommits org repo number] in
        match ListPullRequestCommits gc org repo number with
        | Err err => (listed, Returns (Some err))
        | Ok repoCommits =>
            (* If a commit message involves an invalid keyword,
               add the commit SHA to a slice of invalid commits. *)
            match invalidCommits repoCommits [] with
            | None => (listed, Panics)
            | Some invalidCommitSHAs =>
                (* if we have the label but all commits are valid,
                   remove the label and prune comments *)
                if hasInvalidCommitMsgLabel
                   && (Z.of_nat (length invalidCommitSHAs) =? 0) then
                  (listed
                   ++ CallRemoveLabel org repo number invalidCommitMsgLabel
                   :: logged (RemoveLabel gc org repo number invalidCommitMsgLabel)
                        ("Github failed to remove the following label: "
                         +:+ invalidCommitMsgLabel)
                   ++ [CallPruneComments shouldPrune],
                   Returns None)
                else
                  (* if we don't have the label and there are invalid
                     commits, add the label *)
                  let labelled :=
                    if negb hasInvalidCommitMsgLabel
                       && negb (Z.of_nat (length invalidCommitSHAs) =? 0) then
                      CallAddLabel org repo number invalidCommitMsgLabel
                      :: logged (AddLabel gc org repo number invalidCommitMsgLabel)
                           ("Github failed to add the following label: "
                            +:+ invalidCommitMsgLabel)
                    else [] in
                  (* if there are invalid commits, always add a comment *)
                  let commented :=
                    if negb (Z.of_nat (length invalidCommitSHAs) =? 0) then
                      let resp := commentBody +:+ strings.Join invalidCommitSHAs ", " in
                      let formattedComment := FormatSimpleResponse deps (UserLogin pr) resp in
                      CallCreateComment org repo (Number pr) formattedComment
                      :: logged (CreateComment gc org repo (Number pr) formattedComment)
                           ("Failed to comment " +:+ quote deps formattedComment)
                    else [] in
                  (listed ++ labelled ++ commented, Returns None)
            end
        end
    end.

Definition handlePullRequest (deps : Deps) (gc : Client) (pr : PullRequestEvent)
  : list call * ending :=
  handle deps gc pr.

End invalidcommitmsg.

(** ** The fake client of invalidcommitmsg_test.go *)

Module fake.

Import labelplugins.

Record fakeClient : Type := {
  (* current labels *)
  labels : list string;
  (* labels that are added *)
  added : list string;
  (* labels that are removed *)
  removed : list string;
  (* commentsAdded tracks the comments in each PR *)
  commentsAdded : gmap Z (list string);
  (* commitMessages tracks the commit messages in each PR *)
  commitMessages : gmap Z (list string)
}.

Definition AddLabel (fc : fakeClient) (label : string) : fakeClient :=
  {| labels := labels fc ++ [label];
     added := added fc ++ [label];
     removed := removed fc;
     commentsAdded := commentsAdded fc;
     commitMessages := commitMessages fc |}.

(** The loop of [RemoveLabel]: the first label equal to [label] is
    taken out. *)
Fixpoint removeFirst (label : string) (l : list string) : list string :=
  match l with
  | [] => []
  | v :: rest => if String.eqb label v then rest else v :: removeFirst label rest
  end.

Definition RemoveLabel (fc : fakeClient) (label : string) : fakeClient :=
  {| labels := removeFirst label (labels fc);
     added := added fc;
     removed := removed fc ++ [label];
     commentsAdded := commentsAdded fc;
     commitMessages := commitMessages fc |}.

Definition GetIssueLabels (fc : fakeClient) : list Label :=
  map (fun l => {| LabelName := l |}) (labels fc).

Definition CreateComment (fc : fakeClient) (number : Z) (comment : string) : fakeClient :=
  {| labels := labels fc;
     added := added fc;
     removed := removed fc;
     commentsAdded :=
       <[number := default [] (commentsAdded fc !! number) ++ [comment]]> (commentsAdded fc);
     commitMessages := commitMessages fc |}.

Definition NumComments (fc : fakeClient) : nat :=
  map_fold (fun _ comments n => (n + length comments)%nat) 0%nat (commentsAdded fc).

Definition ListPullRequestCommits (fc : fakeClient) (number : Z) : list RepositoryCommit :=
  map (fun msg => {| CommitSHA := "1111111111"; RepoCommit := {| Message := msg |} |})
      (default [] (commitMessages fc !! number)).

(** What the fake answers while its state is [fc]: every method
    returns a nil error. *)
Definition client (fc : fakeClient) : Client :=
  {| labelplugins.GetIssueLabels := fun _ _ _ => (GetIssueLabels fc, None);
     labelplugins.ListPullRequestCommits := fun _ _ number => Ok (ListPullRequestCommits fc number);
     labelplugins.AddLabel := fun _ _ _ _ => None;
     labelplugins.RemoveLabel := fun _ _ _ _ => None;
     labelplugins.CreateComment := fun _ _ _ _ => None |}.

(** The state of the fake after one call; [fakePruner.PruneComments]
    does nothing. *)
Definition step (fc : fakeClient) (c : call) : fakeClient :=
  match c with
  | CallAddLabel _ _ _ label => AddLabel fc label
  | CallRemoveLabel _ _ _ label => RemoveLabel fc label
  | CallCreateComment _ _ number comment => CreateComment fc number comment
  | _ => fc
  end.

Definition after (fc : fakeClient) (calls : list call) : fakeClient := foldl step fc calls.

Definition PullRequestActionEdited : string := "edited".

Definition makeFakePullRequestEvent (action : string) : PullRequestEvent :=
  {| Action := action;
     Number := 5;
     UserLogin := "";
     BaseRef := "";
     Repo := {| github.Owner := {| github.Login := "" |};
                github.Name := ""; github.FullName := "" |} |}.

Record testcase : Type := {
  name : string;
  action : string;
  tcCommitMessages : list string;
  tcLabels : list string;
  tcAdded : list string;
  tcRemoved : list string;
  expectComment : bool
}.

Definition testcases : list testcase := [
  {| name := "unsupported PR action -> no-op";
     action := PullRequestActionEdited;
     tcCommitMessages := []; tcLabels := []; tcAdded := []; tcRemoved := [];
     expectComment := false |};
  {| name := "contains valid message -> no-op";
     action := github.PullRequestActionReopened;
     tcCommitMessages := ["this is a valid message"; "fixing k/k#9999"; "not a @ mention"];
     tcLabels := []; tcAdded := []; tcRemoved := [];
     expectComment := false |};
  {| name := "msg contains @mention -> add label and comment";
     action := github.PullRequestActionOpened;
     tcCommitMessages := ["this is a @mention"];
     tcLabels := []; tcAdded := [invalidcommitmsg.invalidCommitMsgLabel]; tcRemoved := [];
     expectComment := true |};
  {| name := "msg contains the keyword fixes -> add label and comment";
     action := github.PullRequestActionOpened;
     tcCommitMessages := ["fixes #9999"];
     tcLabels := []; tcAdded := [invalidcommitmsg.invalidCommitMsgLabel]; tcRemoved := [];
     expectComment := true |};
  {| name := "msg contains the keyword close -> add label and comment";
     action := github.PullRequestActionOpened;
     tcCommitMessages := ["close k/k#9999"];
     tcLabels := []; tcAdded := [invalidcommitmsg.invalidCommitMsgLabel]; tcRemoved := [];
     expectComment := true |};
  {| name := "msg contains the keyword resolved -> add label and comment";
     action := github.PullRequestActionOpened;
     tcCommitMessages := ["resolved k/k#9999"];
     tcLabels := []; tcAdded := [invalidcommitmsg.invalidCommitMsgLabel]; tcRemoved := [];
     expectComment := true |};
  {| name := "msg contains the keyword fix and @mention -> add label and comment";
     action := github.PullRequestActionOpened;
     tcCommitMessages := ["fix #9999"; "this is a @mention"];
     tcLabels := []; tcAdded := [invalidcommitmsg.invalidCommitMsgLabel]; tcRemoved := [];
     expectComment := true |};
  {| name := "msg contains invalid keywords but has label -> add comment";
     action := github.PullRequestActionOpened;
     tcCommitMessages := ["this @menti-on has a hyphen"];
     tcLabels := [invalidcommitmsg.invalidCommitMsgLabel]; tcAdded := []; tcRemoved := [];
     expectComment := true |};
  {| name := "msg does not contain invalid keywords but has label -> remove label";
     action := github.PullRequestActionOpened;
     tcCommitMessages := ["this is a valid message"];
     tcLabels := [invalidcommitmsg.invalidCommitMsgLabel];
     tcAdded := []; tcRemoved := [invalidcommitmsg.invalidCommitMsgLabel];
     expectComment := false |};
  {| name := "msg does not contain invalid keywords but has label -> remove label";
     action := github.PullRequestActionOpened;
     tcCommitMessages := ["this is a valid message"];
     tcLabels := [invalidcommitmsg.invalidCommitMsgLabel];
     tcAdded := []; tcRemoved := [invalidcommitmsg.invalidCommitMsgLabel];
     expectComment := false |}
].

(** The fake client the test builds for a case. *)
Definition setup (tc : testcase) : fakeClient :=
  {| labels := tcLabels tc;
     added := [];
     removed := [];
     commentsAdded := ∅;
     commitMessages :=
       if negb (Z.of_nat (length (tcCommitMessages tc)) =? 0)
       then {[ 5 := tcCommitMessages tc ]} else ∅ |}.

(** The body of the loop of [TestInvalidCommitMessage]: no error, the
    expected labels added and removed, one comment or none.  No slice
    of the table or of the fake is nil, so that [reflect.DeepEqual] is
    equality of lists. *)
Definition passes (deps : Deps) (tc : testcase) : Prop :=
  let fc := setup tc in
  let '(calls, res) :=
    invalidcommitmsg.handle deps (client fc) (makeFakePullRequestEvent (action tc)) in
  let fc' := after fc calls in
  res = Returns None
  ∧ tcAdded tc = added fc'
  ∧ tcRemoved tc = removed fc'
  ∧ NumComments fc' = if expectComment tc then 1%nat else 0%nat.

(** One run of [handle] on the fake: the answers come from the state
    the run starts in, since [handle] lists the labels and the commits
    before its first change; the changes are then applied in order. *)
Definition run (deps : Deps) (fc : fakeClient) (pr : PullRequestEvent)
  : fakeClient * ending :=
  let '(calls, res) := invalidcommitmsg.handle deps (client fc) pr in
  (after fc calls, res).

(** The commit messages the fake has for a pull request. *)
Definition messages (fc : fakeClient) (number : Z) : list string :=
  default [] (commitMessages fc !! number).

(** The comments the fake has recorded for a pull request. *)
Definition comments (fc : fakeClient) (number : Z) : list string :=
  default [] (commentsAdded fc !! number).

End fake.

(** ** Pull requests and clients to run the two plugins on *)

Module Cases.

Import labelplugins.

(** Stand-ins for the functions of the github and plugins packages:
    a label is found by its name as it is written. *)
Definition deps : Deps :=
  {| HasLabel := fun label labels =>
       existsb (fun l => String.eqb (LabelName l) label) labels;
     FormatSimpleResponse := fun to message => "@" +:+ to +:+ ": " +:+ message;
     quote := fun s => s |}.

Definition kubernetes : github.Repo :=
  {| github.Owner := {| github.Login := "kubernetes" |};
     github.Name := "test-infra"; github.FullName := "kubernetes/test-infra" |}.

Definition event (action branch : string) : PullRequestEvent :=
  {| Action := action; Number := 5; UserLogin := "alice"; BaseRef := branch;
     Repo := kubernetes |}.

(** A client with the given labels and commits whose calls succeed. *)
Definition answering (labels : list string) (commits : list RepositoryCommit) : Client :=
  {| GetIssueLabels := fun _ _ _ => (map (fun l => {| LabelName := l |}) labels, None);
     ListPullRequestCommits := fun _ _ _ => Ok commits;
     AddLabel := fun _ _ _ _ => None;
     RemoveLabel := fun _ _ _ _ => None;
     CreateComment := fun _ _ _ _ => None |}.

(** A client none of whose calls succeeds. *)
Definition down : Client :=
  {| GetIssueLabels := fun _ _ _ => ([], Some "502 Bad Gateway");
     ListPullRequestCommits := fun _ _ _ => Err "502 Bad Gateway";
     AddLabel := fun _ _ _ _ => Some "502 Bad Gateway";
     RemoveLabel := fun _ _ _ _ => Some "502 Bad Gateway";
     CreateComment := fun _ _ _ _ => Some "502 Bad Gateway" |}.

Definition commit (sha message : string) : RepositoryCommit :=
  {| CommitSHA := sha; RepoCommit := {| Message := message |} |}.

Definition commits : list RepositoryCommit :=
  [commit "0123456789abcdef" "Add the parser";
   commit "89abcdef01234567" "Fixes #12: parser crash";
   commit "fedcba9876543210" "thanks @bob"].

Definition plainCommits : list RepositoryCommit :=
  [commit "0123456789abcdef" "Add the parser";
   commit "abc" "fixing the parser"].

(** A state of the fake client with two commits, one of them invalid. *)
Definition mentioning : fake.fakeClient :=
  {| fake.labels := ["lgtm"];
     fake.added := [];
     fake.removed := [];
     fake.commentsAdded := ∅;
     fake.commitMessages := {[ 5 := ["Add the parser"; "thanks @bob"] ]} |}.

(** A push to the pull request, and the fake after one and after two
    runs of the plugin for it. *)
Definition synchronize : PullRequestEvent :=
  event github.PullRequestActionSynchronize "master".

Definition once : fake.fakeClient := (fake.run deps mentioning synchronize).1.

End Cases.

(** ** The library models on examples *)

Example Base_nested : filepath.Base "pkg/api/OWNERS" = "OWNERS".
Proof. reflexivity. Qed.

Example Dir_root : filepath.Dir "OWNERS" = ".".
Proof. reflexivity. Qed.

Example Dir_nested : filepath.Dir "pkg/api/OWNERS" = "pkg/api".
Proof. reflexivity. Qed.

Example Dir_dotdot : filepath.Dir "pkg/../OWNERS" = ".".
Proof. reflexivity. Qed.

Example Join_repo : filepath.Join ["/tmp/repo"; "pkg/OWNERS"] = "/tmp/repo/pkg/OWNERS".
Proof. reflexivity. Qed.

Example FindStringSubmatch_yaml :
  lineno.FindStringSubmatch "error converting YAML to JSON: yaml: line 4: did not find expected key"
  = Some "4".
Proof. reflexivity. Qed.

Example FindStringSubmatch_none : lineno.FindStringSubmatch "unexpected newline" = None.
Proof. reflexivity. Qed.

Example Atoi_42 : lineno.Atoi "42" = 42.
Proof. reflexivity. Qed.

Example List_sorted : sets.List (sets.NewString ["bob"; "alice"; "bob"]) = ["alice"; "bob"].
Proof. vm_compute. reflexivity. Qed.

Example fmt_int_12 : fmt.int 12 = "12".
Proof. reflexivity. Qed.

(** ** Alias entries in the total-users set *)

Section TotalUsers.

Variable aliases : gmap string (gset string).

Lemma elem_of_dropAliases (l : list string) (s : gset string) (u : string) :
  u ∈ dropAliases aliases l s ↔ u ∈ s ∧ ¬ (u ∈ l ∧ is_Some (aliases !! u)).
Proof.
  revert s. induction l as [|x l IH]; intros s; simpl.
  - split; [intros H; split; [done|] | tauto].
    intros [Hin _]. by apply elem_of_nil in Hin.
  - rewrite IH. destruct (aliases !! x) as [g|] eqn:Hx.
    + unfold sets.Delete. rewrite elem_of_difference, elem_of_singleton, elem_of_cons.
      split.
      * intros [[Hs Hne] Hl]. split; [done|]. intros [[->|Hin] Ha]; [done|]. by apply Hl.
      * intros [Hs Hn]. split; [split; [done|] |].
        -- intros ->. apply Hn. split; [by left | by rewrite Hx].
        -- intros [Hin Ha]. apply Hn. split; [by right | done].
    + rewrite elem_of_cons. split.
      * intros [Hs Hl]. split; [done|]. intros [[->|Hin] Ha].
        -- rewrite Hx in Ha. by destruct Ha.
        -- by apply Hl.
      * intros [Hs Hn]. split; [done|]. intros [Hin Ha]. apply Hn. split; [by right | done].
Qed.

Lemma elem_of_totalUsers_from (lists : list (list string)) (acc : gset string) (u : string) :
  u ∈ foldl (fun acc list => dropAliases aliases list (sets.Union acc (sets.NewString list)))
        acc lists
  ↔ (aliases !! u = None ∧ (u ∈ acc ∨ ∃ l, l ∈ lists ∧ u ∈ l))
    ∨ (is_Some (aliases !! u) ∧ u ∈ acc ∧ ∀ l, l ∈ lists → u ∉ l).
Proof.
  revert acc. induction lists as [|l lists IH]; intros acc; simpl.
  - destruct (aliases !! u) as [g|] eqn:Hu.
    + split.
      * intros H. right. split; [done|]. split; [done|]. intros l Hl. by apply elem_of_nil in Hl.
      * intros [[? _]|[_ [? _]]]; done.
    + split.
      * intros H. left. split; [done | by left].
      * intros [[_ [?|[l [Hl _]]]]|[Hs _]]; [done | by apply elem_of_nil in Hl | by destruct Hs].
  - rewrite IH, elem_of_dropAliases. unfold sets.Union, sets.NewString.
    rewrite elem_of_union, elem_of_list_to_set.
    destruct (aliases !! u) as [g|] eqn:Hu.
    + split.
      * intros [[? _]|[_ [[Hacc Hn] Hrest]]]; [done|]. right. split; [done|].
        assert (u ∉ l) as Hul by (intros Hin; apply Hn; split; [done | by eexists]).
        destruct Hacc as [Hacc|Hin]; [|done]. split; [done|].
        intros l' [->|Hl']%elem_of_cons; [done | by apply Hrest].
      * intros [[? _]|[_ [Hacc Hall]]]; [done|]. right. split; [done|]. split.
        -- split; [by left|]. intros [Hin _]. by apply (Hall l); [left|].
        -- intros l' Hl'. apply Hall. by right.
    + split.
      * intros [[_ [[[Hacc|Hin] _]|[l' [Hl' Hin]]]]|[Hs _]].
        -- left. split; [done | by left].
        -- left. split; [done|]. right. exists l. split; [by left | done].
        -- left. split; [done|]. right. exists l'. split; [by right | done].
        -- by destruct Hs.
      * intros [[_ [Hacc|[l' [[->|Hl']%elem_of_cons Hin]]]]|[Hs _]].
        -- left. split; [done|]. left. split; [by left|]. intros [_ Hs]. by destruct Hs.
        -- left. split; [done|]. left. split; [by right|]. intros [_ Hs]. by destruct Hs.
        -- left. split; [done|]. right. by exists l'.
        -- by destruct Hs.
Qed.

End TotalUsers.

(** ** Traces of runs *)

Lemma bind_Continue {A B : Type} (m : M A) (f : A -> M B) tr a :
  m = (tr, Continue a) → m ≫= f = (tr ++ (f a).1, (f a).2).
Proof. intros ->. unfold mbind, M_bind. by destruct (f a). Qed.

Lemma bind_Return {A B : Type} (m : M A) (f : A -> M B) tr err :
  m = (tr, Return err) → m ≫= f = (tr, Return err).
Proof. by intros ->. Qed.

Lemma bind_trace_Forall {A B : Type} (P : event -> Prop) (m : M A) (f : A -> M B) :
  Forall P m.1 → (∀ a, Forall P (f a).1) → Forall P (m ≫= f).1.
Proof.
  destruct m as [tr [a|err]]; simpl; intros Hm Hf; [|done].
  specialize (Hf a). destruct (f a) as [tr' r]. simpl in *. by apply Forall_app.
Qed.

Lemma emit_trace_Forall (P : event -> Prop) (e : event) : P e → Forall P (emit e).1.
Proof. intros H. by repeat constructor. Qed.

Lemma mret_trace_Forall {A : Type} (P : event -> Prop) (a : A) : Forall P (mret a : M A).1.
Proof. constructor. Qed.

Lemma return_trace_Forall {A : Type} (P : event -> Prop) err : Forall P (@return_ A err).1.
Proof. constructor. Qed.

Lemma range_trace_Forall {S X : Type} (P : event -> Prop) (body : S -> X -> M S)
    (l : list X) (st : S) :
  (∀ st c, Forall P (body st c).1) → Forall P (range body l st).1.
Proof.
  intros Hbody. revert st. induction l as [|c l IH]; intros st; simpl.
  - constructor.
  - apply bind_trace_Forall; [apply Hbody | apply IH].
Qed.

Ltac trace_step :=
  first
    [ apply mret_trace_Forall
    | apply return_trace_Forall
    | apply emit_trace_Forall; reflexivity
    | apply bind_trace_Forall; [|intros ?] ].

Section ValidationTrace.

Variable lib : Lib.
Variable w : World.

Lemma getMembersForOrg_trace orgName :
  Forall (fun e => is_lookup_event e = true) (getMembersForOrg lib w orgName).1.
Proof. unfold getMembersForOrg. repeat trace_step. Qed.

Lemma ensureMembers_trace orgName roster :
  Forall (fun e => is_lookup_event e = true) (ensureMembers lib w orgName roster).1.
Proof.
  unfold ensureMembers. destruct (sets.Len roster =? 0); [|trace_step].
  trace_step; [apply getMembersForOrg_trace|]. destruct a; trace_step.
Qed.

Lemma relativeLine_trace filename patch errText :
  Forall (fun e => is_lookup_event e = true) (relativeLine lib filename patch errText).1.
Proof.
  unfold relativeLine. destruct (lineno.FindStringSubmatch errText); [|trace_step].
  destruct (AddedLines lib patch) as [al|e].
  - destruct (al !! _); trace_step.
  - repeat trace_step.
Qed.

Lemma parseOwners_trace c b :
  Forall (fun e => is_lookup_event e = true) (parseOwners lib c b).1.
Proof.
  unfold parseOwners. destruct (simpleRoles _); [trace_step|].
  destruct (ParseFullConfig lib b); [trace_step|].
  trace_step; [apply relativeLine_trace | trace_step].
Qed.

Lemma readFile_trace path :
  Forall (fun e => is_validation_event e = true) (readFile w path).1.
Proof.
  unfold readFile. trace_step; [trace_step|].
  destruct (ReadFile w path); repeat trace_step.
Qed.

Lemma lookup_is_validation {A : Type} (m : M A) :
  Forall (fun e => is_lookup_event e = true) m.1 →
  Forall (fun e => is_validation_event e = true) m.1.
Proof. intros H. eapply Forall_impl; [exact H|]. by intros []. Qed.

Lemma checkOwnersFile_trace orgName dir bl st c :
  Forall (fun e => is_validation_event e = true)
         (checkOwnersFile lib w orgName dir bl st c).1.
Proof.
  unfold checkOwnersFile. trace_step; [apply readFile_trace|].
  trace_step; [apply lookup_is_validation, parseOwners_trace|].
  destruct a0 as [m|roles]; [trace_step|].
  destruct (sets.HasAny _ _); [trace_step|].
  destruct (_ && _); [trace_step|].
  trace_step; [apply lookup_is_validation, ensureMembers_trace | trace_step].
Qed.

Lemma checkOwnersAliases_trace orgName dir ch st :
  Forall (fun e => is_validation_event e = true)
         (checkOwnersAliases lib w orgName dir ch st).1.
Proof.
  unfold checkOwnersAliases. trace_step; [apply readFile_trace|].
  destruct (ParseAliasesConfig lib a) as [aliases perr].
  trace_step.
  - destruct perr; [|trace_step].
    trace_step; [apply lookup_is_validation, relativeLine_trace | trace_step].
  - trace_step; [apply lookup_is_validation, ensureMembers_trace | trace_step].
Qed.

Lemma loadBaseAliases_trace {A : Type} dir :
  Forall (fun e => is_validation_event e = true) (@loadBaseAliases lib w A dir).1.
Proof.
  unfold loadBaseAliases. trace_step; [apply readFile_trace|].
  destruct (ParseAliasesConfig lib a). trace_step.
Qed.

Lemma validate_trace pre bl dir changes :
  Forall (fun e => is_validation_event e = true) (validate lib w pre bl dir changes).1.
Proof.
  unfold validate. destruct (findOwnerAliases changes) as [ch modified].
  trace_step; [trace_step|].
  destruct (CheckoutPullRequest w _); [trace_step|].
  trace_step.
  - destruct modified; [apply checkOwnersAliases_trace | trace_step].
  - trace_step.
    + destruct (_ && _); [apply loadBaseAliases_trace | trace_step].
    + apply range_trace_Forall. intros. apply checkOwnersFile_trace.
Qed.

Lemma validate_no_action pre bl dir changes :
  filter (fun e => is_action e = true) (validate lib w pre bl dir changes).1 = [].
Proof.
  pose proof (validate_trace pre bl dir changes) as H.
  induction H as [|e tr He _ IH]; [done|].
  rewrite filter_cons. destruct (decide (is_action e = true)) as [Ha|_]; [|done].
  destruct e; discriminate.
Qed.

End ValidationTrace.

(** ** From the decision to the end of the run *)

Lemma filter_action_cleanEvents w : filter (fun e => is_action e = true) (cleanEvents w) = [].
Proof. unfold cleanEvents. by destruct (CleanRepo w). Qed.

Section Decision.

Variable lib : Lib.
Variable w : World.
Variable pre : github.PullRequestEvent.
Variable labelsBlackList : list string.

Let orgName := github.Login (github.Owner (github.EvRepo pre)).
Let repo := github.Name (github.EvRepo pre).
Let number := github.Number pre.

Lemma handle_decision st :
  decision lib w pre labelsBlackList = Some st →
  filter (fun e => is_action e = true) (handle lib w pre labelsBlackList).1
  = filter (fun e => is_action e = true) (react lib w pre st).1
  ∧ (handle lib w pre labelsBlackList).2 = (finish (react lib w pre st)).2.
Proof.
  unfold decision, handle, handleM. fold orgName repo number.
  destruct (GetPullRequestChanges w orgName repo number) as [changes|e]; [|done].
  destruct (_ && _); [done|].
  destruct (Clone w _) as [dir|e]; [|done].
  pose proof (validate_no_action lib w pre labelsBlackList dir changes) as Hq.
  destruct (validate lib w pre labelsBlackList dir changes) as [vtr [st'|err]]; [|done].
  intros [= ->]. simpl in Hq.
  destruct (react lib w pre st) as [rtr [[]|rerr]] eqn:Hr.
  unfold mbind, M_bind, emit, deferClean. simpl. rewrite Hr. simpl.
  split; [|done].
  fold (cleanEvents w).
  rewrite 2!filter_cons_False by (simpl; discriminate).
  rewrite !filter_app, Hq, filter_action_cleanEvents. simpl. by rewrite app_nil_r.
Qed.

Lemma handle_no_decision :
  decision lib w pre labelsBlackList = None →
  filter (fun e => is_action e = true) (handle lib w pre labelsBlackList).1 = [].
Proof.
  unfold decision, handle, handleM. fold orgName repo number.
  destruct (GetPullRequestChanges w orgName repo number) as [changes|e]; [|done].
  destruct (_ && _); [done|].
  destruct (Clone w _) as [dir|e]; [|done].
  pose proof (validate_no_action lib w pre labelsBlackList dir changes) as Hq.
  destruct (validate lib w pre labelsBlackList dir changes) as [vtr [st'|err]]; [done|].
  intros _. simpl in Hq. unfold mbind, M_bind, emit, deferClean. simpl.
  fold (cleanEvents w).
  rewrite 2!filter_cons_False by (simpl; discriminate).
  by rewrite !filter_app, Hq, filter_action_cleanEvents.
Qed.

Lemma react_violation_AddLabel_fails st e :
  sawSomething st = true →
  AddLabel w orgName repo number (InvalidOwners lib) = Some e →
  finish (react lib w pre st) = ([EvAddLabel orgName repo number (InvalidOwners lib)], Some e).
Proof.
  intros Hsaw Hadd. unfold react. fold orgName repo number. by rewrite Hsaw, Hadd.
Qed.

Lemma react_violation_AddLabel_ok st :
  sawSomething st = true →
  AddLabel w orgName repo number (InvalidOwners lib) = None →
  filter (fun e => is_action e = true) (react lib w pre st).1
  = [EvAddLabel orgName repo number (InvalidOwners lib);
     EvCreateReview orgName repo number (draftReview lib pre st)]
  ∧ (finish (react lib w pre st)).2
    = match CreateReview w orgName repo number (draftReview lib pre st) with
      | Some e => Some ("error creating a review for " +:+ response lib orgName st
                        +:+ ": " +:+ e)
      | None => None
      end.
Proof.
  intros Hsaw Hadd. unfold react. fold orgName repo number. rewrite Hsaw, Hadd.
  destruct (0 <? _); destruct (wrongOwnersAliasesFilePresent st);
    destruct (CreateReview w orgName repo number _); done.
Qed.

Lemma react_no_violation st :
  sawSomething st = false →
  finish (react lib w pre st)
  = ([EvRemoveLabel orgName repo number (InvalidOwners lib)],
     match RemoveLabel w orgName repo number (InvalidOwners lib) with
     | Some e => Some ("failed removing " +:+ InvalidOwners lib +:+ " label: " +:+ e)
     | None => None
     end).
Proof.
  intros Hsaw. unfold react. fold orgName repo number. rewrite Hsaw.
  by destruct (RemoveLabel w orgName repo number _).
Qed.

Lemma finish_trace (m : M Empty_set) : (finish m).1 = m.1.
Proof. by destruct m as [tr [[]|err]]. Qed.

End Decision.

(** ** The decision *)

Section Acting.

Variable lib : Lib.
Variable w : World.
Variable pre : github.PullRequestEvent.
Variable labelsBlackList : list string.

Let orgName := github.Login (github.Owner (github.EvRepo pre)).
Let repo := github.Name (github.EvRepo pre).
Let number := github.Number pre.

(** C2, as amended: a run that decides on a state without violation
    calls [RemoveLabel] for the invalid-owners label and makes no other
    call that changes the pull request: no review, no comment, no
    pruning of comments. *)
Theorem no_violation_only_removes_label (st : vstate) :
  decision lib w pre labelsBlackList = Some st →
  sawSomething st = false →
  filter (fun e => is_action e = true) (handle lib w pre labelsBlackList).1
  = [EvRemoveLabel orgName repo number (InvalidOwners lib)].
Proof.
  intros Hdec Hsaw.
  destruct (handle_decision lib w pre labelsBlackList st Hdec) as [-> _].
  rewrite <- finish_trace, (react_no_violation lib w pre st Hsaw). done.
Qed.

(** C4, as amended: a failing [AddLabel], [CreateReview] or
    [RemoveLabel] ends the run with a non-nil error for the caller;
    after a failing [AddLabel] no review is posted. *)
Theorem notification_failures_are_returned (st : vstate) :
  decision lib w pre labelsBlackList = Some st →
  (sawSomething st = true →
   ∀ e, AddLabel w orgName repo number (InvalidOwners lib) = Some e →
        (handle lib w pre labelsBlackList).2 = Some e
        ∧ filter (fun e => is_action e = true) (handle lib w pre labelsBlackList).1
          = [EvAddLabel orgName repo number (InvalidOwners lib)])
  ∧ (sawSomething st = true →
     AddLabel w orgName repo number (InvalidOwners lib) = None →
     ∀ e, CreateReview w orgName repo number (draftReview lib pre st) = Some e →
          (handle lib w pre labelsBlackList).2
          = Some ("error creating a review for " +:+ response lib orgName st +:+ ": " +:+ e))
  ∧ (sawSomething st = false →
     ∀ e, RemoveLabel w orgName repo number (InvalidOwners lib) = Some e →
          (handle lib w pre labelsBlackList).2
          = Some ("failed removing " +:+ InvalidOwners lib +:+ " label: " +:+ e)).
Proof.
  intros Hdec.
  destruct (handle_decision lib w pre labelsBlackList st Hdec) as [Htr Hres].
  rewrite Htr, Hres. clear Htr Hres. split; [|split].
  - intros Hsaw e Hadd. rewrite <- finish_trace.
    by rewrite (react_violation_AddLabel_fails lib w pre st e Hsaw Hadd).
  - intros Hsaw Hadd e Hrev.
    destruct (react_violation_AddLabel_ok lib w pre st Hsaw Hadd) as [_ ->].
    fold orgName repo number. by rewrite Hrev.
  - intros Hsaw e Hrm. rewrite (react_no_violation lib w pre st Hsaw).
    fold orgName repo number. by rewrite Hrm.
Qed.

End Acting.

(** C2 fails as stated: the clean pull request is decided without
    violation, and the run prunes no comment. *)
Lemma clean_run_prunes_nothing :
  (∃ st, decision Scenario.lib Scenario.cleanPR Scenario.pre [] = Some st
         ∧ sawSomething st = false)
  ∧ EvPruneComments ∉ (handle Scenario.lib Scenario.cleanPR Scenario.pre []).1.
Proof.
  split.
  - eexists. split; [vm_compute; reflexivity | vm_compute; reflexivity].
  - intros Hin. vm_compute in Hin.
    repeat (apply elem_of_cons in Hin as [Hin|Hin]; [discriminate|]).
    by apply elem_of_nil in Hin.
Qed.

Lemma no_violation_only_removes_label_witness :
  filter (fun e => is_action e = true)
         (handle Scenario.lib Scenario.cleanPR Scenario.pre []).1
  = [EvRemoveLabel "kubernetes" "test-infra" 7 "do-not-merge/invalid-owners-file"].
Proof.
  eapply (no_violation_only_removes_label Scenario.lib Scenario.cleanPR Scenario.pre []).
  - vm_compute. reflexivity.
  - vm_compute. reflexivity.
Defined.

(** ** The review *)

Lemma append_assoc (a b c : string) : (a +:+ b) +:+ c = a +:+ b +:+ c.
Proof.
  induction a as [|ch a IH]; [done|].
  change (String ch ((a +:+ b) +:+ c) = String ch (a +:+ b +:+ c)). by f_equal.
Qed.

Lemma append_empty_r (a : string) : a +:+ "" = a.
Proof.
  induction a as [|ch a IH]; [done|].
  change (String ch (a +:+ "") = String ch a). by f_equal.
Qed.

Lemma elem_of_insert_sorted (x u : string) (l : list string) :
  u ∈ sets.insert_sorted x l ↔ u = x ∨ u ∈ l.
Proof.
  induction l as [|y l IH]; simpl.
  - by rewrite elem_of_cons.
  - destruct (String.leb x y).
    + by rewrite elem_of_cons.
    + rewrite !elem_of_cons, IH. tauto.
Qed.

Lemma length_insert_sorted (x : string) (l : list string) :
  length (sets.insert_sorted x l) = S (length l).
Proof.
  induction l as [|y l IH]; simpl; [done|].
  destruct (String.leb x y); simpl; [done | by rewrite IH].
Qed.

Lemma elem_of_sets_List (s : gset string) (u : string) : u ∈ sets.List s ↔ u ∈ s.
Proof.
  unfold sets.List. rewrite <- (elem_of_elements s).
  induction (elements s) as [|x l IH]; simpl; [done|].
  by rewrite elem_of_insert_sorted, elem_of_cons, IH.
Qed.

Lemma length_sets_List (s : gset string) : length (sets.List s) = size s.
Proof.
  unfold sets.List, size, set_size. simpl.
  induction (elements s) as [|x l IH]; simpl; [done|].
  by rewrite length_insert_sorted, IH.
Qed.

Lemma nonMemberResp_bullets (init : string) (users : list string) :
  foldl (fun acc user => acc +:+ fmt.newline +:+ "  - @" +:+ user) init users
  = init +:+ strings.cat (map (fun user => fmt.newline +:+ "  - @" +:+ user) users).
Proof.
  revert init. induction users as [|u users IH]; intros init.
  - simpl. by rewrite append_empty_r.
  - cbn [foldl map strings.cat]. rewrite IH. by rewrite !append_assoc.
Qed.

Lemma response_summary (lib : Lib) (orgName : string) (st : vstate) :
  response lib orgName st = strings.cat (summaryParts lib orgName st).
Proof.
  unfold response, summaryParts, nonMemberResp, plural, ownersFileName, ownersAliasesFileName.
  rewrite nonMemberResp_bullets.
  destruct (0 <? Z.of_nat (size (wrongOwnersFiles st)));
    destruct (wrongOwnersAliasesFilePresent st);
    destruct (0 <? Z.of_nat (size (nonMembers st)));
    cbn [app strings.cat]; rewrite ?append_assoc, ?append_empty_r; reflexivity.
Qed.

Lemma length_reviewComments (st : vstate) :
  length (reviewComments st)
  = (size (wrongOwnersFiles st) + (if wrongOwnersAliasesFilePresent st then 1 else 0))%nat.
Proof.
  unfold reviewComments. rewrite length_app, length_map, length_map_to_list.
  by destruct (wrongOwnersAliasesFilePresent st).
Qed.

Lemma elem_of_reviewComments (st : vstate) (c : github.DraftReviewComment) :
  c ∈ reviewComments st
  ↔ (∃ m, wrongOwnersFiles st !! github.Path c = Some m
          ∧ github.Position c = line m ∧ github.CommentBody c = message m)
    ∨ (wrongOwnersAliasesFilePresent st = true
       ∧ c = {| github.Path := ownersAliasesFileName;
                github.CommentBody := message (ownersAliasesFileError st);
                github.Position := line (ownersAliasesFileError st) |}).
Proof.
  unfold reviewComments. rewrite elem_of_app.
  assert (c ∈ map (fun '(errFile, err) =>
                     {| github.Path := errFile; github.CommentBody := message err;
                        github.Position := line err |})
                  (map_to_list (wrongOwnersFiles st))
          ↔ ∃ m, wrongOwnersFiles st !! github.Path c = Some m
                 ∧ github.Position c = line m ∧ github.CommentBody c = message m) as ->.
  { change (map ?f ?l) with (f <$> l). rewrite list_elem_of_fmap. split.
    - intros [[file m] [-> Hin]]. apply elem_of_map_to_list in Hin. by exists m.
    - intros [m [Hm [Hpos Hbody]]]. exists (github.Path c, m). split.
      + destruct c. simpl in *. by subst.
      + by apply elem_of_map_to_list. }
  destruct (wrongOwnersAliasesFilePresent st).
  - rewrite list_elem_of_singleton. split.
    + intros [H|H]; [by left | by right].
    + intros [H|[_ H]]; [by left | by right].
  - rewrite elem_of_nil. split.
    + intros [H|[]]. by left.
    + intros [H|[H _]]; [by left | discriminate].
Qed.

Section Review.

Variable lib : Lib.
Variable w : World.
Variable pre : github.PullRequestEvent.
Variable labelsBlackList : list string.

Let orgName := github.Login (github.Owner (github.EvRepo pre)).
Let repo := github.Name (github.EvRepo pre).
Let number := github.Number pre.

(** C7, as amended: a run that decides on a state with a violation
    calls [AddLabel] for the invalid-owners label and, when that call
    succeeds, posts exactly one review; after a failing [AddLabel] it
    posts none.  The review carries one comment for every wrong OWNERS
    file, at the line recorded for it, one more for the alias file when
    that did not parse, and the summary: the count of invalid files,
    the alias-file violation, the users that are not members. *)
Theorem violation_labels_then_reviews_once (st : vstate) :
  decision lib w pre labelsBlackList = Some st →
  sawSomething st = true →
  let review := draftReview lib pre st in
  filter (fun e => is_action e = true) (handle lib w pre labelsBlackList).1
  = EvAddLabel orgName repo number (InvalidOwners lib)
    :: match AddLabel w orgName repo number (InvalidOwners lib) with
       | None => [EvCreateReview orgName repo number review]
       | Some _ => []
       end
  ∧ length (github.Comments review)
    = (size (wrongOwnersFiles st) + (if wrongOwnersAliasesFilePresent st then 1 else 0))%nat
  ∧ (∀ c, c ∈ github.Comments review
          ↔ (∃ m, wrongOwnersFiles st !! github.Path c = Some m
                  ∧ github.Position c = line m ∧ github.CommentBody c = message m)
            ∨ (wrongOwnersAliasesFilePresent st = true
               ∧ c = {| github.Path := ownersAliasesFileName;
                        github.CommentBody := message (ownersAliasesFileError st);
                        github.Position := line (ownersAliasesFileError st) |}))
  ∧ github.ReviewBody review
    = FormatResponseRaw lib (github.Body (github.PR pre)) (github.HTMLURL (github.PR pre))
        (github.Login (github.PRUser (github.PR pre)))
        (strings.cat (summaryParts lib orgName st))
  ∧ (∀ user, user ∈ nonMembers st ↔ user ∈ sets.List (nonMembers st)).
Proof.
  intros Hdec Hsaw review.
  destruct (handle_decision lib w pre labelsBlackList st Hdec) as [-> _].
  split; [|split; [|split; [|split]]].
  - destruct (AddLabel w orgName repo number (InvalidOwners lib)) as [e|] eqn:Hadd.
    + rewrite <- finish_trace.
      by rewrite (react_violation_AddLabel_fails lib w pre st e Hsaw Hadd).
    + by destruct (react_violation_AddLabel_ok lib w pre st Hsaw Hadd) as [-> _].
  - apply length_reviewComments.
  - intros c. apply elem_of_reviewComments.
  - unfold review, draftReview. simpl. by rewrite response_summary.
  - intros user. by rewrite elem_of_sets_List.
Qed.

End Review.

(** C7 fails as stated: the broken pull request is decided with a
    violation, and when [AddLabel] fails the run posts no review. *)
Lemma failed_AddLabel_posts_no_review :
  let w := Scenario.answering Scenario.brokenPR (Some "403 Forbidden") None None in
  (∃ st, decision Scenario.lib w Scenario.pre [] = Some st ∧ sawSomething st = true)
  ∧ ∀ r, EvCreateReview "kubernetes" "test-infra" 7 r ∉ (handle Scenario.lib w Scenario.pre []).1.
Proof.
  split.
  - eexists. split; [vm_compute; reflexivity | vm_compute; reflexivity].
  - intros r Hin. vm_compute in Hin.
    repeat (apply elem_of_cons in Hin as [Hin|Hin]; [discriminate|]).
    by apply elem_of_nil in Hin.
Qed.

Lemma violation_labels_then_reviews_once_witness :
  ∃ review,
    filter (fun e => is_action e = true)
           (handle Scenario.lib Scenario.brokenPR Scenario.pre []).1
    = [EvAddLabel "kubernetes" "test-infra" 7 "do-not-merge/invalid-owners-file";
       EvCreateReview "kubernetes" "test-infra" 7 review]
    ∧ github.Comments review
      = [{| github.Path := "OWNERS"; github.Position := 4;
            github.CommentBody := "Cannot parse file: " +:+ Scenario.filteredError +:+ "." |}].
Proof.
  eexists. split.
  - eapply (violation_labels_then_reviews_once Scenario.lib Scenario.brokenPR Scenario.pre []).
    + vm_compute. reflexivity.
    + vm_compute. reflexivity.
  - vm_compute. reflexivity.
Defined.

(** C4 fails as stated: when posting the review fails, the run
    returns an error to its caller. *)
Lemma failed_review_is_an_error :
  let w := Scenario.answering Scenario.brokenPR None None (Some "502 Bad Gateway") in
  (∃ r, EvCreateReview "kubernetes" "test-infra" 7 r ∈ (handle Scenario.lib w Scenario.pre []).1
        ∧ CreateReview w "kubernetes" "test-infra" 7 r = Some "502 Bad Gateway")
  ∧ (handle Scenario.lib w Scenario.pre []).2 ≠ None.
Proof.
  split.
  - eexists. split; [|reflexivity]. vm_compute.
    do 8 apply list_elem_of_further. apply list_elem_of_here.
  - vm_compute. discriminate.
Qed.

Lemma notification_failures_are_returned_witness :
  (handle Scenario.lib
     (Scenario.answering Scenario.brokenPR (Some "403 Forbidden") None None)
     Scenario.pre []).2 = Some "403 Forbidden"
  ∧ (handle Scenario.lib
       (Scenario.answering Scenario.brokenPR None None (Some "502 Bad Gateway"))
       Scenario.pre []).2 ≠ None
  ∧ (handle Scenario.lib
       (Scenario.answering Scenario.cleanPR None (Some "404 Not Found") None)
       Scenario.pre []).2
    = Some "failed removing do-not-merge/invalid-owners-file label: 404 Not Found".
Proof.
  split; [|split].
  - eapply (notification_failures_are_returned Scenario.lib
              (Scenario.answering Scenario.brokenPR (Some "403 Forbidden") None None)
              Scenario.pre []).
    + vm_compute. reflexivity.
    + vm_compute. reflexivity.
    + reflexivity.
  - edestruct (notification_failures_are_returned Scenario.lib
                 (Scenario.answering Scenario.brokenPR None None (Some "502 Bad Gateway"))
                 Scenario.pre []) as [_ [Hreview _]].
    { vm_compute. reflexivity. }
    rewrite (Hreview ltac:(vm_compute; reflexivity) eq_refl "502 Bad Gateway" eq_refl).
    discriminate.
  - eapply (notification_failures_are_returned Scenario.lib
              (Scenario.answering Scenario.cleanPR None (Some "404 Not Found") None)
              Scenario.pre []).
    + vm_compute. reflexivity.
    + vm_compute. reflexivity.
    + reflexivity.
Defined.

(** ** Alias names and alias members *)

(** C3, as amended: a user is in the total-users set exactly when some
    role list names it and it is not a key of the alias table.  An
    alias entry thus adds nothing, neither its name nor its members. *)
Theorem totalUsers_lists_minus_aliases (aliases : gmap string (gset string))
    (lists : list (list string)) (user : string) :
  user ∈ totalUsers aliases lists
  ↔ (∃ l, l ∈ lists ∧ user ∈ l) ∧ aliases !! user = None.
Proof.
  unfold totalUsers. rewrite elem_of_totalUsers_from. split.
  - intros [[Hnone [Hin|Hex]]|[_ [Hin _]]]; [by apply elem_of_empty in Hin | done |
                                             by apply elem_of_empty in Hin].
  - intros [Hex Hnone]. left. split; [done | by right].
Qed.

(** C3 fails as stated: the approvers name the alias [team-a], whose
    only member is alice, and alice is not in the total-users set. *)
Lemma alias_members_are_not_added :
  let aliases : gmap string (gset string) := {[ "team-a" := {[ "alice" ]} ]} in
  let approvers := ["team-a"; "bob"] in
  "team-a" ∈ approvers
  ∧ aliases !! "team-a" = Some {[ "alice" ]}
  ∧ "alice" ∉ totalUsers aliases [approvers; []; []].
Proof.
  split; [|split].
  - apply list_elem_of_here.
  - vm_compute. reflexivity.
  - unfold totalUsers. rewrite (elem_of_totalUsers_from _ _ ∅ "alice").
    intros [[_ [Hin|[l [Hl Hin]]]]|[_ [Hin _]]].
    + by apply elem_of_empty in Hin.
    + repeat (apply elem_of_cons in Hl as [->|Hl]);
        [ repeat (apply elem_of_cons in Hin as [Hin|Hin]; [discriminate|]);
          by apply elem_of_nil in Hin
        | by apply elem_of_nil in Hin
        | by apply elem_of_nil in Hin
        | by apply elem_of_nil in Hl ].
    + by apply elem_of_empty in Hin.
Qed.

(** ** Filtering of the changed files *)

Lemma elem_of_listOwnersFiles (changes : list github.PullRequestChange)
    (c : github.PullRequestChange) :
  c ∈ listOwnersFiles changes
  ↔ c ∈ changes ∧ filepath.Base (github.Filename c) = ownersFileName.
Proof. unfold listOwnersFiles. rewrite list_elem_of_filter. tauto. Qed.

Lemma findOwnerAliases_from (changes : list github.PullRequestChange)
    (init : github.PullRequestChange * bool) :
  let found :=
    foldl (fun found change =>
             if String.eqb (github.Filename change) ownersAliasesFileName
             then (change, true) else found) init changes in
  (found = init
   ∧ ∀ c, c ∈ changes → github.Filename c ≠ ownersAliasesFileName)
  ∨ (found.2 = true ∧ found.1 ∈ changes
     ∧ github.Filename found.1 = ownersAliasesFileName).
Proof.
  revert init. induction changes as [|c changes IH]; intros init; simpl.
  - left. split; [done|]. by intros c ?%elem_of_nil.
  - destruct (String.eqb_spec (github.Filename c) ownersAliasesFileName) as [Heq|Hne].
    + destruct (IH (c, true)) as [[-> _]|[H2 [Hin Hname]]].
      * right. simpl. split; [done|]. split; [apply list_elem_of_here | done].
      * right. split; [done|]. split; [by apply list_elem_of_further | done].
    + destruct (IH init) as [[-> Hall]|[H2 [Hin Hname]]].
      * left. split; [done|]. intros c' [->|Hin]%elem_of_cons; [done | by apply Hall].
      * right. split; [done|]. split; [by apply list_elem_of_further | done].
Qed.

Section Filtering.

Variable lib : Lib.
Variable w : World.
Variable pre : github.PullRequestEvent.
Variable labelsBlackList : list string.

Let orgName := github.Login (github.Owner (github.EvRepo pre)).
Let repo := github.Name (github.EvRepo pre).
Let number := github.Number pre.

(** C9: the files [handle] keeps are changed files whose base name is
    OWNERS, and the changed file named OWNERS_ALIASES, whose base name
    is OWNERS_ALIASES; when no changed file has one of these base names,
    the run ends after listing the changes: it returns nil and calls
    nothing else, so no label, comment or review. *)
Theorem keeps_only_ownership_files (changes : list github.PullRequestChange) :
  GetPullRequestChanges w orgName repo number = Ok changes →
  (∀ c, c ∈ listOwnersFiles changes
        → c ∈ changes ∧ filepath.Base (github.Filename c) = ownersFileName)
  ∧ ((findOwnerAliases changes).2 = true
     → (findOwnerAliases changes).1 ∈ changes
       ∧ github.Filename (findOwnerAliases changes).1 = ownersAliasesFileName
       ∧ filepath.Base (github.Filename (findOwnerAliases changes).1) = ownersAliasesFileName)
  ∧ ((∀ c, c ∈ changes
           → filepath.Base (github.Filename c) ≠ ownersFileName
             ∧ filepath.Base (github.Filename c) ≠ ownersAliasesFileName)
     → handle lib w pre labelsBlackList
       = ([EvGetPullRequestChanges orgName repo number], None)).
Proof.
  intros Hchanges. split; [|split].
  - intros c. by rewrite elem_of_listOwnersFiles.
  - intros Hfound. unfold findOwnerAliases in *.
    destruct (findOwnerAliases_from changes
                ({| github.Filename := ""; github.Patch := "" |}, false))
      as [[Heq _]|[_ [Hin Hname]]].
    + rewrite Heq in Hfound. discriminate.
    + split; [done|]. split; [done|]. by rewrite Hname.
  - intros Hnone. unfold handle, handleM. fold orgName repo number. rewrite Hchanges.
    assert (listOwnersFiles changes = []) as ->.
    { apply elem_of_nil_inv. intros c Hc.
      apply elem_of_listOwnersFiles in Hc as [Hin Hbase].
      by destruct (Hnone c Hin) as [Hne _]. }
    assert ((findOwnerAliases changes).2 = false) as ->; [|done].
    unfold findOwnerAliases.
    destruct (findOwnerAliases_from changes
                ({| github.Filename := ""; github.Patch := "" |}, false))
      as [[-> _]|[_ [Hin Hname]]]; [done|].
    destruct (Hnone _ Hin) as [_ Hne]. exfalso. apply Hne. by rewrite Hname.
Qed.

End Filtering.

Lemma keeps_only_ownership_files_witness :
  handle Scenario.lib Scenario.unrelatedPR Scenario.pre []
  = ([EvGetPullRequestChanges "kubernetes" "test-infra" 7], None).
Proof.
  eapply (keeps_only_ownership_files Scenario.lib Scenario.unrelatedPR Scenario.pre []).
  - reflexivity.
  - intros c Hc.
    repeat (apply elem_of_cons in Hc as [->|Hc]; [split; vm_compute; discriminate|]).
    by apply elem_of_nil in Hc.
Defined.

(** ** OWNERS files in a pull request that leaves the alias file alone *)

Lemma aliases_unchanged_returns_early (lib : Lib) (w : World)
    (pre : github.PullRequestEvent) (labelsBlackList : list string) (dir : string)
    (changes : list github.PullRequestChange) :
  (findOwnerAliases changes).2 = false →
  listOwnersFiles changes ≠ [] →
  (∃ err, (validate lib w pre labelsBlackList dir changes).2 = Return err)
  ∧ Forall (fun e => e = EvCheckoutPullRequest (github.Number pre)
                     ∨ e = EvReadFile (filepath.Join [dir; ownersAliasesFileName])
                     ∨ ∃ err msg, e = EvErrorf err msg)
           (validate lib w pre labelsBlackList dir changes).1.
Proof.
  intros Hunchanged Hfiles. unfold validate.
  destruct (findOwnerAliases changes) as [ch modified]. simpl in Hunchanged. subst modified.
  destruct (listOwnersFiles changes) as [|c files]; [done|]. clear Hfiles.
  unfold mbind, M_bind, emit, mret, M_ret, return_. simpl.
  destruct (CheckoutPullRequest w (github.Number pre)) as [e|].
  { split; [by eexists|]. simpl. repeat (apply List.Forall_cons; [eauto 6|]). apply List.Forall_nil. }
  unfold loadBaseAliases, readFile, mbind, M_bind, emit, mret, M_ret, return_. simpl.
  destruct (ReadFile w _) as [b|e]; simpl.
  - destruct (ParseAliasesConfig lib b) as [aliases perr]. simpl.
    split; [by eexists|]. simpl. repeat (apply List.Forall_cons; [eauto 6|]). apply List.Forall_nil.
  - split; [by eexists|]. simpl. repeat (apply List.Forall_cons; [eauto 6|]). apply List.Forall_nil.
Qed.

(** C1 on a failing input: the pull request changes the root OWNERS
    file, which does not parse, and leaves OWNERS_ALIASES alone.  The
    run reads the alias file of the checkout and returns nil: the
    OWNERS file is never read, nothing is labelled or reviewed. *)
Theorem owners_unchecked_when_aliases_unchanged :
  handle Scenario.lib Scenario.brokenOwnersOnlyPR Scenario.pre ["priority/critical-urgent"]
  = ([EvGetPullRequestChanges "kubernetes" "test-infra" 7;
      EvClone "kubernetes/test-infra";
      EvCheckoutPullRequest 7;
      EvReadFile "/tmp/clone/OWNERS_ALIASES";
      EvCleanRepo],
     None).
Proof. vm_compute. reflexivity. Qed.

(** ** The roster *)

(** A fetch that succeeds yields the empty roster. *)
Lemma getMembersForOrg_roster (lib : Lib) (w : World) (orgName : string)
    (roster : gset string) :
  (getMembersForOrg lib w orgName).2 = Continue (Ok roster) → roster = ∅.
Proof.
  unfold getMembersForOrg, mbind, M_bind, emit, mret, M_ret. simpl.
  destruct (http_Get w _) as [[data|e]|e]; [|done|done].
  destruct (yaml_Unmarshal lib data org.zero); [done|].
  by intros [= <-].
Qed.

(** C8 on a failing input: the clean pull request changes the alias
    file and one OWNERS file that passes the blacklist and
    root-approver checks; the roster is fetched for the alias file and
    again for the OWNERS file. *)
Theorem roster_fetched_again :
  filter (fun e => is_fetch e = true)
         (handle Scenario.lib Scenario.cleanPR Scenario.pre []).1
  = [EvHttpGet Scenario.rosterURL; EvHttpGet Scenario.rosterURL].
Proof. vm_compute. reflexivity. Qed.

(** ** Failures of reads and of the change list *)

Lemma read_failures_end_bind (w : World) {A B : Type} (m : M A) (f : A -> M B) :
  read_failures_end w m → (∀ a, read_failures_end w (f a)) →
  read_failures_end w (m ≫= f).
Proof.
  intros Hm Hf path e. destruct m as [tr [a|err]]; simpl.
  - specialize (Hf a). destruct (f a) as [tr' r] eqn:Hfa. simpl.
    intros [Hin|Hin]%elem_of_app Hfail.
    + by destruct (Hm path e Hin Hfail) as [? _].
    + destruct (Hf path e Hin Hfail) as [Hr Hlog]. simpl in *. subst r.
      split; [done|]. apply elem_of_app. by right.
  - intros Hin Hfail. destruct (Hm path e Hin Hfail) as [Hr Hlog]. simpl in *.
    by injection Hr as ->.
Qed.

Lemma read_failures_end_no_read (w : World) {A : Type} (m : M A) :
  Forall (fun e => is_lookup_event e = true) m.1 → read_failures_end w m.
Proof.
  intros Hall path e Hin _. rewrite Forall_forall in Hall.
  by specialize (Hall _ Hin).
Qed.

Lemma read_failures_end_range (w : World) {S X : Type} (body : S -> X -> M S)
    (l : list X) (st : S) :
  (∀ st c, read_failures_end w (body st c)) → read_failures_end w (range body l st).
Proof.
  intros Hbody. revert st. induction l as [|c l IH]; intros st; simpl.
  - by intros path e ?%elem_of_nil.
  - apply read_failures_end_bind; [apply Hbody | apply IH].
Qed.

Section ReadFailures.

Variable lib : Lib.
Variable w : World.

Lemma read_failures_end_pure {A : Type} (a : A) : read_failures_end w (mret a : M A).
Proof. by intros path e ?%elem_of_nil. Qed.

Lemma readFile_read_failures_end path : read_failures_end w (readFile w path).
Proof.
  intros p e. unfold readFile, mbind, M_bind, emit, mret, M_ret, return_. simpl.
  destruct (ReadFile w path) as [b|e'] eqn:Hread; simpl.
  - intros [[= <-]|Hin%elem_of_nil]%elem_of_cons Hfail; [congruence | done].
  - intros [[= <-]|Hin]%elem_of_cons Hfail.
    + rewrite Hread in Hfail. injection Hfail as <-. split; [done|].
      apply list_elem_of_further, list_elem_of_here.
    + apply elem_of_cons in Hin as [Hin|Hin%elem_of_nil]; [discriminate | done].
Qed.

Lemma checkOwnersAliases_read_failures_end orgName dir ch st :
  read_failures_end w (checkOwnersAliases lib w orgName dir ch st).
Proof.
  unfold checkOwnersAliases.
  apply read_failures_end_bind; [apply readFile_read_failures_end|]. intros b.
  destruct (ParseAliasesConfig lib b) as [aliases perr].
  apply read_failures_end_bind.
  - destruct perr; [|apply read_failures_end_pure].
    apply read_failures_end_bind; [|intros; apply read_failures_end_pure].
    apply read_failures_end_no_read, relativeLine_trace.
  - intros located.
    apply read_failures_end_bind; [|intros; apply read_failures_end_pure].
    apply read_failures_end_no_read, ensureMembers_trace.
Qed.

Lemma loadBaseAliases_read_failures_end {A : Type} dir :
  read_failures_end w (@loadBaseAliases lib w A dir).
Proof.
  unfold loadBaseAliases.
  apply read_failures_end_bind; [apply readFile_read_failures_end|]. intros b.
  destruct (ParseAliasesConfig lib b). by intros path e ?%elem_of_nil.
Qed.

Lemma checkOwnersFile_read_failures_end orgName dir bl st c :
  read_failures_end w (checkOwnersFile lib w orgName dir bl st c).
Proof.
  unfold checkOwnersFile.
  apply read_failures_end_bind; [apply readFile_read_failures_end|]. intros b.
  apply read_failures_end_bind;
    [apply read_failures_end_no_read, parseOwners_trace|]. intros [m|roles].
  { apply read_failures_end_pure. }
  destruct (sets.HasAny _ _); [apply read_failures_end_pure|].
  destruct (_ && _); [apply read_failures_end_pure|].
  apply read_failures_end_bind; [|intros; apply read_failures_end_pure].
  apply read_failures_end_no_read, ensureMembers_trace.
Qed.

Lemma validate_read_failures_end pre bl dir changes :
  read_failures_end w (validate lib w pre bl dir changes).
Proof.
  unfold validate. destruct (findOwnerAliases changes) as [ch modified].
  apply read_failures_end_bind.
  { intros path e [Hin|Hin%elem_of_nil]%elem_of_cons; [discriminate | done]. }
  intros _. destruct (CheckoutPullRequest w _) as [cerr|].
  { by intros path e ?%elem_of_nil. }
  apply read_failures_end_bind.
  - destruct modified;
      [apply checkOwnersAliases_read_failures_end | apply read_failures_end_pure].
  - intros st. apply read_failures_end_bind.
    + destruct (_ && _);
        [apply loadBaseAliases_read_failures_end | apply read_failures_end_pure].
    + intros _. apply read_failures_end_range. intros.
      apply checkOwnersFile_read_failures_end.
Qed.

End ReadFailures.

Section RunShape.

Variable lib : Lib.
Variable w : World.
Variable pre : github.PullRequestEvent.
Variable labelsBlackList : list string.

Let orgName := github.Login (github.Owner (github.EvRepo pre)).
Let repo := github.Name (github.EvRepo pre).
Let number := github.Number pre.

(** The shape of a run that gets to the checkout. *)
Lemma handle_run (changes : list github.PullRequestChange) (dir : string) :
  GetPullRequestChanges w orgName repo number = Ok changes →
  (Z.of_nat (length (listOwnersFiles changes)) =? 0) && negb (findOwnerAliases changes).2
  = false →
  Clone w (github.FullName (github.EvRepo pre)) = Ok dir →
  handle lib w pre labelsBlackList
  = match validate lib w pre labelsBlackList dir changes with
    | (vtr, Continue st) =>
        (EvGetPullRequestChanges orgName repo number
         :: EvClone (github.FullName (github.EvRepo pre))
         :: (vtr ++ (react lib w pre st).1) ++ cleanEvents w,
         (finish (react lib w pre st)).2)
    | (vtr, Return err) =>
        (EvGetPullRequestChanges orgName repo number
         :: EvClone (github.FullName (github.EvRepo pre))
         :: vtr ++ cleanEvents w,
         err)
    end.
Proof.
  intros Hchanges Hkeep Hclone. unfold handle, handleM. fold orgName repo number.
  rewrite Hchanges, Hkeep, Hclone.
  destruct (validate lib w pre labelsBlackList dir changes) as [vtr [st|err]]; [|done].
  destruct (react lib w pre st) as [rtr [[]|rerr]] eqn:Hr.
  unfold mbind, M_bind, emit, deferClean. simpl. by rewrite Hr.
Qed.

Lemma react_reads_nothing (st : vstate) (path : string) :
  EvReadFile path ∉ (react lib w pre st).1.
Proof.
  unfold react, mbind, M_bind, emit, mret, M_ret, return_.
  destruct (sawSomething st); simpl.
  - destruct (AddLabel w _ _ _ _); simpl.
    + intros [?|?%elem_of_nil]%elem_of_cons; done.
    + destruct (0 <? _); destruct (wrongOwnersAliasesFilePresent st); simpl;
        destruct (CreateReview w _ _ _ _); simpl; intros Hin;
        repeat (apply elem_of_cons in Hin as [Hin|Hin]; [discriminate|]);
        by apply elem_of_nil in Hin.
  - destruct (RemoveLabel w _ _ _ _); simpl;
      intros [?|?%elem_of_nil]%elem_of_cons; done.
Qed.

Lemma cleanEvents_reads_nothing (path : string) : EvReadFile path ∉ cleanEvents w.
Proof.
  unfold cleanEvents. destruct (CleanRepo w); intros Hin;
    repeat (apply elem_of_cons in Hin as [Hin|Hin]; [discriminate|]);
    by apply elem_of_nil in Hin.
Qed.

(** C5, as amended: when the changed files cannot be listed the run
    ends with a non-nil error for the caller; when a file of the
    checkout cannot be read the run ends as well, the failure is logged,
    the pull request is left as it is, and [handle] returns nil. *)
Theorem io_failures_end_the_run :
  (∀ e, GetPullRequestChanges w orgName repo number = Err e →
        handle lib w pre labelsBlackList
        = ([EvGetPullRequestChanges orgName repo number],
           Some ("error getting PR changes: " +:+ e)))
  ∧ (∀ path e,
       EvReadFile path ∈ (handle lib w pre labelsBlackList).1 →
       ReadFile w path = Err e →
       (handle lib w pre labelsBlackList).2 = None
       ∧ filter (fun e => is_action e = true) (handle lib w pre labelsBlackList).1 = []
       ∧ EvErrorf e ("Failed to read " +:+ path +:+ ".")
         ∈ (handle lib w pre labelsBlackList).1).
Proof.
  split.
  - intros e He. unfold handle, handleM. fold orgName repo number. by rewrite He.
  - intros path e.
    destruct (GetPullRequestChanges w orgName repo number) as [changes|ce] eqn:Hchanges.
    2:{ unfold handle, handleM. fold orgName repo number. rewrite Hchanges. simpl.
        intros [?|?%elem_of_nil]%elem_of_cons; done. }
    destruct ((Z.of_nat (length (listOwnersFiles changes)) =? 0)
              && negb (findOwnerAliases changes).2) eqn:Hkeep.
    { unfold handle, handleM. fold orgName repo number. rewrite Hchanges, Hkeep. simpl.
      intros [?|?%elem_of_nil]%elem_of_cons; done. }
    destruct (Clone w (github.FullName (github.EvRepo pre))) as [dir|ce] eqn:Hclone.
    2:{ unfold handle, handleM. fold orgName repo number.
        rewrite Hchanges, Hkeep, Hclone. simpl. intros Hin.
        repeat (apply elem_of_cons in Hin as [Hin|Hin]; [discriminate|]).
        by apply elem_of_nil in Hin. }
    pose proof (handle_no_decision lib w pre labelsBlackList) as Hquiet.
    unfold decision in Hquiet. fold orgName repo number in Hquiet.
    rewrite Hchanges, Hkeep, Hclone in Hquiet.
    rewrite (handle_run changes dir Hchanges Hkeep Hclone) in *.
    pose proof (validate_read_failures_end lib w pre labelsBlackList dir changes path e)
      as Hend.
    destruct (validate lib w pre labelsBlackList dir changes) as [vtr [st|err]];
      simpl in *; intros Hin Hfail.
    + apply elem_of_cons in Hin as [Hin|Hin]; [discriminate|].
      apply elem_of_cons in Hin as [Hin|Hin]; [discriminate|].
      apply elem_of_app in Hin as [Hin|Hin]; [|by apply cleanEvents_reads_nothing in Hin].
      apply elem_of_app in Hin as [Hin|Hin]; [|by apply react_reads_nothing in Hin].
      by destruct (Hend Hin Hfail) as [? _].
    + apply elem_of_cons in Hin as [Hin|Hin]; [discriminate|].
      apply elem_of_cons in Hin as [Hin|Hin]; [discriminate|].
      apply elem_of_app in Hin as [Hin|Hin]; [|by apply cleanEvents_reads_nothing in Hin].
      destruct (Hend Hin Hfail) as [[= ->] Hlog].
      split; [done|]. split; [by apply Hquiet|].
      do 2 apply list_elem_of_further. apply elem_of_app. by left.
Qed.

End RunShape.

(** C5 fails as stated: the alias file of the pull request cannot be
    read, and [handle] returns nil. *)
Lemma unreadable_file_returns_nil :
  EvReadFile "/tmp/clone/OWNERS_ALIASES"
    ∈ (handle Scenario.lib Scenario.unreadablePR Scenario.pre []).1
  ∧ ReadFile Scenario.unreadablePR "/tmp/clone/OWNERS_ALIASES"
    = Err "open /tmp/clone/OWNERS_ALIASES: no such file or directory"
  ∧ (handle Scenario.lib Scenario.unreadablePR Scenario.pre []).2 = None.
Proof.
  split; [|split].
  - vm_compute. do 3 apply list_elem_of_further. apply list_elem_of_here.
  - reflexivity.
  - vm_compute. reflexivity.
Qed.

Lemma io_failures_end_the_run_witness :
  handle Scenario.lib Scenario.unlistablePR Scenario.pre []
  = ([EvGetPullRequestChanges "kubernetes" "test-infra" 7],
     Some "error getting PR changes: 503 Service Unavailable")
  ∧ filter (fun e => is_action e = true)
           (handle Scenario.lib Scenario.unreadablePR Scenario.pre []).1 = [].
Proof.
  split.
  - eapply (proj1 (io_failures_end_the_run Scenario.lib Scenario.unlistablePR
                     Scenario.pre [])).
    reflexivity.
  - eapply (proj2 (io_failures_end_the_run Scenario.lib Scenario.unreadablePR
                     Scenario.pre []) "/tmp/clone/OWNERS_ALIASES").
    + vm_compute. do 3 apply list_elem_of_further. apply list_elem_of_here.
    + reflexivity.
Defined.

(** ** One OWNERS file *)

Section OneFile.

Variable lib : Lib.
Variable w : World.
Variable orgName dir : string.
Variable labelsBlackList : list string.

Lemma simpleRoles_None r : simpleRoles r = None ↔ simpleFailedOrEmpty r = true.
Proof.
  destruct r as [simple|e]; simpl; [|done].
  destruct (repoowners.Empty simple); split; done.
Qed.

Lemma parseOwners_roles c b ptr roles :
  parseOwners lib c b = (ptr, Continue (inr roles)) → ptr = [].
Proof.
  unfold parseOwners. destruct (simpleRoles _).
  - by intros [= <- _].
  - destruct (ParseFullConfig lib b) as [full|e].
    + by intros [= <- _].
    + unfold mbind, M_bind. destruct (relativeLine _ _ _ _) as [tr [ln|err]]; simpl; done.
Qed.

Lemma relativeLine_continues filename patch errText :
  ∃ tr ln, relativeLine lib filename patch errText = (tr, Continue ln).
Proof.
  unfold relativeLine. destruct (lineno.FindStringSubmatch errText); [|by eexists _, _].
  destruct (AddedLines lib patch) as [al|e]; [|by eexists _, _].
  destruct (al !! _); by eexists _, _.
Qed.

(** What an iteration does with roles that parsed. *)
Lemma checkOwnersFile_roles st c b roles :
  ReadFile w (filepath.Join [dir; github.Filename c]) = Ok b →
  parseOwners lib c b = ([], Continue (inr roles)) →
  checkOwnersFile lib w orgName dir labelsBlackList st c
  = match rolesError labelsBlackList (github.Filename c) roles with
    | Some m =>
        ([EvReadFile (filepath.Join [dir; github.Filename c])],
         Continue (recordWrong st (github.Filename c) m))
    | None =>
        _ ← emit (EvReadFile (filepath.Join [dir; github.Filename c]));
        roster ← ensureMembers lib w orgName (members st);
        mret {| wrongOwnersFiles := wrongOwnersFiles st;
                ownersAliasesFileError := ownersAliasesFileError st;
                wrongOwnersAliasesFilePresent := wrongOwnersAliasesFilePresent st;
                repoAliases := repoAliases st;
                members := roster;
                nonMembers :=
                  sets.Union (nonMembers st)
                    (getNonMembersFromLists (repoAliases st) roster
                       [repoowners.Approvers roles; repoowners.Reviewers roles;
                        repoowners.RequiredReviewers roles]) |}
    end.
Proof.
  intros Hread Hparse. unfold checkOwnersFile, readFile, rolesError.
  unfold mbind at 1 2 3, M_bind at 1 2 3, emit. simpl. rewrite Hread. simpl.
  rewrite Hparse. simpl.
  destruct (sets.HasAny _ _); [done|].
  destruct (_ && _); [done|].
  unfold mbind, M_bind. simpl.
  by destruct (ensureMembers lib w orgName (members st)) as [tr [roster|err]].
Qed.

(** What an iteration does with a file that parses in neither schema. *)
Lemma checkOwnersFile_unparsed st c b e :
  ReadFile w (filepath.Join [dir; github.Filename c]) = Ok b →
  simpleFailedOrEmpty (ParseSimpleConfig lib b) = true →
  ParseFullConfig lib b = Err e →
  ∃ tr ln,
    relativeLine lib (github.Filename c) (github.Patch c) e = (tr, Continue ln)
    ∧ checkOwnersFile lib w orgName dir labelsBlackList st c
      = (EvReadFile (filepath.Join [dir; github.Filename c]) :: tr,
         Continue (recordWrong st (github.Filename c)
                     {| line := ln; message := "Cannot parse file: " +:+ e +:+ "." |})).
Proof.
  intros Hread Hflat Hfull.
  destruct (relativeLine_continues (github.Filename c) (github.Patch c) e) as [tr [ln Hln]].
  exists tr, ln. split; [done|].
  apply simpleRoles_None in Hflat.
  unfold checkOwnersFile, readFile.
  unfold mbind at 1 2 3, M_bind at 1 2 3, emit. simpl. rewrite Hread. simpl.
  unfold parseOwners. rewrite Hflat, Hfull.
  unfold mbind, M_bind. rewrite Hln. simpl. by rewrite !app_nil_r.
Qed.

(** One iteration: a flat declaration that parses and is not empty is
    used as it is, whatever the filtered parser says; when the flat
    parse fails or is empty the filtered parse decides: its failure,
    not the flat one, is recorded for the file, and its success records
    no parse error (the roles of its filters go on to the blacklist and
    root-approver checks). *)
Lemma checkOwnersFile_flat_then_filtered st c b :
  ReadFile w (filepath.Join [dir; github.Filename c]) = Ok b →
  (∀ simple, ParseSimpleConfig lib b = Ok simple → repoowners.Empty simple = false →
     parseOwners lib c b = ([], Continue (inr (repoowners.SimpleCfg simple))))
  ∧ (simpleFailedOrEmpty (ParseSimpleConfig lib b) = true →
     ∀ e, ParseFullConfig lib b = Err e →
       ∃ tr ln,
         checkOwnersFile lib w orgName dir labelsBlackList st c
         = (EvReadFile (filepath.Join [dir; github.Filename c]) :: tr,
            Continue (recordWrong st (github.Filename c)
                        {| line := ln;
                           message := "Cannot parse file: " +:+ e +:+ "." |})))
  ∧ (simpleFailedOrEmpty (ParseSimpleConfig lib b) = true →
     ∀ full, ParseFullConfig lib b = Ok full →
       parseOwners lib c b = ([], Continue (inr (allFilters full)))
       ∧ ∀ tr st', checkOwnersFile lib w orgName dir labelsBlackList st c
                   = (tr, Continue st') →
                   wrongOwnersFiles st'
                   = match rolesError labelsBlackList (github.Filename c)
                             (allFilters full) with
                     | Some m => <[github.Filename c := m]> (wrongOwnersFiles st)
                     | None => wrongOwnersFiles st
                     end).
Proof.
  intros Hread. split; [|split].
  - intros simple Hsimple Hne. unfold parseOwners. rewrite Hsimple. simpl. by rewrite Hne.
  - intros Hflat e Hfull.
    destruct (checkOwnersFile_unparsed st c b e Hread Hflat Hfull) as [tr [ln [_ Hrun]]].
    by exists tr, ln.
  - intros Hflat full Hfull.
    assert (parseOwners lib c b = ([], Continue (inr (allFilters full)))) as Hparse.
    { unfold parseOwners. apply simpleRoles_None in Hflat. by rewrite Hflat, Hfull. }
    split; [done|]. intros tr st'.
    rewrite (checkOwnersFile_roles st c b _ Hread Hparse).
    destruct (rolesError _ _ _) as [m|].
    + by intros [= _ <-].
    + unfold mbind, M_bind, emit, mret, M_ret. simpl.
      destruct (ensureMembers lib w orgName (members st)) as [etr [roster|err]]; [|done].
      by intros [= _ <-].
Qed.

(** One iteration for a file whose labels meet the blacklist: the
    blacklist violation is what is recorded for the file, also when it
    is a root file without approvers, and nothing else happens: the
    roster is not fetched and the non-member set stays as it was.  The
    same holds for a root file without approvers whose labels pass the
    blacklist. *)
Lemma checkOwnersFile_wrong_roles st c b roles :
  ReadFile w (filepath.Join [dir; github.Filename c]) = Ok b →
  parseOwners lib c b = ([], Continue (inr roles)) →
  (sets.HasAny (sets.NewString (repoowners.Labels roles)) labelsBlackList = true →
   ∃ st',
     checkOwnersFile lib w orgName dir labelsBlackList st c
     = ([EvReadFile (filepath.Join [dir; github.Filename c])], Continue st')
     ∧ wrongOwnersFiles st' !! github.Filename c
       = Some {| line := 1;
                 message := blacklistedMessage (repoowners.Labels roles) labelsBlackList |}
     ∧ nonMembers st' = nonMembers st ∧ members st' = members st)
  ∧ (sets.HasAny (sets.NewString (repoowners.Labels roles)) labelsBlackList = false →
     filepath.Dir (github.Filename c) = "." →
     repoowners.Approvers roles = [] →
     ∃ st',
       checkOwnersFile lib w orgName dir labelsBlackList st c
       = ([EvReadFile (filepath.Join [dir; github.Filename c])], Continue st')
       ∧ wrongOwnersFiles st' !! github.Filename c
         = Some {| line := 1; message := noApproversMessage |}
       ∧ nonMembers st' = nonMembers st ∧ members st' = members st).
Proof.
  intros Hread Hparse. rewrite (checkOwnersFile_roles st c b roles Hread Hparse).
  unfold rolesError. split.
  - intros ->. eexists. split; [done|]. simpl. by rewrite lookup_insert_eq.
  - intros -> -> ->. simpl. eexists. split; [done|]. simpl. by rewrite lookup_insert_eq.
Qed.

End OneFile.

(** ** The loop over the OWNERS files *)

Section Loop.

Variable lib : Lib.
Variable w : World.
Variable orgName dir : string.
Variable labelsBlackList : list string.

Lemma parseOwners_ownersRoles c b :
  parseOwners lib c b
  = match ownersRoles lib b with
    | Ok roles => ([], Continue (inr roles))
    | Err e =>
        lineNumber ← relativeLine lib (github.Filename c) (github.Patch c) e;
        mret (inl {| line := lineNumber; message := "Cannot parse file: " +:+ e +:+ "." |})
    end.
Proof.
  unfold parseOwners, ownersRoles. destruct (simpleRoles _); [done|].
  by destruct (ParseFullConfig lib b).
Qed.

Lemma checkOwnersFile_step st c tr st' :
  checkOwnersFile lib w orgName dir labelsBlackList st c = (tr, Continue st') →
  ∃ b,
    ReadFile w (filepath.Join [dir; github.Filename c]) = Ok b
    ∧ repoAliases st' = repoAliases st
    ∧ ownersAliasesFileError st' = ownersAliasesFileError st
    ∧ wrongOwnersAliasesFilePresent st' = wrongOwnersAliasesFilePresent st
    ∧ (∀ name, name ≠ github.Filename c →
               wrongOwnersFiles st' !! name = wrongOwnersFiles st !! name)
    ∧ message <$> (wrongOwnersFiles st' !! github.Filename c)
      = match ownersFileMessage lib labelsBlackList (github.Filename c) b with
        | Some m => Some m
        | None => message <$> (wrongOwnersFiles st !! github.Filename c)
        end
    ∧ (∀ user, user ∈ nonMembers st' →
               user ∈ nonMembers st
               ∨ ∃ roles, ownersRoles lib b = Ok roles
                          ∧ rolesError labelsBlackList (github.Filename c) roles = None
                          ∧ user ∈ checkedUsers (repoAliases st) roles).
Proof.
  destruct (ReadFile w (filepath.Join [dir; github.Filename c])) as [b|e] eqn:Hread.
  2:{ unfold checkOwnersFile, readFile, mbind, M_bind, emit. simpl. by rewrite Hread. }
  intros Hrun. exists b. split; [done|].
  unfold ownersFileMessage.
  pose proof (parseOwners_ownersRoles c b) as Hparse.
  destruct (ownersRoles lib b) as [roles|e] eqn:Hroles.
  - rewrite (checkOwnersFile_roles lib w orgName dir labelsBlackList st c b roles
               Hread Hparse) in Hrun.
    destruct (rolesError labelsBlackList (github.Filename c) roles) as [m|] eqn:Herr.
    + injection Hrun as _ <-. simpl.
      repeat split; [| by rewrite lookup_insert_eq | by left].
      intros name Hne. by rewrite lookup_insert_ne.
    + unfold mbind, M_bind, emit, mret, M_ret in Hrun. simpl in Hrun.
      destruct (ensureMembers lib w orgName (members st)) as [etr [roster|err]]; [|done].
      injection Hrun as _ <-. simpl. repeat split; [done..|].
      intros user. unfold sets.Union, getNonMembersFromLists, sets.Difference.
      rewrite elem_of_union, elem_of_difference.
      intros [Hin|[Hin _]]; [by left|]. right. by exists roles.
  - destruct (relativeLine_continues lib (github.Filename c) (github.Patch c) e)
      as [ltr [ln Hln]].
    unfold checkOwnersFile, readFile in Hrun.
    unfold mbind at 1 2 3, M_bind at 1 2 3, emit in Hrun. simpl in Hrun.
    rewrite Hread in Hrun. simpl in Hrun. rewrite Hparse in Hrun.
    unfold mbind, M_bind in Hrun. rewrite Hln in Hrun. simpl in Hrun.
    injection Hrun as _ <-. simpl.
    repeat split; [| by rewrite lookup_insert_eq | by left].
    intros name Hne. by rewrite lookup_insert_ne.
Qed.

(** The loop, when it runs to its end: the alias table and the alias
    error are as before; the entry of a file that was checked is the
    message for its content, the other entries are as before; the
    non-members that were added are users of files that passed the
    blacklist and root-approver checks. *)
Lemma range_checkOwnersFile files st tr st' :
  range (checkOwnersFile lib w orgName dir labelsBlackList) files st = (tr, Continue st') →
  repoAliases st' = repoAliases st
  ∧ ownersAliasesFileError st' = ownersAliasesFileError st
  ∧ wrongOwnersAliasesFilePresent st' = wrongOwnersAliasesFilePresent st
  ∧ (∀ name, (∀ c, c ∈ files → github.Filename c ≠ name) →
             wrongOwnersFiles st' !! name = wrongOwnersFiles st !! name)
  ∧ (∀ c, c ∈ files →
          ∃ b, ReadFile w (filepath.Join [dir; github.Filename c]) = Ok b
               ∧ message <$> (wrongOwnersFiles st' !! github.Filename c)
                 = match ownersFileMessage lib labelsBlackList (github.Filename c) b with
                   | Some m => Some m
                   | None => message <$> (wrongOwnersFiles st !! github.Filename c)
                   end)
  ∧ (∀ user, user ∈ nonMembers st' →
             user ∈ nonMembers st
             ∨ ∃ c b roles,
                 c ∈ files
                 ∧ ReadFile w (filepath.Join [dir; github.Filename c]) = Ok b
                 ∧ ownersRoles lib b = Ok roles
                 ∧ rolesError labelsBlackList (github.Filename c) roles = None
                 ∧ user ∈ checkedUsers (repoAliases st) roles).
Proof.
  revert st tr. induction files as [|c files IH]; intros st tr; simpl.
  - intros [= _ <-]. repeat split; [by intros c ?%elem_of_nil | by left].
  - destruct (checkOwnersFile lib w orgName dir labelsBlackList st c) as [tr1 [st1|err]]
      eqn:Hstep; [|done].
    unfold mbind, M_bind.
    destruct (range _ files st1) as [tr2 r2] eqn:Hrest. intros [= _ ->].
    destruct (checkOwnersFile_step st c tr1 st1 Hstep)
      as (b & Hread & Hal1 & Herr1 & Hpres1 & Hother1 & Hentry1 & Hnon1).
    destruct (IH st1 tr2 Hrest) as (Hal & Herr & Hpres & Hother & Hentry & Hnon).
    split; [congruence|]. split; [congruence|]. split; [congruence|].
    split; [|split].
    + intros name Hname. rewrite Hother.
      * apply Hother1. intros ->. by apply (Hname c); [apply list_elem_of_here|].
      * intros c' Hc'. by apply Hname, list_elem_of_further.
    + intros c' [->|Hc']%elem_of_cons.
      * exists b. split; [done|].
        destruct (decide (github.Filename c ∈ (github.Filename <$> files)))
          as [Hdup|Hfresh].
        -- apply list_elem_of_fmap in Hdup as [c'' [Hsame Hc'']].
           destruct (Hentry c'' Hc'') as (b'' & Hread'' & Hmsg).
           rewrite <- Hsame in Hread'', Hmsg. rewrite Hread in Hread''.
           injection Hread'' as <-. rewrite Hmsg.
           destruct (ownersFileMessage lib labelsBlackList (github.Filename c) b)
             as [m|] eqn:Hm; [done|].
           exact Hentry1.
        -- rewrite Hother; [done|]. intros c'' Hc'' Hsame. apply Hfresh.
           apply list_elem_of_fmap. by exists c''.
      * destruct (Hentry c' Hc') as (b' & Hread' & Hmsg). exists b'. split; [done|].
        rewrite Hmsg.
        destruct (ownersFileMessage lib labelsBlackList (github.Filename c') b')
          as [m|] eqn:Hm; [done|].
        destruct (decide (github.Filename c' = github.Filename c)) as [Hsame|Hne].
        -- rewrite Hsame in *. rewrite Hread in Hread'. injection Hread' as <-.
           rewrite Hentry1. by rewrite Hm.
        -- by rewrite Hother1.
    + intros user Hin. destruct (Hnon user Hin) as [Hin1|(c' & b' & roles & Hc' & ?)].
      * destruct (Hnon1 user Hin1) as [?|(roles & ? & ? & ?)]; [by left|].
        right. exists c, b, roles. split; [apply list_elem_of_here | done].
      * right. exists c', b', roles. rewrite <- Hal1.
        split; [by apply list_elem_of_further | done].
Qed.

End Loop.

(** ** The OWNERS files of a run that reaches its decision *)

Lemma elem_of_ExpandAllAliases (aliases : gmap string (gset string)) (user : string) :
  user ∈ repoowners.ExpandAllAliases aliases
  ↔ ∃ alias users, aliases !! alias = Some users ∧ user ∈ users.
Proof.
  unfold repoowners.ExpandAllAliases.
  apply (map_fold_weak_ind
           (fun (acc : gset string) (m : gmap string (gset string)) =>
              user ∈ acc ↔ ∃ alias users, m !! alias = Some users ∧ user ∈ users)).
  - split; [by intros ?%elem_of_empty|]. intros (alias & users & Hl & _).
    by rewrite lookup_empty in Hl.
  - intros alias users m acc Hfresh IH. rewrite elem_of_union, IH. split.
    + intros [(a & us & Hl & Hin)|Hin].
      * exists a, us. split; [|done]. rewrite lookup_insert_ne; [done|]. by intros ->; congruence.
      * exists alias, users. by rewrite lookup_insert_eq.
    + intros (a & us & Hl & Hin). destruct (decide (a = alias)) as [->|Hne].
      * rewrite lookup_insert_eq in Hl. injection Hl as <-. by right.
      * rewrite lookup_insert_ne in Hl by done. left. by exists a, us.
Qed.

Lemma rolesError_None (labelsBlackList : list string) (filename : string)
    (roles : repoowners.Config) :
  rolesError labelsBlackList filename roles = None
  ↔ sets.HasAny (sets.NewString (repoowners.Labels roles)) labelsBlackList = false
    ∧ (filepath.Dir filename ≠ "." ∨ repoowners.Approvers roles ≠ []).
Proof.
  unfold rolesError. destruct (sets.HasAny _ _); [split; [done | by intros [? _]]|].
  destruct (String.eqb_spec (filepath.Dir filename) ".") as [Hroot|Hsub]; simpl.
  - destruct (repoowners.Approvers roles) as [|a l]; simpl.
    + split; [done|]. intros [_ [?|?]]; done.
    + split; [|done]. intros _. split; [done | by right].
  - split; [|done]. intros _. split; [done | by left].
Qed.

Section Run.

Variable lib : Lib.
Variable w : World.
Variable pre : github.PullRequestEvent.
Variable labelsBlackList : list string.

Let orgName := github.Login (github.Owner (github.EvRepo pre)).
Let repo := github.Name (github.EvRepo pre).
Let number := github.Number pre.

Lemma checkOwnersAliases_state dir ch st tr st' :
  checkOwnersAliases lib w orgName dir ch st = (tr, Continue st') →
  wrongOwnersFiles st' = wrongOwnersFiles st
  ∧ ∀ user, user ∈ nonMembers st' → user ∈ repoowners.ExpandAllAliases (repoAliases st').
Proof.
  unfold checkOwnersAliases, mbind, M_bind.
  destruct (readFile w _) as [rtr [b|rerr]]; [|done].
  destruct (ParseAliasesConfig lib b) as [aliases perr].
  destruct (match perr with Some _ => _ | None => _ end) as [ltr [located|lerr]]; [|done].
  destruct (ensureMembers lib w orgName (members st)) as [etr [roster|eerr]]; [|done].
  simpl. intros [= _ <-]. simpl. split; [done|].
  intros user. unfold sets.Difference. by intros [? _]%elem_of_difference.
Qed.

(** A run that reaches its decision went through the alias block and
    then through the loop. *)
Lemma decision_loop st changes dir :
  decision lib w pre labelsBlackList = Some st →
  GetPullRequestChanges w orgName repo number = Ok changes →
  Clone w (github.FullName (github.EvRepo pre)) = Ok dir →
  ∃ st0 tr0 tr1,
    checkOwnersAliases lib w orgName dir (findOwnerAliases changes).1 vstate0
    = (tr0, Continue st0)
    ∧ range (checkOwnersFile lib w orgName dir labelsBlackList)
            (listOwnersFiles changes) st0
      = (tr1, Continue st).
Proof.
  unfold decision. fold orgName repo number. intros Hdec Hchanges Hclone.
  rewrite Hchanges, Hclone in Hdec.
  destruct ((Z.of_nat (length (listOwnersFiles changes)) =? 0)
            && negb (findOwnerAliases changes).2) eqn:Hkeep; [done|].
  unfold validate in Hdec. fold orgName in Hdec.
  destruct (findOwnerAliases changes) as [ch modified]. simpl in *.
  unfold mbind at 1, M_bind at 1, emit in Hdec. simpl in Hdec.
  destruct (CheckoutPullRequest w (github.Number pre)); [done|].
  destruct modified.
  - rewrite andb_false_r in Hdec.
    unfold mbind at 1, M_bind at 1 in Hdec.
    destruct (checkOwnersAliases lib w orgName dir ch vstate0) as [tr0 [st0|err]]; [|done].
    unfold mbind, M_bind, mret, M_ret in Hdec. simpl in Hdec.
    destruct (range _ (listOwnersFiles changes) st0) as [tr1 [st1|err]] eqn:Hloop; [|done].
    injection Hdec as <-. by exists st0, tr0, tr1.
  - rewrite andb_true_r in Hkeep. rewrite andb_true_r, Hkeep in Hdec. simpl in Hdec.
    unfold mbind, M_bind, mret, M_ret, loadBaseAliases in Hdec. simpl in Hdec.
    destruct (readFile w _) as [rtr [b|rerr]]; [|done].
    unfold mbind, M_bind, return_ in Hdec. simpl in Hdec.
    by destruct (ParseAliasesConfig lib b).
Qed.

End Run.

Section RunFiles.

Variable lib : Lib.
Variable w : World.
Variable pre : github.PullRequestEvent.
Variable labelsBlackList : list string.

Let orgName := github.Login (github.Owner (github.EvRepo pre)).
Let repo := github.Name (github.EvRepo pre).
Let number := github.Number pre.

(** In a run that reaches its decision every changed OWNERS file was
    read, and what is recorded for it is the message for its content. *)
Lemma decision_wrongOwnersFiles st changes dir c :
  decision lib w pre labelsBlackList = Some st →
  GetPullRequestChanges w orgName repo number = Ok changes →
  Clone w (github.FullName (github.EvRepo pre)) = Ok dir →
  c ∈ changes → filepath.Base (github.Filename c) = ownersFileName →
  ∃ b, ReadFile w (filepath.Join [dir; github.Filename c]) = Ok b
       ∧ message <$> (wrongOwnersFiles st !! github.Filename c)
         = ownersFileMessage lib labelsBlackList (github.Filename c) b.
Proof.
  intros Hdec Hchanges Hclone Hin Hbase.
  destruct (decision_loop lib w pre labelsBlackList st changes dir Hdec Hchanges Hclone)
    as (st0 & tr0 & tr1 & Haliases & Hloop).
  destruct (checkOwnersAliases_state lib w pre dir _ _ _ _ Haliases) as [Hempty _].
  destruct (range_checkOwnersFile lib w _ dir labelsBlackList _ _ _ _ Hloop)
    as (_ & _ & _ & _ & Hentry & _).
  destruct (Hentry c) as (b & Hread & Hmsg).
  { by apply elem_of_listOwnersFiles. }
  exists b. split; [done|]. rewrite Hmsg, Hempty. simpl. rewrite lookup_empty. simpl.
  by destruct (ownersFileMessage _ _ _ _).
Qed.

(** C6: in a run that reaches its decision, every changed OWNERS file
    was read and parsed flat schema first: a flat declaration that
    parses and is not empty decides what is recorded, whatever the
    filtered parser says; when the flat parse fails or is empty the
    filtered parse decides: its failure, not the flat one, is the
    error recorded for the file, and when it succeeds no parse error is
    recorded (only what the blacklist and root-approver checks say
    about the roles of the filters). *)
Theorem run_parses_flat_then_filtered st changes dir c :
  decision lib w pre labelsBlackList = Some st →
  GetPullRequestChanges w orgName repo number = Ok changes →
  Clone w (github.FullName (github.EvRepo pre)) = Ok dir →
  c ∈ changes → filepath.Base (github.Filename c) = ownersFileName →
  ∃ b, ReadFile w (filepath.Join [dir; github.Filename c]) = Ok b
       ∧ (∀ simple, ParseSimpleConfig lib b = Ok simple →
                    repoowners.Empty simple = false →
                    message <$> (wrongOwnersFiles st !! github.Filename c)
                    = message <$> rolesError labelsBlackList (github.Filename c)
                                    (repoowners.SimpleCfg simple))
       ∧ (simpleFailedOrEmpty (ParseSimpleConfig lib b) = true →
          ∀ e, ParseFullConfig lib b = Err e →
               message <$> (wrongOwnersFiles st !! github.Filename c)
               = Some ("Cannot parse file: " +:+ e +:+ "."))
       ∧ (simpleFailedOrEmpty (ParseSimpleConfig lib b) = true →
          ∀ full, ParseFullConfig lib b = Ok full →
                  message <$> (wrongOwnersFiles st !! github.Filename c)
                  = message <$> rolesError labelsBlackList (github.Filename c)
                                  (allFilters full)).
Proof.
  intros Hdec Hchanges Hclone Hin Hbase.
  destruct (decision_wrongOwnersFiles st changes dir c Hdec Hchanges Hclone Hin Hbase)
    as (b & Hread & ->).
  exists b. split; [done|]. unfold ownersFileMessage, ownersRoles. split; [|split].
  - intros simple -> Hne. simpl. by rewrite Hne.
  - intros Hflat%simpleRoles_None e Hfull. by rewrite Hflat, Hfull.
  - intros Hflat%simpleRoles_None full Hfull. by rewrite Hflat, Hfull.
Qed.

(** C10: in a run that reaches its decision, a changed OWNERS file
    whose labels meet the blacklist has the blacklist violation
    recorded, also when it is a root file without approvers; a root
    file without approvers whose labels pass the blacklist has that
    recorded; and every user of the non-member set comes from the alias
    file or from the approvers, reviewers and required reviewers of a
    changed OWNERS file that passed both checks. *)
Theorem run_wrong_roles_add_no_users st changes dir :
  decision lib w pre labelsBlackList = Some st →
  GetPullRequestChanges w orgName repo number = Ok changes →
  Clone w (github.FullName (github.EvRepo pre)) = Ok dir →
  (∀ c b roles,
     c ∈ changes → filepath.Base (github.Filename c) = ownersFileName →
     ReadFile w (filepath.Join [dir; github.Filename c]) = Ok b →
     ownersRoles lib b = Ok roles →
     (sets.HasAny (sets.NewString (repoowners.Labels roles)) labelsBlackList = true →
      message <$> (wrongOwnersFiles st !! github.Filename c)
      = Some (blacklistedMessage (repoowners.Labels roles) labelsBlackList))
     ∧ (sets.HasAny (sets.NewString (repoowners.Labels roles)) labelsBlackList = false →
        filepath.Dir (github.Filename c) = "." → repoowners.Approvers roles = [] →
        message <$> (wrongOwnersFiles st !! github.Filename c) = Some noApproversMessage))
  ∧ (∀ user,
       user ∈ nonMembers st →
       user ∈ repoowners.ExpandAllAliases (repoAliases st)
       ∨ ∃ c b roles,
           c ∈ changes ∧ filepath.Base (github.Filename c) = ownersFileName
           ∧ ReadFile w (filepath.Join [dir; github.Filename c]) = Ok b
           ∧ ownersRoles lib b = Ok roles
           ∧ sets.HasAny (sets.NewString (repoowners.Labels roles)) labelsBlackList = false
           ∧ (filepath.Dir (github.Filename c) ≠ "." ∨ repoowners.Approvers roles ≠ [])
           ∧ user ∈ checkedUsers (repoAliases st) roles).
Proof.
  intros Hdec Hchanges Hclone. split.
  - intros c b roles Hin Hbase Hread Hroles.
    destruct (decision_wrongOwnersFiles st changes dir c Hdec Hchanges Hclone Hin Hbase)
      as (b' & Hread' & ->).
    rewrite Hread in Hread'. injection Hread' as <-.
    unfold ownersFileMessage, rolesError. rewrite Hroles. split.
    + by intros ->.
    + by intros -> -> ->.
  - destruct (decision_loop lib w pre labelsBlackList st changes dir Hdec Hchanges Hclone)
      as (st0 & tr0 & tr1 & Haliases & Hloop).
    destruct (checkOwnersAliases_state lib w pre dir _ _ _ _ Haliases) as [_ Hfrom].
    destruct (range_checkOwnersFile lib w _ dir labelsBlackList _ _ _ _ Hloop)
      as (Hal & _ & _ & _ & _ & Hnon).
    intros user Huser. rewrite Hal.
    destruct (Hnon user Huser) as [Hin0|(c & b & roles & Hc & Hread & Hroles & Herr & Hin)].
    + left. by apply Hfrom.
    + right. exists c, b, roles.
      apply elem_of_listOwnersFiles in Hc as [Hc Hbase].
      apply rolesError_None in Herr as [Hbl Hroot]. done.
Qed.

End RunFiles.

Lemma run_parses_flat_then_filtered_witness :
  ∃ st, decision Scenario.lib Scenario.brokenPR Scenario.pre [] = Some st
        ∧ message <$> (wrongOwnersFiles st !! "OWNERS")
          = Some ("Cannot parse file: " +:+ Scenario.filteredError +:+ ".").
Proof.
  eexists. split; [vm_compute; reflexivity|].
  edestruct (run_parses_flat_then_filtered Scenario.lib Scenario.brokenPR Scenario.pre [])
    with (c := Scenario.change "OWNERS") as (b & Hread & _ & Hfail & _).
  - vm_compute. reflexivity.
  - reflexivity.
  - reflexivity.
  - apply list_elem_of_here.
  - reflexivity.
  - vm_compute in Hread. injection Hread as <-.
    exact (Hfail eq_refl Scenario.filteredError eq_refl).
Defined.

Lemma run_wrong_roles_add_no_users_witness :
  ∃ st, decision Scenario.lib Scenario.blacklistedPR Scenario.pre Scenario.blacklist = Some st
        ∧ message <$> (wrongOwnersFiles st !! "OWNERS")
          = Some (blacklistedMessage ["priority/critical-urgent"] Scenario.blacklist).
Proof.
  eexists. split; [vm_compute; reflexivity|].
  edestruct (run_wrong_roles_add_no_users Scenario.lib Scenario.blacklistedPR
               Scenario.pre Scenario.blacklist) as [Hfiles _].
  - vm_compute. reflexivity.
  - reflexivity.
  - reflexivity.
  - edestruct (Hfiles (Scenario.change "OWNERS")
                 "approvers: [carol], labels: [priority/critical-urgent]"
                 (Scenario.roles ["carol"] [] [] ["priority/critical-urgent"]))
      as [Hblacklisted _].
    + apply list_elem_of_here.
    + reflexivity.
    + reflexivity.
    + reflexivity.
    + apply Hblacklisted. vm_compute. reflexivity.
Defined.

(** ** The roster cache *)

Section RosterCache.

Variable lib : Lib.
Variable w : World.

(** With an empty cache the roster is fetched, and the cache is empty
    again afterwards. *)
Lemma ensureMembers_empty orgName tr roster :
  ensureMembers lib w orgName ∅ = (tr, Continue roster) →
  roster = ∅
  ∧ tr = [EvHttpGet ("https://raw.githubusercontent.com/kubernetes/org/master/config/"
                      +:+ orgName +:+ "/org.yaml")].
Proof.
  unfold ensureMembers.
  assert ((sets.Len ∅ =? 0) = true) as -> by (vm_compute; reflexivity).
  unfold mbind, M_bind.
  pose proof (getMembersForOrg_roster lib w orgName) as Hroster.
  destruct (getMembersForOrg lib w orgName) as [ftr [[fetched|e]|err]] eqn:Hfetch;
    [|done..].
  unfold mret, M_ret. intros [= <- <-]. split; [by apply Hroster|].
  unfold getMembersForOrg, mbind, M_bind, emit, mret, M_ret in Hfetch.
  injection Hfetch as <- _. by rewrite app_nil_r.
Qed.

Lemma checkOwnersFile_members orgName dir bl st c tr st' :
  members st = ∅ →
  checkOwnersFile lib w orgName dir bl st c = (tr, Continue st') →
  members st' = ∅.
Proof.
  intros Hempty. unfold checkOwnersFile, mbind, M_bind.
  destruct (readFile w _) as [rtr [b|rerr]]; [|done].
  destruct (parseOwners lib c b) as [ptr [[m|roles]|perr]]; [| |done].
  { simpl. by intros [= _ <-]. }
  destruct (sets.HasAny _ _); [simpl; by intros [= _ <-]|].
  destruct (_ && _); [simpl; by intros [= _ <-]|].
  rewrite Hempty.
  destruct (ensureMembers lib w orgName ∅) as [etr [roster|err]] eqn:Hfetch; [|done].
  simpl. intros [= _ <-]. simpl. by destruct (ensureMembers_empty _ _ _ Hfetch).
Qed.

Lemma range_members orgName dir bl files st tr st' :
  members st = ∅ →
  range (checkOwnersFile lib w orgName dir bl) files st = (tr, Continue st') →
  members st' = ∅.
Proof.
  revert st tr. induction files as [|c files IH]; intros st tr Hempty; simpl.
  - by intros [= _ <-].
  - destruct (checkOwnersFile lib w orgName dir bl st c) as [tr1 [st1|err]] eqn:Hstep;
      [|done].
    unfold mbind, M_bind. destruct (range _ files st1) as [tr2 r2] eqn:Hrest.
    intros [= _ ->]. apply (IH st1 tr2); [|done].
    by apply (checkOwnersFile_members _ _ _ _ _ _ _ Hempty Hstep).
Qed.

(** The roster a run decides with is empty: no membership check of the
    run found a cached roster. *)
Lemma decision_members pre bl st :
  decision lib w pre bl = Some st → members st = ∅.
Proof.
  intros Hdec.
  destruct (GetPullRequestChanges w (github.Login (github.Owner (github.EvRepo pre)))
              (github.Name (github.EvRepo pre)) (github.Number pre))
    as [changes|e] eqn:Hchanges.
  2:{ unfold decision in Hdec. by rewrite Hchanges in Hdec. }
  destruct (Clone w (github.FullName (github.EvRepo pre))) as [dir|e] eqn:Hclone.
  2:{ unfold decision in Hdec. rewrite Hchanges, Hclone in Hdec.
      by destruct (_ && _). }
  destruct (decision_loop lib w pre bl st changes dir Hdec Hchanges Hclone)
    as (st0 & tr0 & tr1 & Haliases & Hloop).
  apply (range_members _ _ _ _ _ _ _) in Hloop; [done|].
  unfold checkOwnersAliases, mbind, M_bind in Haliases.
  destruct (readFile w _) as [rtr [b|rerr]]; [|done].
  destruct (ParseAliasesConfig lib b) as [aliases perr].
  destruct (match perr with Some _ => _ | None => _ end) as [ltr [located|lerr]]; [|done].
  simpl in Haliases.
  destruct (ensureMembers lib w _ ∅) as [etr [roster|eerr]] eqn:Hfetch; [|done].
  simpl in Haliases. injection Haliases as _ <-. simpl.
  by destruct (ensureMembers_empty _ _ _ Hfetch).
Qed.

End RosterCache.

(** ** What a run may do to the pull request *)

Section RunActions.

Variable lib : Lib.
Variable w : World.
Variable pre : github.PullRequestEvent.
Variable labelsBlackList : list string.

Let orgName := github.Login (github.Owner (github.EvRepo pre)).
Let repo := github.Name (github.EvRepo pre).
Let number := github.Number pre.

(** X1: the calls of a run that change the pull request are none, or
    [AddLabel] alone, or [AddLabel] followed by one [CreateReview], or
    [RemoveLabel] alone, always for the invalid-owners label: a run
    never adds and removes the label, never posts a plain comment,
    never prunes, and never reviews without having labelled. *)
Theorem handle_actions_shape :
  let actions := filter (fun e => is_action e = true) (handle lib w pre labelsBlackList).1 in
  actions = []
  ∨ actions = [EvAddLabel orgName repo number (InvalidOwners lib)]
  ∨ (∃ st, decision lib w pre labelsBlackList = Some st
           ∧ actions = [EvAddLabel orgName repo number (InvalidOwners lib);
                        EvCreateReview orgName repo number (draftReview lib pre st)])
  ∨ actions = [EvRemoveLabel orgName repo number (InvalidOwners lib)].
Proof.
  intros actions. subst actions.
  destruct (decision lib w pre labelsBlackList) as [st|] eqn:Hdec.
  2:{ left. by apply handle_no_decision. }
  destruct (handle_decision lib w pre labelsBlackList st Hdec) as [-> _].
  destruct (sawSomething st) eqn:Hsaw.
  - destruct (AddLabel w orgName repo number (InvalidOwners lib)) as [e|] eqn:Hadd.
    + right. left. rewrite <- finish_trace.
      by rewrite (react_violation_AddLabel_fails lib w pre st e Hsaw Hadd).
    + right. right. left. exists st. split; [done|].
      by destruct (react_violation_AddLabel_ok lib w pre st Hsaw Hadd) as [-> _].
  - right. right. right. rewrite <- finish_trace.
    by rewrite (react_no_violation lib w pre st Hsaw).
Qed.

Lemma validate_cleans_nothing dir changes :
  EvCleanRepo ∉ (validate lib w pre labelsBlackList dir changes).1.
Proof.
  intros Hin. pose proof (validate_trace lib w pre labelsBlackList dir changes) as Hall.
  rewrite Forall_forall in Hall. by specialize (Hall _ Hin).
Qed.

Lemma react_cleans_nothing st : EvCleanRepo ∉ (react lib w pre st).1.
Proof.
  unfold react, mbind, M_bind, emit, mret, M_ret, return_.
  destruct (sawSomething st); simpl.
  - destruct (AddLabel w _ _ _ _); simpl.
    + intros [?|?%elem_of_nil]%elem_of_cons; done.
    + destruct (0 <? _); destruct (wrongOwnersAliasesFilePresent st); simpl;
        destruct (CreateReview w _ _ _ _); simpl; intros Hin;
        repeat (apply elem_of_cons in Hin as [Hin|Hin]; [discriminate|]);
        by apply elem_of_nil in Hin.
  - destruct (RemoveLabel w _ _ _ _); simpl;
      intros [?|?%elem_of_nil]%elem_of_cons; done.
Qed.

(** X2: a clone that succeeded is cleaned up exactly once, as the last
    thing the run does (only the log of a failing clean-up follows),
    whatever the way the run ends; a run that did not clone, or whose
    clone failed, cleans nothing. *)
Theorem clone_is_cleaned_up_once :
  (∀ dir,
     EvClone (github.FullName (github.EvRepo pre)) ∈ (handle lib w pre labelsBlackList).1 →
     Clone w (github.FullName (github.EvRepo pre)) = Ok dir →
     ∃ before, (handle lib w pre labelsBlackList).1 = before ++ cleanEvents w
               ∧ EvCleanRepo ∉ before)
  ∧ ((EvClone (github.FullName (github.EvRepo pre)) ∉ (handle lib w pre labelsBlackList).1
      ∨ ∃ e, Clone w (github.FullName (github.EvRepo pre)) = Err e) →
     EvCleanRepo ∉ (handle lib w pre labelsBlackList).1).
Proof.
  destruct (GetPullRequestChanges w orgName repo number) as [changes|ce] eqn:Hchanges.
  2:{ unfold handle, handleM. fold orgName repo number. rewrite Hchanges. simpl. split.
      - intros dir [?|?%elem_of_nil]%elem_of_cons; done.
      - intros _ [?|?%elem_of_nil]%elem_of_cons; done. }
  destruct ((Z.of_nat (length (listOwnersFiles changes)) =? 0)
            && negb (findOwnerAliases changes).2) eqn:Hkeep.
  { unfold handle, handleM. fold orgName repo number. rewrite Hchanges, Hkeep. simpl. split.
    - intros dir [?|?%elem_of_nil]%elem_of_cons; done.
    - intros _ [?|?%elem_of_nil]%elem_of_cons; done. }
  destruct (Clone w (github.FullName (github.EvRepo pre))) as [dir|ce] eqn:Hclone.
  2:{ unfold handle, handleM. fold orgName repo number.
      rewrite Hchanges, Hkeep, Hclone. simpl. split; [done|].
      intros _ Hin. repeat (apply elem_of_cons in Hin as [Hin|Hin]; [discriminate|]).
      by apply elem_of_nil in Hin. }
  rewrite (handle_run lib w pre labelsBlackList changes dir Hchanges Hkeep Hclone).
  pose proof (validate_cleans_nothing dir changes) as Hv.
  destruct (validate lib w pre labelsBlackList dir changes) as [vtr [st|err]]; simpl in *.
  - split.
    + intros dir' _ _. eexists (_ :: _ :: _ ++ _). split; [reflexivity|].
      intros Hin. apply elem_of_cons in Hin as [Hin|Hin]; [discriminate|].
      apply elem_of_cons in Hin as [Hin|Hin]; [discriminate|].
      apply elem_of_app in Hin as [Hin|Hin]; [done | by apply react_cleans_nothing in Hin].
    + intros [Hno|[e He]]; [|done]. exfalso. apply Hno.
      apply list_elem_of_further, list_elem_of_here.
  - split.
    + intros dir' _ _. eexists (_ :: _ :: _). split; [reflexivity|].
      intros Hin. apply elem_of_cons in Hin as [Hin|Hin]; [discriminate|].
      apply elem_of_cons in Hin as [Hin|Hin]; [discriminate | done].
    + intros [Hno|[e He]]; [|done]. exfalso. apply Hno.
      apply list_elem_of_further, list_elem_of_here.
Qed.

(** X4: when no changed file is named OWNERS_ALIASES, a run makes no
    call that changes the pull request, fetches no roster, and reads no
    file but the alias file of the checkout. *)
Theorem quiet_without_aliases_change (changes : list github.PullRequestChange) :
  GetPullRequestChanges w orgName repo number = Ok changes →
  (∀ c, c ∈ changes → github.Filename c ≠ ownersAliasesFileName) →
  filter (fun e => is_action e = true) (handle lib w pre labelsBlackList).1 = []
  ∧ filter (fun e => is_fetch e = true) (handle lib w pre labelsBlackList).1 = []
  ∧ ∀ path, EvReadFile path ∈ (handle lib w pre labelsBlackList).1 →
            ∃ dir, Clone w (github.FullName (github.EvRepo pre)) = Ok dir
                   ∧ path = filepath.Join [dir; ownersAliasesFileName].
Proof.
  intros Hchanges Hnone.
  assert ((findOwnerAliases changes).2 = false) as Hunchanged.
  { unfold findOwnerAliases.
    destruct (findOwnerAliases_from changes
                ({| github.Filename := ""; github.Patch := "" |}, false))
      as [[-> _]|[_ [Hin Hname]]]; [done|]. by destruct (Hnone _ Hin). }
  destruct (Z.of_nat (length (listOwnersFiles changes)) =? 0) eqn:Hfiles.
  { unfold handle, handleM. fold orgName repo number.
    rewrite Hchanges, Hfiles, Hunchanged. simpl. split; [done|]. split; [done|].
    intros path [?|?%elem_of_nil]%elem_of_cons; done. }
  destruct (Clone w (github.FullName (github.EvRepo pre))) as [dir|ce] eqn:Hclone.
  2:{ unfold handle, handleM. fold orgName repo number.
      rewrite Hchanges, Hfiles, Hunchanged, Hclone. simpl. split; [done|]. split; [done|].
      intros path Hin. repeat (apply elem_of_cons in Hin as [Hin|Hin]; [discriminate|]).
      by apply elem_of_nil in Hin. }
  assert (listOwnersFiles changes ≠ []) as Hne.
  { intros Hnil. by rewrite Hnil in Hfiles. }
  rewrite (handle_run lib w pre labelsBlackList changes dir Hchanges
             ltac:(by rewrite Hfiles) Hclone).
  destruct (aliases_unchanged_returns_early lib w pre labelsBlackList dir changes
              Hunchanged Hne) as [[err Hret] Hall].
  destruct (validate lib w pre labelsBlackList dir changes) as [vtr [st|verr]];
    simpl in *; [done|].
  assert (∀ e, e ∈ vtr ++ cleanEvents w →
               is_action e = false ∧ is_fetch e = false
               ∧ ∀ path, e = EvReadFile path →
                         path = filepath.Join [dir; ownersAliasesFileName]) as Hevents.
  { intros e [Hin|Hin]%elem_of_app.
    - rewrite Forall_forall in Hall.
      destruct (Hall e Hin) as [->|[->|(x & m & ->)]]; repeat split; try done.
      by intros path [= ->].
    - unfold cleanEvents in Hin. destruct (CleanRepo w);
        repeat (apply elem_of_cons in Hin as [->|Hin]; [done|]);
        by apply elem_of_nil in Hin. }
  split; [|split].
  - rewrite 2!filter_cons_False by (simpl; discriminate).
    apply elem_of_nil_inv. intros e [Hact Hin]%list_elem_of_filter.
    destruct (Hevents e Hin) as [Hno _]. congruence.
  - rewrite 2!filter_cons_False by (simpl; discriminate).
    apply elem_of_nil_inv. intros e [Hf Hin]%list_elem_of_filter.
    destruct (Hevents e Hin) as (_ & Hno & _). congruence.
  - intros path Hin. exists dir. split; [done|].
    apply elem_of_cons in Hin as [Hin|Hin]; [discriminate|].
    apply elem_of_cons in Hin as [Hin|Hin]; [discriminate|].
    by apply (Hevents _ Hin).
Qed.

End RunActions.

(** ** Non-members and blacklisted labels *)

(** X3: [getNonMembersFromLists] reports exactly the names that some
    role list holds and that are neither a key of the alias table nor
    in the roster: it never reports a member, an alias name, or a
    name nobody listed. *)
Theorem getNonMembersFromLists_reports (aliases : gmap string (gset string))
    (roster : gset string) (lists : list (list string)) (user : string) :
  user ∈ getNonMembersFromLists aliases roster lists
  ↔ (∃ l, l ∈ lists ∧ user ∈ l) ∧ aliases !! user = None ∧ user ∉ roster.
Proof.
  unfold getNonMembersFromLists, sets.Difference, totalUsers.
  rewrite elem_of_difference, elem_of_totalUsers_from. split.
  - intros [[[Hnone [Hin|Hex]]|[_ [Hin _]]] Hout];
      [by apply elem_of_empty in Hin | done | by apply elem_of_empty in Hin].
  - intros (Hex & Hnone & Hout). split; [|done]. left. split; [done | by right].
Qed.

Lemma HasAny_true (s : gset string) (items : list string) :
  sets.HasAny s items = true ↔ ∃ item, item ∈ items ∧ item ∈ s.
Proof.
  unfold sets.HasAny, sets.Has. rewrite existsb_exists. split.
  - intros (item & Hin%list_elem_of_In & Hs%bool_decide_eq_true). by exists item.
  - intros (item & Hin & Hs). exists item. split; [by apply list_elem_of_In|].
    by apply bool_decide_eq_true.
Qed.

Lemma insert_sorted_Sorted (x : string) (l : list string) :
  Sorted (fun a b => String.leb a b = true) l →
  Sorted (fun a b => String.leb a b = true) (sets.insert_sorted x l).
Proof.
  induction l as [|y l IH]; simpl; intros Hsorted.
  - by repeat constructor.
  - destruct (String.leb x y) eqn:Hxy.
    + constructor; [done|]. by constructor.
    + apply Sorted_inv in Hsorted as [Hl Hhd]. constructor; [by apply IH|].
      destruct l as [|z l]; simpl.
      * constructor. by destruct (String.leb_total x y) as [?|?]; [congruence|].
      * destruct (String.leb x z).
        -- constructor. by destruct (String.leb_total x y) as [?|?]; [congruence|].
        -- constructor. by apply HdRel_inv in Hhd.
Qed.

Lemma sets_List_Sorted (s : gset string) :
  Sorted (fun a b => String.leb a b = true) (sets.List s).
Proof.
  unfold sets.List. induction (elements s) as [|x l IH]; simpl; [constructor|].
  by apply insert_sorted_Sorted.
Qed.

Lemma insert_sorted_NoDup (x : string) (l : list string) :
  x ∉ l → NoDup l → NoDup (sets.insert_sorted x l).
Proof.
  induction l as [|y l IH]; simpl; intros Hx Hnd.
  - apply NoDup_singleton.
  - destruct (String.leb x y).
    + by apply NoDup_cons.
    + apply NoDup_cons in Hnd as [Hy Hnd]. apply not_elem_of_cons in Hx as [Hxy Hx].
      apply NoDup_cons. split; [|by apply IH].
      rewrite elem_of_insert_sorted. intros [->|?]; done.
Qed.

Lemma sets_List_NoDup (s : gset string) : NoDup (sets.List s).
Proof.
  unfold sets.List. pose proof (NoDup_elements s) as Hnd.
  induction (elements s) as [|x l IH]; simpl; [constructor|].
  apply NoDup_cons in Hnd as [Hx Hnd]. apply insert_sorted_NoDup; [|by apply IH].
  intros Hin. apply Hx. clear -Hin.
  induction l as [|y l IH]; simpl in *; [done|].
  apply elem_of_insert_sorted in Hin as [->|Hin]; [by left | right; by apply IH].
Qed.

(** X6: the blacklist check fires exactly when the declared labels and
    the blacklist share a label, and the message it records names
    exactly the shared labels, each once, in increasing byte order. *)
Theorem blacklist_message_names_shared_labels (labels labelsBlackList : list string) :
  let named := sets.List (sets.Intersection (sets.NewString labels)
                                             (sets.NewString labelsBlackList)) in
  (sets.HasAny (sets.NewString labels) labelsBlackList = true ↔ named ≠ [])
  ∧ (∀ label, label ∈ named ↔ label ∈ labels ∧ label ∈ labelsBlackList)
  ∧ NoDup named
  ∧ Sorted (fun a b => String.leb a b = true) named
  ∧ blacklistedMessage labels labelsBlackList
    = "File contains blacklisted labels: [" +:+ strings.Join named " " +:+ "].".
Proof.
  intros named.
  assert (∀ label, label ∈ named ↔ label ∈ labels ∧ label ∈ labelsBlackList) as Hnamed.
  { intros label. unfold named, sets.Intersection, sets.NewString.
    by rewrite elem_of_sets_List, elem_of_intersection, !elem_of_list_to_set. }
  split; [|split; [done|split; [apply sets_List_NoDup|split; [apply sets_List_Sorted|]]]].
  - rewrite HasAny_true. unfold sets.NewString. split.
    + intros (label & Hbl & Hl%elem_of_list_to_set) Hnil.
      assert (label ∈ named) as Hin by by apply Hnamed.
      rewrite Hnil in Hin. by apply elem_of_nil in Hin.
    + intros Hne. destruct named as [|label rest] eqn:Hn; [done|].
      exists label. destruct (Hnamed label) as [[Hl Hbl] _]; [apply list_elem_of_here|].
      split; [done | by apply elem_of_list_to_set].
  - unfold blacklistedMessage, fmt.strings. fold named.
    by rewrite !append_assoc.
Qed.

(** ** The roster fetch *)

Section RosterFetch.

Variable lib : Lib.
Variable w : World.

(** X7: [getMembersForOrg] makes one GET for the org.yaml of the
    organization.  A failing GET is returned as it is, a failing read
    of the body and a failing unmarshal are returned wrapped, and a
    roster that is returned has no member. *)
Theorem getMembersForOrg_outcome (orgName : string) :
  let url := "https://raw.githubusercontent.com/kubernetes/org/master/config/"
             +:+ orgName +:+ "/org.yaml" in
  ∃ r, getMembersForOrg lib w orgName = ([EvHttpGet url], Continue r)
       ∧ (∀ roster, r = Ok roster →
            roster = ∅
            ∧ ∃ data, http_Get w url = Ok (Ok data)
                      ∧ yaml_Unmarshal lib data org.zero = None)
       ∧ (∀ e, http_Get w url = Err e → r = Err e)
       ∧ (∀ e, http_Get w url = Ok (Err e) →
               r = Err ("unable to read the content at " +:+ url +:+ ": " +:+ e))
       ∧ (∀ data e, http_Get w url = Ok (Ok data) →
                    yaml_Unmarshal lib data org.zero = Some e →
                    r = Err ("failed to unmarshal org config: " +:+ e)).
Proof.
  intros url. unfold getMembersForOrg, mbind, M_bind, emit, mret, M_ret. fold url.
  eexists. split; [reflexivity|].
  destruct (http_Get w url) as [[data|e]|e].
  - destruct (yaml_Unmarshal lib data org.zero) as [e|] eqn:Hyaml.
    + split; [done|]. split; [done|]. split; [done|].
      intros data' e' [= <-] Hy. rewrite Hyaml in Hy. by injection Hy as <-.
    + split; [|split; [done|split; [done|]]].
      * intros roster [= <-]. split; [done|]. by exists data.
      * intros data' e' [= <-] Hy. by rewrite Hyaml in Hy.
  - split; [done|]. split; [done|]. split; [|done]. by intros e' [= <-].
  - split; [done|]. split; [|done]. by intros e' [= <-].
Qed.

Lemma fetch_failure_ends_bind {A B : Type} msg (m : M A) (f : A -> M B) :
  fetch_failure_ends msg m → (∀ a, fetch_failure_ends msg (f a)) →
  fetch_failure_ends msg (m ≫= f).
Proof.
  intros Hm Hf url. destruct m as [tr [a|err]]; simpl.
  - specialize (Hf a). destruct (f a) as [tr' r] eqn:Hfa. simpl.
    intros [Hin|Hin]%elem_of_app.
    + by pose proof (Hm url Hin).
    + exact (Hf url Hin).
  - intros Hin. pose proof (Hm url Hin) as Hr. simpl in Hr. by injection Hr as ->.
Qed.

Lemma fetch_failure_ends_no_fetch {A : Type} msg (m : M A) :
  Forall (fun e => is_fetch e = false) m.1 → fetch_failure_ends msg m.
Proof.
  intros Hall url Hin. rewrite Forall_forall in Hall. by specialize (Hall _ Hin).
Qed.

Lemma fetch_failure_ends_range {S X : Type} msg (body : S -> X -> M S)
    (l : list X) (st : S) :
  (∀ st c, fetch_failure_ends msg (body st c)) → fetch_failure_ends msg (range body l st).
Proof.
  intros Hbody. revert st. induction l as [|c l IH]; intros st; simpl.
  - by intros url ?%elem_of_nil.
  - apply fetch_failure_ends_bind; [apply Hbody | apply IH].
Qed.

Lemma relativeLine_fetches_nothing filename patch errText :
  Forall (fun e => is_fetch e = false) (relativeLine lib filename patch errText).1.
Proof.
  unfold relativeLine. destruct (lineno.FindStringSubmatch errText); [|trace_step].
  destruct (AddedLines lib patch) as [al|e].
  - destruct (al !! _); trace_step.
  - repeat trace_step.
Qed.

Lemma readFile_fetches_nothing path :
  Forall (fun e => is_fetch e = false) (readFile w path).1.
Proof.
  unfold readFile. trace_step; [trace_step|].
  destruct (ReadFile w path); repeat trace_step.
Qed.

Lemma parseOwners_fetches_nothing c b :
  Forall (fun e => is_fetch e = false) (parseOwners lib c b).1.
Proof.
  unfold parseOwners. destruct (simpleRoles _); [trace_step|].
  destruct (ParseFullConfig lib b); [trace_step|].
  trace_step; [apply relativeLine_fetches_nothing | trace_step].
Qed.

Variable orgName : string.
Variable fetchError : error.
Hypothesis fetch_fails : (getMembersForOrg lib w orgName).2 = Continue (Err fetchError).

Let msg : error := "failed to get members for org " +:+ orgName +:+ ": " +:+ fetchError.

Lemma fetch_failure_ends_pure {A : Type} (a : A) : fetch_failure_ends msg (mret a : M A).
Proof. by intros url ?%elem_of_nil. Qed.

Lemma ensureMembers_fetch_failure_ends roster :
  fetch_failure_ends msg (ensureMembers lib w orgName roster).
Proof.
  unfold ensureMembers. destruct (sets.Len roster =? 0); [|apply fetch_failure_ends_pure].
  intros url. unfold mbind, M_bind.
  destruct (getMembersForOrg lib w orgName) as [ftr [r|err]]; simpl in *; [|done].
  injection fetch_fails as ->. simpl. by rewrite app_nil_r.
Qed.

Lemma checkOwnersAliases_fetch_failure_ends dir ch st :
  fetch_failure_ends msg (checkOwnersAliases lib w orgName dir ch st).
Proof.
  unfold checkOwnersAliases.
  apply fetch_failure_ends_bind;
    [apply fetch_failure_ends_no_fetch, readFile_fetches_nothing|]. intros b.
  destruct (ParseAliasesConfig lib b) as [aliases perr].
  apply fetch_failure_ends_bind.
  - destruct perr; [|apply fetch_failure_ends_pure].
    apply fetch_failure_ends_bind; [|intros; apply fetch_failure_ends_pure].
    apply fetch_failure_ends_no_fetch, relativeLine_fetches_nothing.
  - intros located.
    apply fetch_failure_ends_bind; [|intros; apply fetch_failure_ends_pure].
    apply ensureMembers_fetch_failure_ends.
Qed.

Lemma checkOwnersFile_fetch_failure_ends dir bl st c :
  fetch_failure_ends msg (checkOwnersFile lib w orgName dir bl st c).
Proof.
  unfold checkOwnersFile.
  apply fetch_failure_ends_bind;
    [apply fetch_failure_ends_no_fetch, readFile_fetches_nothing|]. intros b.
  apply fetch_failure_ends_bind;
    [apply fetch_failure_ends_no_fetch, parseOwners_fetches_nothing|]. intros [m|roles].
  { apply fetch_failure_ends_pure. }
  destruct (sets.HasAny _ _); [apply fetch_failure_ends_pure|].
  destruct (_ && _); [apply fetch_failure_ends_pure|].
  apply fetch_failure_ends_bind; [|intros; apply fetch_failure_ends_pure].
  apply ensureMembers_fetch_failure_ends.
Qed.

End RosterFetch.

Section RosterFailure.

Variable lib : Lib.
Variable w : World.
Variable pre : github.PullRequestEvent.
Variable labelsBlackList : list string.

Let orgName := github.Login (github.Owner (github.EvRepo pre)).
Let repo := github.Name (github.EvRepo pre).
Let number := github.Number pre.

Lemma loadBaseAliases_fetches_nothing {A : Type} dir :
  Forall (fun e => is_fetch e = false) (@loadBaseAliases lib w A dir).1.
Proof.
  unfold loadBaseAliases. trace_step; [apply readFile_fetches_nothing|].
  destruct (ParseAliasesConfig lib a). trace_step.
Qed.

Lemma validate_fetch_failure_ends fetchError dir changes :
  (getMembersForOrg lib w orgName).2 = Continue (Err fetchError) →
  fetch_failure_ends
    ("failed to get members for org " +:+ orgName +:+ ": " +:+ fetchError)
    (validate lib w pre labelsBlackList dir changes).
Proof.
  intros Hfail. unfold validate. fold orgName.
  destruct (findOwnerAliases changes) as [ch modified].
  apply fetch_failure_ends_bind.
  { intros url [Hin|Hin%elem_of_nil]%elem_of_cons; [discriminate | done]. }
  intros _. destruct (CheckoutPullRequest w _) as [cerr|].
  { by intros url ?%elem_of_nil. }
  apply fetch_failure_ends_bind.
  - destruct modified; [by apply checkOwnersAliases_fetch_failure_ends|].
    by intros url ?%elem_of_nil.
  - intros st. apply fetch_failure_ends_bind.
    + apply fetch_failure_ends_no_fetch.
      destruct (_ && _); [apply loadBaseAliases_fetches_nothing | trace_step].
    + intros _. apply fetch_failure_ends_range. intros.
      by apply checkOwnersFile_fetch_failure_ends.
Qed.

Lemma react_fetches_nothing st url : EvHttpGet url ∉ (react lib w pre st).1.
Proof.
  unfold react, mbind, M_bind, emit, mret, M_ret, return_.
  destruct (sawSomething st); simpl.
  - destruct (AddLabel w _ _ _ _); simpl.
    + intros [?|?%elem_of_nil]%elem_of_cons; done.
    + destruct (0 <? _); destruct (wrongOwnersAliasesFilePresent st); simpl;
        destruct (CreateReview w _ _ _ _); simpl; intros Hin;
        repeat (apply elem_of_cons in Hin as [Hin|Hin]; [discriminate|]);
        by apply elem_of_nil in Hin.
  - destruct (RemoveLabel w _ _ _ _); simpl;
      intros [?|?%elem_of_nil]%elem_of_cons; done.
Qed.

Lemma cleanEvents_fetch_nothing url : EvHttpGet url ∉ cleanEvents w.
Proof.
  unfold cleanEvents. destruct (CleanRepo w); intros Hin;
    repeat (apply elem_of_cons in Hin as [Hin|Hin]; [discriminate|]);
    by apply elem_of_nil in Hin.
Qed.

(** X8: when the roster cannot be fetched, a run that asks for it
    ends there: [handle] returns the error of the fetch, wrapped, and
    the pull request is left as it is. *)
Theorem roster_failure_ends_the_run (fetchError : error) (url : string) :
  (getMembersForOrg lib w orgName).2 = Continue (Err fetchError) →
  EvHttpGet url ∈ (handle lib w pre labelsBlackList).1 →
  (handle lib w pre labelsBlackList).2
  = Some ("failed to get members for org " +:+ orgName +:+ ": " +:+ fetchError)
  ∧ filter (fun e => is_action e = true) (handle lib w pre labelsBlackList).1 = [].
Proof.
  intros Hfail.
  destruct (GetPullRequestChanges w orgName repo number) as [changes|ce] eqn:Hchanges.
  2:{ unfold handle, handleM. fold orgName repo number. rewrite Hchanges. simpl.
      intros [?|?%elem_of_nil]%elem_of_cons; done. }
  destruct ((Z.of_nat (length (listOwnersFiles changes)) =? 0)
            && negb (findOwnerAliases changes).2) eqn:Hkeep.
  { unfold handle, handleM. fold orgName repo number. rewrite Hchanges, Hkeep. simpl.
    intros [?|?%elem_of_nil]%elem_of_cons; done. }
  destruct (Clone w (github.FullName (github.EvRepo pre))) as [dir|ce] eqn:Hclone.
  2:{ unfold handle, handleM. fold orgName repo number.
      rewrite Hchanges, Hkeep, Hclone. simpl. intros Hin.
      repeat (apply elem_of_cons in Hin as [Hin|Hin]; [discriminate|]).
      by apply elem_of_nil in Hin. }
  pose proof (handle_no_decision lib w pre labelsBlackList) as Hquiet.
  unfold decision in Hquiet. fold orgName repo number in Hquiet.
  rewrite Hchanges, Hkeep, Hclone in Hquiet.
  rewrite (handle_run lib w pre labelsBlackList changes dir Hchanges Hkeep Hclone) in *.
  pose proof (validate_fetch_failure_ends fetchError dir changes Hfail url) as Hend.
  destruct (validate lib w pre labelsBlackList dir changes) as [vtr [st|err]];
    simpl in *; intros Hin.
  - apply elem_of_cons in Hin as [Hin|Hin]; [discriminate|].
    apply elem_of_cons in Hin as [Hin|Hin]; [discriminate|].
    apply elem_of_app in Hin as [Hin|Hin]; [|by apply cleanEvents_fetch_nothing in Hin].
    apply elem_of_app in Hin as [Hin|Hin]; [|by apply react_fetches_nothing in Hin].
    by pose proof (Hend Hin).
  - apply elem_of_cons in Hin as [Hin|Hin]; [discriminate|].
    apply elem_of_cons in Hin as [Hin|Hin]; [discriminate|].
    apply elem_of_app in Hin as [Hin|Hin]; [|by apply cleanEvents_fetch_nothing in Hin].
    pose proof (Hend Hin) as [= ->]. split; [done | by apply Hquiet].
Qed.

End RosterFailure.

(** ** Where the review comments go *)

Section Placement.

Variable lib : Lib.
Variable w : World.

Lemma relativeLine_placed filename patch errText tr ln :
  relativeLine lib filename patch errText = (tr, Continue ln) →
  placedInPatch lib patch ln.
Proof.
  unfold relativeLine, placedInPatch.
  destruct (lineno.FindStringSubmatch errText) as [ds|]; [|intros [= _ <-]; by left].
  destruct (AddedLines lib patch) as [al|e] eqn:Hal.
  - destruct (al !! lineno.Atoi ds) as [val|] eqn:Hval.
    + intros [= _ <-]. right. by exists al, (lineno.Atoi ds).
    + intros [= _ <-]. by left.
  - unfold mbind, M_bind, emit, mret, M_ret. simpl. intros [= _ <-]. by left.
Qed.

Lemma checkOwnersFile_placed orgName dir bl st c tr st' :
  checkOwnersFile lib w orgName dir bl st c = (tr, Continue st') →
  ∀ name m, wrongOwnersFiles st' !! name = Some m →
            wrongOwnersFiles st !! name = Some m
            ∨ (name = github.Filename c ∧ placedInPatch lib (github.Patch c) (line m)).
Proof.
  unfold checkOwnersFile. unfold mbind at 1, M_bind at 1.
  destruct (readFile w _) as [rtr [b|rerr]]; [|done].
  rewrite parseOwners_ownersRoles.
  assert (∀ (m0 : messageWithLine) name m,
            placedInPatch lib (github.Patch c) (line m0) →
            wrongOwnersFiles (recordWrong st (github.Filename c) m0) !! name = Some m →
            wrongOwnersFiles st !! name = Some m
            ∨ (name = github.Filename c ∧ placedInPatch lib (github.Patch c) (line m)))
    as Hrecord.
  { intros m0 name m Hplaced. simpl.
    destruct (decide (name = github.Filename c)) as [->|Hne].
    - rewrite lookup_insert_eq. intros [= <-]. by right.
    - rewrite lookup_insert_ne by done. by left. }
  destruct (ownersRoles lib b) as [roles|e].
  - unfold mbind, M_bind. simpl.
    destruct (sets.HasAny _ _).
    { intros [= _ <-] name m. apply Hrecord. by left. }
    destruct (_ && _).
    { intros [= _ <-] name m. apply Hrecord. by left. }
    destruct (ensureMembers lib w orgName (members st)) as [etr [roster|err]]; [|done].
    simpl. intros [= _ <-] name m. simpl. by left.
  - unfold mbind, M_bind.
    destruct (relativeLine lib (github.Filename c) (github.Patch c) e)
      as [ltr [ln|lerr]] eqn:Hln; [|done].
    simpl. intros [= _ <-] name m. apply Hrecord. simpl.
    by apply (relativeLine_placed _ _ _ _ _ Hln).
Qed.

Lemma range_placed orgName dir bl files st tr st' :
  range (checkOwnersFile lib w orgName dir bl) files st = (tr, Continue st') →
  ∀ name m, wrongOwnersFiles st' !! name = Some m →
            wrongOwnersFiles st !! name = Some m
            ∨ ∃ c, c ∈ files ∧ github.Filename c = name
                   ∧ placedInPatch lib (github.Patch c) (line m).
Proof.
  revert st tr. induction files as [|c files IH]; intros st tr; simpl.
  - intros [= _ <-] name m. by left.
  - destruct (checkOwnersFile lib w orgName dir bl st c) as [tr1 [st1|err]] eqn:Hstep;
      [|done].
    unfold mbind, M_bind. destruct (range _ files st1) as [tr2 r2] eqn:Hrest.
    intros [= _ ->] name m Hm.
    destruct (IH st1 tr2 Hrest name m Hm) as [H1|(c' & Hc' & Hname & Hplaced)].
    + destruct (checkOwnersFile_placed _ _ _ _ _ _ _ Hstep name m H1) as [?|[-> ?]];
        [by left|]. right. exists c. split; [apply list_elem_of_here | done].
    + right. exists c'. split; [by apply list_elem_of_further | done].
Qed.

Lemma checkOwnersAliases_placed orgName dir ch tr st' :
  checkOwnersAliases lib w orgName dir ch vstate0 = (tr, Continue st') →
  wrongOwnersAliasesFilePresent st' = true →
  placedInPatch lib (github.Patch ch) (line (ownersAliasesFileError st')).
Proof.
  unfold checkOwnersAliases. unfold mbind at 1, M_bind at 1.
  destruct (readFile w _) as [rtr [b|rerr]]; [|done].
  destruct (ParseAliasesConfig lib b) as [aliases [e|]].
  - unfold mbind, M_bind.
    destruct (relativeLine lib ownersAliasesFileName (github.Patch ch) e)
      as [ltr [ln|lerr]] eqn:Hln; [|done].
    simpl. destruct (ensureMembers lib w orgName ∅) as [etr [roster|eerr]]; [|done].
    simpl. intros [= _ <-] _. simpl. by apply (relativeLine_placed _ _ _ _ _ Hln).
  - unfold mbind, M_bind. simpl.
    destruct (ensureMembers lib w orgName ∅) as [etr [roster|eerr]]; [|done].
    simpl. by intros [= _ <-].
Qed.

Variable pre : github.PullRequestEvent.
Variable labelsBlackList : list string.

Let orgName := github.Login (github.Owner (github.EvRepo pre)).
Let repo := github.Name (github.EvRepo pre).
Let number := github.Number pre.

(** A run that reaches its decision found a changed file named
    OWNERS_ALIASES. *)
Lemma decision_aliases_modified st changes :
  decision lib w pre labelsBlackList = Some st →
  GetPullRequestChanges w orgName repo number = Ok changes →
  (findOwnerAliases changes).2 = true.
Proof.
  unfold decision. fold orgName repo number. intros Hdec Hchanges.
  rewrite Hchanges in Hdec.
  destruct (findOwnerAliases changes).2 eqn:Hmod; [done|]. exfalso.
  rewrite andb_true_r in Hdec.
  destruct (Z.of_nat (length (listOwnersFiles changes)) =? 0) eqn:Hfiles; [done|].
  destruct (Clone w _) as [dir|ce]; [|done].
  assert (listOwnersFiles changes ≠ []) as Hne.
  { intros Hnil. by rewrite Hnil in Hfiles. }
  destruct (aliases_unchanged_returns_early lib w pre labelsBlackList dir changes Hmod Hne)
    as [[err Hret] _].
  destruct (validate lib w pre labelsBlackList dir changes) as [vtr [st'|verr]];
    simpl in *; done.
Qed.

(** X5: every inline comment of the review a run posts is on a changed
    file, and its position is 1 or a position that [golint.AddedLines]
    has for the patch of a change of that file. *)
Theorem review_comments_are_placed_in_the_diff st changes comment :
  decision lib w pre labelsBlackList = Some st →
  GetPullRequestChanges w orgName repo number = Ok changes →
  comment ∈ github.Comments (draftReview lib pre st) →
  ∃ change, change ∈ changes
            ∧ github.Filename change = github.Path comment
            ∧ placedInPatch lib (github.Patch change) (github.Position comment).
Proof.
  intros Hdec Hchanges Hcomment.
  pose proof (decision_aliases_modified st changes Hdec Hchanges) as Hmod.
  destruct (Clone w (github.FullName (github.EvRepo pre))) as [dir|ce] eqn:Hclone.
  2:{ unfold decision in Hdec. fold orgName repo number in Hdec.
      rewrite Hchanges, Hclone in Hdec. by destruct (_ && _). }
  destruct (decision_loop lib w pre labelsBlackList st changes dir Hdec Hchanges Hclone)
    as (st0 & tr0 & tr1 & Haliases & Hloop).
  destruct (checkOwnersAliases_state lib w pre dir _ _ _ _ Haliases) as [Hempty _].
  destruct (range_checkOwnersFile lib w _ dir labelsBlackList _ _ _ _ Hloop)
    as (_ & Herr & Hflag & _).
  simpl in Hcomment. apply elem_of_reviewComments in Hcomment
    as [(m & Hm & Hpos & _)|[Hpresent ->]].
  - destruct (range_placed _ _ _ _ _ _ _ Hloop _ _ Hm) as [H0|(c & Hc & Hname & Hplaced)].
    + rewrite Hempty in H0. simpl in H0. by rewrite lookup_empty in H0.
    + apply elem_of_listOwnersFiles in Hc as [Hc _]. exists c. by rewrite Hpos.
  - unfold findOwnerAliases in *.
    destruct (findOwnerAliases_from changes
                ({| github.Filename := ""; github.Patch := "" |}, false))
      as [[Heq _]|[_ [Hin Hname]]].
    { rewrite Heq in Hmod. discriminate. }
    eexists. split; [exact Hin|]. split; [by rewrite Hname|]. simpl.
    rewrite Herr. apply (checkOwnersAliases_placed _ _ _ _ _ Haliases). by rewrite <- Hflag.
Qed.

End Placement.

(** ** The users a run reports *)

Section Reported.

Variable lib : Lib.
Variable w : World.

Lemma checkOwnersFile_reports orgName dir bl st c tr st' :
  members st = ∅ →
  checkOwnersFile lib w orgName dir bl st c = (tr, Continue st') →
  (∀ user, user ∈ nonMembers st → user ∈ nonMembers st')
  ∧ ∀ b roles user,
      ReadFile w (filepath.Join [dir; github.Filename c]) = Ok b →
      ownersRoles lib b = Ok roles →
      rolesError bl (github.Filename c) roles = None →
      user ∈ checkedUsers (repoAliases st) roles → user ∈ nonMembers st'.
Proof.
  intros Hempty Hrun.
  destruct (ReadFile w (filepath.Join [dir; github.Filename c])) as [b|e] eqn:Hread.
  2:{ unfold checkOwnersFile, readFile, mbind, M_bind, emit in Hrun. simpl in Hrun.
      by rewrite Hread in Hrun. }
  pose proof (parseOwners_ownersRoles lib c b) as Hparse.
  destruct (ownersRoles lib b) as [roles|e] eqn:Hroles.
  - rewrite (checkOwnersFile_roles lib w orgName dir bl st c b roles Hread Hparse) in Hrun.
    destruct (rolesError bl (github.Filename c) roles) as [m|] eqn:Herr.
    + injection Hrun as _ <-. simpl. split; [done|].
      intros b' roles' user [= <-] Hr. rewrite Hroles in Hr. injection Hr as <-.
      by rewrite Herr.
    + unfold mbind, M_bind, emit, mret, M_ret in Hrun. simpl in Hrun.
      rewrite Hempty in Hrun.
      destruct (ensureMembers lib w orgName ∅) as [etr [roster|err]] eqn:Hfetch; [|done].
      destruct (ensureMembers_empty lib w _ _ _ Hfetch) as [-> _].
      injection Hrun as _ <-. simpl.
      unfold sets.Union, getNonMembersFromLists, sets.Difference. split.
      * intros user Hin. apply elem_of_union. by left.
      * intros b' roles' user [= <-] Hr _ Hin. rewrite Hroles in Hr.
        injection Hr as <-. apply elem_of_union. right.
        apply elem_of_difference. split; [done|]. apply not_elem_of_empty.
  - destruct (relativeLine_continues lib (github.Filename c) (github.Patch c) e)
      as [ltr [ln Hln]].
    unfold checkOwnersFile, readFile in Hrun.
    unfold mbind at 1 2 3, M_bind at 1 2 3, emit in Hrun. simpl in Hrun.
    rewrite Hread in Hrun. simpl in Hrun. rewrite Hparse in Hrun.
    unfold mbind, M_bind in Hrun. rewrite Hln in Hrun. simpl in Hrun.
    injection Hrun as _ <-. simpl. split; [done|].
    intros b' roles' user [= <-] Hr. by rewrite Hroles in Hr.
Qed.

Lemma range_reports orgName dir bl files st tr st' :
  members st = ∅ →
  range (checkOwnersFile lib w orgName dir bl) files st = (tr, Continue st') →
  (∀ user, user ∈ nonMembers st → user ∈ nonMembers st')
  ∧ ∀ c b roles user,
      c ∈ files →
      ReadFile w (filepath.Join [dir; github.Filename c]) = Ok b →
      ownersRoles lib b = Ok roles →
      rolesError bl (github.Filename c) roles = None →
      user ∈ checkedUsers (repoAliases st) roles → user ∈ nonMembers st'.
Proof.
  revert st tr. induction files as [|c files IH]; intros st tr Hempty; simpl.
  - intros [= _ <-]. split; [done|]. by intros c b roles user ?%elem_of_nil.
  - destruct (checkOwnersFile lib w orgName dir bl st c) as [tr1 [st1|err]] eqn:Hstep;
      [|done].
    unfold mbind, M_bind. destruct (range _ files st1) as [tr2 r2] eqn:Hrest.
    intros [= _ ->].
    destruct (checkOwnersFile_reports _ _ _ _ _ _ _ Hempty Hstep) as [Hmono1 Hadd1].
    destruct (checkOwnersFile_step lib w _ _ _ _ _ _ _ Hstep) as (_ & _ & Hal1 & _).
    pose proof (checkOwnersFile_members lib w _ _ _ _ _ _ _ Hempty Hstep) as Hempty1.
    destruct (IH st1 tr2 Hempty1 Hrest) as [Hmono Hadd].
    split; [by intros user ?; apply Hmono, Hmono1|].
    intros c' b roles user [->|Hc']%elem_of_cons Hread Hroles Herr Hin.
    + by apply Hmono, (Hadd1 b roles).
    + apply (Hadd c' b roles); [done..|]. by rewrite Hal1.
Qed.

Lemma checkOwnersAliases_reports orgName dir ch tr st' :
  checkOwnersAliases lib w orgName dir ch vstate0 = (tr, Continue st') →
  members st' = ∅
  ∧ nonMembers st' = repoowners.ExpandAllAliases (repoAliases st').
Proof.
  unfold checkOwnersAliases, mbind, M_bind.
  destruct (readFile w _) as [rtr [b|rerr]]; [|done].
  destruct (ParseAliasesConfig lib b) as [aliases perr].
  destruct (match perr with Some _ => _ | None => _ end) as [ltr [located|lerr]]; [|done].
  simpl.
  destruct (ensureMembers lib w orgName ∅) as [etr [roster|eerr]] eqn:Hfetch; [|done].
  destruct (ensureMembers_empty lib w _ _ _ Hfetch) as [-> _].
  simpl. intros [= _ <-]. simpl. split; [done|].
  unfold sets.Difference. apply difference_empty_L.
Qed.

Variable pre : github.PullRequestEvent.
Variable labelsBlackList : list string.

Let orgName := github.Login (github.Owner (github.EvRepo pre)).
Let repo := github.Name (github.EvRepo pre).
Let number := github.Number pre.

(** X9: in a run that reaches its decision the non-member set holds
    every member of every alias of the alias file and every user that
    the approvers, reviewers and required reviewers of a changed OWNERS
    file name (alias names apart) when that file passes the blacklist
    and root-approver checks, and nobody else: the roster the run
    compares them with is empty. *)
Theorem run_reports_every_listed_user st changes dir user :
  decision lib w pre labelsBlackList = Some st →
  GetPullRequestChanges w orgName repo number = Ok changes →
  Clone w (github.FullName (github.EvRepo pre)) = Ok dir →
  user ∈ nonMembers st
  ↔ user ∈ repoowners.ExpandAllAliases (repoAliases st)
    ∨ ∃ c b roles,
        c ∈ changes ∧ filepath.Base (github.Filename c) = ownersFileName
        ∧ ReadFile w (filepath.Join [dir; github.Filename c]) = Ok b
        ∧ ownersRoles lib b = Ok roles
        ∧ rolesError labelsBlackList (github.Filename c) roles = None
        ∧ user ∈ checkedUsers (repoAliases st) roles.
Proof.
  intros Hdec Hchanges Hclone.
  destruct (decision_loop lib w pre labelsBlackList st changes dir Hdec Hchanges Hclone)
    as (st0 & tr0 & tr1 & Haliases & Hloop).
  destruct (checkOwnersAliases_reports _ _ _ _ _ Haliases) as [Hempty0 Hnon0].
  destruct (range_checkOwnersFile lib w _ dir labelsBlackList _ _ _ _ Hloop)
    as (Hal & _ & _ & _ & _ & Hfrom).
  destruct (range_reports _ _ _ _ _ _ _ Hempty0 Hloop) as [Hmono Hadd].
  rewrite Hal. split.
  - intros Hin. destruct (Hfrom user Hin) as [Hin0|(c & b & roles & Hc & ?)].
    + left. by rewrite <- Hnon0.
    + right. exists c, b, roles. by apply elem_of_listOwnersFiles in Hc as [Hc Hbase].
  - intros [Hin|(c & b & roles & Hc & Hbase & Hread & Hroles & Herr & Hin)].
    + apply Hmono. by rewrite Hnon0.
    + apply (Hadd c b roles); [by apply elem_of_listOwnersFiles | done..].
Qed.

End Reported.

(** ** The properties above on concrete pull requests *)

Lemma clone_is_cleaned_up_once_witness :
  ∃ before,
    (handle Scenario.lib Scenario.brokenPR Scenario.pre []).1 = before ++ [EvCleanRepo]
    ∧ EvCleanRepo ∉ before.
Proof.
  eapply (proj1 (clone_is_cleaned_up_once Scenario.lib Scenario.brokenPR Scenario.pre [])
            "/tmp/clone").
  - vm_compute. apply list_elem_of_further, list_elem_of_here.
  - reflexivity.
Defined.

Lemma quiet_without_aliases_change_witness :
  filter (fun e => is_action e = true)
         (handle Scenario.lib Scenario.brokenOwnersOnlyPR Scenario.pre []).1 = [].
Proof.
  eapply (quiet_without_aliases_change Scenario.lib Scenario.brokenOwnersOnlyPR
            Scenario.pre []).
  - reflexivity.
  - intros c Hc.
    repeat (apply elem_of_cons in Hc as [->|Hc]; [vm_compute; discriminate|]).
    by apply elem_of_nil in Hc.
Defined.

Lemma roster_failure_ends_the_run_witness :
  (handle Scenario.lib Scenario.rosterDownPR Scenario.pre []).2
  = Some "failed to get members for org kubernetes: dial tcp: i/o timeout".
Proof.
  eapply (roster_failure_ends_the_run Scenario.lib Scenario.rosterDownPR Scenario.pre []
            "dial tcp: i/o timeout" Scenario.rosterURL).
  - reflexivity.
  - vm_compute. do 4 apply list_elem_of_further. apply list_elem_of_here.
Defined.

Lemma review_comments_are_placed_in_the_diff_witness :
  ∃ change,
    change ∈ [Scenario.change "OWNERS"; Scenario.change "OWNERS_ALIASES"]
    ∧ github.Filename change = "OWNERS"
    ∧ placedInPatch Scenario.lib (github.Patch change) 4.
Proof.
  eapply (review_comments_are_placed_in_the_diff Scenario.lib Scenario.brokenPR
            Scenario.pre [] _ _
            {| github.Path := "OWNERS"; github.Position := 4;
               github.CommentBody := "Cannot parse file: " +:+ Scenario.filteredError
                                      +:+ "." |}).
  - vm_compute. reflexivity.
  - reflexivity.
  - vm_compute. apply list_elem_of_here.
Defined.

Lemma run_reports_every_listed_user_witness :
  ∃ st, decision Scenario.lib Scenario.teamPR Scenario.pre [] = Some st
        ∧ "bob" ∈ nonMembers st.
Proof.
  eexists. split; [vm_compute; reflexivity|].
  edestruct (run_reports_every_listed_user Scenario.lib Scenario.teamPR Scenario.pre [])
    with (user := "bob") as [_ Hback].
  - vm_compute. reflexivity.
  - reflexivity.
  - reflexivity.
  - apply Hback. right.
    exists (Scenario.change "pkg/OWNERS"), "approvers: [team-a, bob]",
           (Scenario.roles ["team-a"; "bob"] [] [] []).
    split; [apply list_elem_of_here|].
    split; [reflexivity|]. split; [reflexivity|]. split; [reflexivity|].
    split; [reflexivity|].
    unfold checkedUsers, totalUsers. apply elem_of_totalUsers_from. left. split.
    + vm_compute. reflexivity.
    + right. eexists. split; [apply list_elem_of_here|].
      apply list_elem_of_further, list_elem_of_here.
Defined.

(** ** Matching by derivatives is matching *)

Section Regexp.

Import regexp.

Lemma Matches_Fail s : ¬ Matches Fail s.
Proof. intros H. inversion H. Qed.

Lemma Matches_Eps s : Matches Eps s ↔ s = [].
Proof. split; [intros H; by inversion H | intros ->; constructor]. Qed.

Lemma Matches_Class p s : Matches (Class p) s ↔ ∃ c, s = [c] ∧ p c = true.
Proof.
  split.
  - intros H. inversion H; subst. by eexists.
  - intros (c & -> & Hp). by constructor.
Qed.

Lemma Matches_Seq r1 r2 s :
  Matches (Seq r1 r2) s ↔ ∃ s1 s2, s = s1 ++ s2 ∧ Matches r1 s1 ∧ Matches r2 s2.
Proof.
  split.
  - intros H. inversion H; subst. by eexists _, _.
  - intros (s1 & s2 & -> & H1 & H2). by constructor.
Qed.

Lemma Matches_Alt r1 r2 s : Matches (Alt r1 r2) s ↔ Matches r1 s ∨ Matches r2 s.
Proof.
  split.
  - intros H. inversion H; subst; [by left | by right].
  - intros [H|H]; [by apply MAltL | by apply MAltR].
Qed.

Lemma Matches_Star_cons r c s :
  Matches (Star r) (c :: s) →
  ∃ s1 s2, s = s1 ++ s2 ∧ Matches r (c :: s1) ∧ Matches (Star r) s2.
Proof.
  intros H. remember (Star r) as sr eqn:Hsr. remember (c :: s) as cs eqn:Hcs.
  revert c s Hcs Hsr. induction H; intros c' s' Hcs Hsr; try discriminate.
  injection Hsr as ->. destruct s1 as [|c1 s1]; simpl in Hcs.
  - by apply IHMatches2.
  - injection Hcs as -> <-. by exists s1, s2.
Qed.

Lemma nullable_Matches r : nullable r = true ↔ Matches r [].
Proof.
  induction r as [| |p|r1 IH1 r2 IH2|r1 IH1 r2 IH2|r IH]; simpl.
  - split; [done | by intros ?%Matches_Fail].
  - split; [constructor | done].
  - split; [done|]. by intros (c & ? & _)%Matches_Class.
  - rewrite andb_true_iff, IH1, IH2, Matches_Seq. split.
    + intros [H1 H2]. by exists [], [].
    + intros (s1 & s2 & Hnil & H1 & H2). symmetry in Hnil.
      apply app_eq_nil in Hnil as [-> ->]. done.
  - by rewrite orb_true_iff, IH1, IH2, Matches_Alt.
  - split; [constructor | done].
Qed.

Lemma Matches_seq r1 r2 s : Matches (seq r1 r2) s ↔ Matches (Seq r1 r2) s.
Proof.
  rewrite Matches_Seq.
  assert (Matches r2 s ↔ ∃ s1 s2, s = s1 ++ s2 ∧ Matches Eps s1 ∧ Matches r2 s2) as Heps.
  { split.
    - intros H. exists [], s. repeat split; [constructor | done].
    - intros (s1 & s2 & -> & ->%Matches_Eps & H2). done. }
  assert (∀ r, (Matches Fail s ↔ ∃ s1 s2, s = s1 ++ s2 ∧ Matches r s1 ∧ Matches Fail s2))
    as Hfail2.
  { intros r. split; [by intros ?%Matches_Fail|].
    by intros (s1 & s2 & _ & _ & ?%Matches_Fail). }
  destruct r1; simpl.
  - split; [by intros ?%Matches_Fail|]. by intros (s1 & s2 & _ & ?%Matches_Fail & _).
  - destruct r2; try (rewrite <- Matches_Seq; exact Heps || done); first [apply Hfail2 | exact Heps].
  - destruct r2; first [apply Hfail2 | by rewrite Matches_Seq].
  - destruct r2; first [apply Hfail2 | by rewrite Matches_Seq].
  - destruct r2; first [apply Hfail2 | by rewrite Matches_Seq].
  - destruct r2; first [apply Hfail2 | by rewrite Matches_Seq].
Qed.

Lemma Matches_alt r1 r2 s : Matches (alt r1 r2) s ↔ Matches (Alt r1 r2) s.
Proof.
  rewrite Matches_Alt.
  assert (∀ P : Prop, (P ↔ Matches Fail s ∨ P)) as Hl.
  { intros P. split; [by right | by intros [?%Matches_Fail|?]]. }
  assert (∀ P : Prop, (P ↔ P ∨ Matches Fail s)) as Hr.
  { intros P. split; [by left | by intros [?|?%Matches_Fail]]. }
  destruct r1; [exact (Hl _)|..];
    destruct r2; simpl; first [exact (Hr _) | by rewrite Matches_Alt].
Qed.

Lemma deriv_Matches c r s : Matches (deriv c r) s ↔ Matches r (c :: s).
Proof.
  revert s. induction r as [| |p|r1 IH1 r2 IH2|r1 IH1 r2 IH2|r IH]; intros s; simpl.
  - split; by intros ?%Matches_Fail.
  - split; [by intros ?%Matches_Fail | by intros ?%Matches_Eps].
  - rewrite Matches_Class. destruct (p c) eqn:Hp.
    + rewrite Matches_Eps. split.
      * intros ->. by exists c.
      * by intros (c' & [= <- ->] & _).
    + split; [by intros ?%Matches_Fail|]. intros (c' & [= <- ->] & Hp'). congruence.
  - rewrite Matches_alt, Matches_Alt, Matches_seq, !Matches_Seq. split.
    + intros [(s1 & s2 & -> & H1 & H2)|Hskip].
      * exists (c :: s1), s2. split; [done|]. split; [by apply IH1 | done].
      * destruct (nullable r1) eqn:Hnull; [|by apply Matches_Fail in Hskip].
        exists [], (c :: s). split; [done|].
        split; [by apply nullable_Matches | by apply IH2].
    + intros (s1 & s2 & Hcs & H1 & H2). destruct s1 as [|c1 s1]; simpl in Hcs.
      * subst s2. right. apply nullable_Matches in H1. rewrite H1. by apply IH2.
      * injection Hcs as <- ->. left. exists s1, s2. split; [done|].
        split; [by apply IH1 | done].
  - by rewrite Matches_alt, !Matches_Alt, IH1, IH2.
  - rewrite Matches_seq, Matches_Seq. split.
    + intros (s1 & s2 & -> & H1 & H2). apply IH in H1.
      by apply (MStarApp r (c :: s1) s2).
    + intros (s1 & s2 & -> & H1 & H2)%Matches_Star_cons.
      exists s1, s2. split; [done|]. split; [by apply IH | done].
Qed.

Lemma matches_Matches r s : matches r s = true ↔ Matches r s.
Proof.
  revert r. induction s as [|c s IH]; intros r; simpl.
  - apply nullable_Matches.
  - by rewrite IH, deriv_Matches.
Qed.

Lemma Matches_Star_Any s : Matches (Star Any) s.
Proof.
  induction s as [|c s IH]; [constructor|].
  apply (MStarApp Any [c] s); [by constructor | done].
Qed.

(** [MatchString] says whether some part of the string matches. *)
Lemma MatchString_Matches r s :
  MatchString r s = true
  ↔ ∃ before part after,
      list_ascii_of_string s = before ++ part ++ after ∧ Matches r part.
Proof.
  unfold MatchString. rewrite matches_Matches, Matches_Seq. split.
  - intros (s1 & s2 & Hs & _ & (part & after & -> & Hpart & _)%Matches_Seq).
    by exists s1, part, after.
  - intros (before & part & after & Hs & Hpart).
    exists before, (part ++ after). split; [done|].
    split; [apply Matches_Star_Any|]. apply Matches_Seq.
    exists part, after. split; [done|]. split; [done | apply Matches_Star_Any].
Qed.

End Regexp.

(** ** What the two patterns of invalidcommitmsg match *)

Section Patterns.

Import regexp.

Lemma Matches_Lit c s : Matches (Lit c) s ↔ s = [c].
Proof.
  unfold Lit. rewrite Matches_Class. split.
  - intros (c' & -> & Heq). apply Ascii.eqb_eq in Heq. by subst.
  - intros ->. exists c. split; [done | apply Ascii.eqb_refl].
Qed.

Lemma Matches_Str str s : Matches (Str str) s ↔ s = list_ascii_of_string str.
Proof.
  revert s. induction str as [|c str IH]; intros s; simpl.
  - apply Matches_Eps.
  - rewrite Matches_Seq. split.
    + intros (s1 & s2 & -> & ->%Matches_Lit & ->%IH). done.
    + intros ->. exists [c], (list_ascii_of_string str).
      split; [done|]. split; [by apply Matches_Lit | by apply IH].
Qed.

Lemma Matches_OneOf str s :
  Matches (OneOf str) s ↔ ∃ c, s = [c] ∧ In c (list_ascii_of_string str).
Proof.
  unfold OneOf. rewrite Matches_Class. split.
  - intros (c & -> & (c' & Hin & <-%Ascii.eqb_eq)%existsb_exists). by exists c.
  - intros (c & -> & Hin). exists c. split; [done|]. apply existsb_exists.
    exists c. split; [done | apply Ascii.eqb_refl].
Qed.

Lemma Matches_Opt r s : Matches (Opt r) s ↔ Matches r s ∨ s = [].
Proof. unfold Opt. by rewrite Matches_Alt, Matches_Eps. Qed.

Lemma Matches_Star_Class p s : Matches (Star (Class p)) s ↔ Forall (fun c => p c = true) s.
Proof.
  split.
  - intros H. remember (Star (Class p)) as sr eqn:Hsr. revert Hsr.
    induction H; intros Hsr; try discriminate.
    + constructor.
    + injection Hsr as ->. apply Matches_Class in H as (c & -> & Hp).
      apply List.Forall_cons; [done | by apply IHMatches2].
  - induction 1 as [|c s Hp _ IH]; [constructor|].
    apply (MStarApp _ [c] s); [by constructor | done].
Qed.

Lemma Matches_Plus_Class p s :
  Matches (Plus (Class p)) s ↔ s ≠ [] ∧ Forall (fun c => p c = true) s.
Proof.
  unfold Plus. rewrite Matches_Seq. split.
  - intros (s1 & s2 & -> & (c & -> & Hp)%Matches_Class & Hrest%Matches_Star_Class).
    split; [done|]. by apply List.Forall_cons.
  - intros [Hne Hall]. destruct s as [|c s]; [done|].
    apply Forall_cons in Hall as [Hp Hall]. exists [c], s. split; [done|].
    split; [by constructor | by apply Matches_Star_Class].
Qed.

(** What [@[-\w]+] matches in full. *)
Lemma Matches_atMentionRegex s :
  Matches invalidcommitmsg.atMentionRegex s
  ↔ ∃ name, s = "@"%char :: name ∧ name ≠ []
            ∧ Forall (fun c => invalidcommitmsg.mentionChar c = true) name.
Proof.
  unfold invalidcommitmsg.atMentionRegex. rewrite Matches_Seq. split.
  - intros (s1 & s2 & -> & ->%Matches_Lit & [Hne Hall]%Matches_Plus_Class). by exists s2.
  - intros (name & -> & Hne & Hall). exists ["@"%char], name. split; [done|].
    split; [by apply Matches_Lit | by apply Matches_Plus_Class].
Qed.

(** What the keyword part matches in full. *)
Lemma Matches_closeKeyword s :
  Matches invalidcommitmsg.closeKeyword s
  ↔ ∃ keyword, keyword ∈ invalidcommitmsg.closeKeywords
               ∧ s = list_ascii_of_string keyword.
Proof.
  split.
  - unfold invalidcommitmsg.closeKeyword, invalidcommitmsg.e_s_d.
    rewrite !Matches_Alt, !Matches_Seq.
    intros [[(s1 & s2 & -> & H1 & H2)|(s1 & s2 & -> & H1 & H2)]|(s1 & s2 & -> & H1 & H2)];
      apply Matches_OneOf in H1 as (c & -> & Hc);
      apply Matches_Seq in H2 as (s3 & s4 & -> & ->%Matches_Str & H4).
    + apply Matches_Seq in H4 as (s5 & s6 & -> & ->%Matches_Lit & H6).
      apply Matches_Opt in H6 as [(c' & -> & Hc')%Matches_OneOf| ->];
        simpl in Hc; try (simpl in Hc');
        repeat match goal with H : _ ∨ _ |- _ => destruct H as [<-|H] end; try done;
        eexists; (split; [|symmetry; apply list_ascii_of_string_of_list_ascii]);
        vm_compute; repeat constructor.
    + apply Matches_Opt in H4 as [[->%Matches_Str| ->%Matches_Str]%Matches_Alt| ->];
        simpl in Hc;
        repeat match goal with H : _ ∨ _ |- _ => destruct H as [<-|H] end; try done;
        eexists; (split; [|symmetry; apply list_ascii_of_string_of_list_ascii]);
        vm_compute; repeat constructor.
    + apply Matches_Seq in H4 as (s5 & s6 & -> & ->%Matches_Lit & H6).
      apply Matches_Opt in H6 as [(c' & -> & Hc')%Matches_OneOf| ->];
        simpl in Hc; try (simpl in Hc');
        repeat match goal with H : _ ∨ _ |- _ => destruct H as [<-|H] end; try done;
        eexists; (split; [|symmetry; apply list_ascii_of_string_of_list_ascii]);
        vm_compute; repeat constructor.
  - intros (keyword & Hin & ->). apply matches_Matches.
    unfold invalidcommitmsg.closeKeywords in Hin.
    repeat (apply elem_of_cons in Hin as [->|Hin]; [vm_compute; reflexivity|]).
    by apply elem_of_nil in Hin.
Qed.

End Patterns.

Section Flagged.

Import regexp.

(** X10: a commit message matches the mention pattern exactly when it
    has an [@] directly followed by a letter, a digit, an underscore or
    a hyphen. *)
Theorem mention_is_at_then_name_byte (message : string) :
  MatchString invalidcommitmsg.atMentionRegex message = true
  ↔ ∃ before c after,
      list_ascii_of_string message = before ++ "@"%char :: c :: after
      ∧ invalidcommitmsg.mentionChar c = true.
Proof.
  rewrite MatchString_Matches. split.
  - intros (before & part & after & Hs & (name & -> & Hne & Hall)%Matches_atMentionRegex).
    destruct name as [|c name]; [done|]. apply Forall_cons in Hall as [Hc _].
    exists before, c, (name ++ after). by rewrite Hs.
  - intros (before & c & after & Hs & Hc).
    exists before, ["@"%char; c], after. split; [done|].
    apply Matches_atMentionRegex. exists [c]. split; [done|]. split; [done|].
    by apply List.Forall_cons.
Qed.

(** What [(\w+/\w+)?] matches in full. *)
Lemma Matches_slug s :
  Matches (Opt (Seq (Plus (Class word)) (Seq (Lit "/") (Plus (Class word))))) s
  ↔ s = []
    ∨ ∃ owner repo, s = owner ++ "/"%char :: repo ∧ owner ≠ [] ∧ repo ≠ []
                    ∧ Forall (fun c => word c = true) owner
                    ∧ Forall (fun c => word c = true) repo.
Proof.
  rewrite Matches_Opt, Matches_Seq. split.
  - intros [(s1 & s2 & -> & [Hne1 H1]%Matches_Plus_Class
             & (s3 & s4 & -> & ->%Matches_Lit & [Hne4 H4]%Matches_Plus_Class)%Matches_Seq)
           | ->]; [|by left].
    right. by exists s1, s4.
  - intros [->|(owner & repo & -> & Hne1 & Hne2 & H1 & H2)]; [by right|]. left.
    exists owner, ("/"%char :: repo). split; [done|].
    split; [by apply Matches_Plus_Class|]. apply Matches_Seq.
    exists ["/"%char], repo. split; [done|].
    split; [by apply Matches_Lit | by apply Matches_Plus_Class].
Qed.

(** X11: a commit message matches the closing pattern exactly when it
    has one of the eighteen keywords (close, fix, resolve, with s or d
    or es or ed, the first letter in either case), then at least one
    blank or colon, then possibly [owner/repo] made of word bytes, then
    [#] and a digit. *)
Theorem closing_keyword_then_issue_number (message : string) :
  MatchString invalidcommitmsg.closeIssueRegex message = true
  ↔ ∃ before keyword sep slug d after,
      list_ascii_of_string message
      = before ++ list_ascii_of_string keyword ++ sep ++ slug ++ "#"%char :: d :: after
      ∧ keyword ∈ invalidcommitmsg.closeKeywords
      ∧ sep ≠ [] ∧ Forall (fun c => invalidcommitmsg.separator c = true) sep
      ∧ (slug = []
         ∨ ∃ owner repo, slug = owner ++ "/"%char :: repo ∧ owner ≠ [] ∧ repo ≠ []
                         ∧ Forall (fun c => word c = true) owner
                         ∧ Forall (fun c => word c = true) repo)
      ∧ digit d = true.
Proof.
  rewrite MatchString_Matches. unfold invalidcommitmsg.closeIssueRegex. split.
  - intros (before & part & after & Hs & Hpart).
    apply Matches_Seq in Hpart as (k & s1 & -> & (keyword & Hk & ->)%Matches_closeKeyword & H1).
    apply Matches_Seq in H1 as (sep & s2 & -> & [Hsep Hseps]%Matches_Plus_Class & H2).
    apply Matches_Seq in H2 as (slug & s3 & -> & Hslug%Matches_slug & H3).
    apply Matches_Seq in H3 as (s4 & ds & -> & ->%Matches_Lit & [Hds Hdigits]%Matches_Plus_Class).
    destruct ds as [|d ds]; [done|]. apply Forall_cons in Hdigits as [Hd _].
    exists before, keyword, sep, slug, d, (ds ++ after).
    split; [|done]. rewrite Hs. by rewrite <- !app_assoc.
  - intros (before & keyword & sep & slug & d & after & Hs & Hk & Hsep & Hseps & Hslug & Hd).
    exists before, (list_ascii_of_string keyword ++ sep ++ slug ++ ["#"%char; d]), after.
    split; [rewrite Hs; by rewrite <- !app_assoc|].
    apply Matches_Seq. eexists _, _. split; [reflexivity|].
    split; [apply Matches_closeKeyword; by exists keyword|].
    apply Matches_Seq. eexists _, _. split; [reflexivity|].
    split; [by apply Matches_Plus_Class|].
    apply Matches_Seq. eexists _, _. split; [reflexivity|].
    split; [by apply Matches_slug|].
    apply Matches_Seq. exists ["#"%char], [d]. split; [done|].
    split; [by apply Matches_Lit|]. apply Matches_Plus_Class. split; [done|].
    by apply List.Forall_cons.
Qed.

(** A message that is taken for invalid has a [#] or an [@]. *)
Lemma invalidMessage_has_hash_or_at (message : string) :
  invalidcommitmsg.invalidMessage message = true →
  "#"%char ∈ list_ascii_of_string message ∨ "@"%char ∈ list_ascii_of_string message.
Proof.
  unfold invalidcommitmsg.invalidMessage. intros [Hclose|Hat]%orb_true_iff.
  - left. apply MatchString_Matches in Hclose as (before & part & after & -> & Hpart).
    unfold invalidcommitmsg.closeIssueRegex in Hpart.
    apply Matches_Seq in Hpart as (k & s1 & -> & _ & H1).
    apply Matches_Seq in H1 as (sep & s2 & -> & _ & H2).
    apply Matches_Seq in H2 as (slug & s3 & -> & _ & H3).
    apply Matches_Seq in H3 as (s4 & ds & -> & ->%Matches_Lit & _).
    rewrite !elem_of_app. right. left. right. right. right. left. apply list_elem_of_here.
  - right. apply MatchString_Matches in Hat as (before & part & after & -> & Hpart).
    apply Matches_atMentionRegex in Hpart as (name & -> & _).
    rewrite !elem_of_app. right. left. apply list_elem_of_here.
Qed.

End Flagged.

(** ** The invalidcommitmsg plugin *)

Section Commits.

Import labelplugins.

Lemma filter_change_logged err msg :
  filter (fun c => is_change c = true) (logged err msg) = [].
Proof. by destruct err. Qed.

Lemma Forall_logged (P : call → Prop) err msg :
  (∀ e, P (CallErrorf e msg)) → Forall P (logged err msg).
Proof. intros HP. destruct err; simpl; [by apply List.Forall_cons | done]. Qed.

Lemma invalidCommits_Some repoCommits shas found :
  invalidcommitmsg.invalidCommits repoCommits shas = Some found
  ↔ (∀ c, c ∈ repoCommits → invalidcommitmsg.flagged c = true →
          (7 <= String.length (CommitSHA c))%nat)
    ∧ found = shas ++ map (fun c => String.substring 0 7 (CommitSHA c))
                        (filter (fun c => invalidcommitmsg.flagged c = true) repoCommits).
Proof.
  revert shas. induction repoCommits as [|c cs IH]; intros shas; simpl.
  - rewrite app_nil_r. split.
    + intros [= <-]. split; [|done]. by intros c ?%elem_of_nil.
    + by intros [_ ->].
  - rewrite filter_cons. fold (invalidcommitmsg.flagged c).
    destruct (decide (invalidcommitmsg.flagged c = true)) as [Hc|Hc].
    + rewrite Hc. unfold invalidcommitmsg.shortSHA.
      destruct (7 <=? String.length (CommitSHA c))%nat eqn:Hlen.
      * rewrite IH. simpl. rewrite <- app_assoc. simpl. split.
        -- intros [Hall ->]. split; [|done].
           intros c' [->|Hin]%elem_of_cons Hf; [by apply Nat.leb_le | by apply Hall].
        -- intros [Hall ->]. split; [|done]. intros c' Hin. apply Hall. by right.
      * split; [done|]. intros [Hall _]. apply Nat.leb_gt in Hlen.
        specialize (Hall c ltac:(by left) Hc). lia.
    + apply not_true_is_false in Hc. rewrite Hc, IH. split.
      * intros [Hall ->]. split; [|done].
        intros c' [->|Hin]%elem_of_cons Hf; [congruence | by apply Hall].
      * intros [Hall ->]. split; [|done]. intros c' Hin. apply Hall. by right.
Qed.

Lemma invalidCommits_None repoCommits :
  invalidcommitmsg.invalidCommits repoCommits [] = None
  ↔ ∃ c, c ∈ repoCommits ∧ invalidcommitmsg.flagged c = true
         ∧ (String.length (CommitSHA c) < 7)%nat.
Proof.
  split.
  - intros Hnone.
    destruct (decide (Exists (fun c => invalidcommitmsg.flagged c = true
                                       ∧ (String.length (CommitSHA c) < 7)%nat)
                             repoCommits)) as [Hex|Hno].
    + apply Exists_exists in Hex as (c & Hin & Hf & Hlen). by exists c.
    + exfalso.
      assert (is_Some (invalidcommitmsg.invalidCommits repoCommits [])) as [found Hsome];
        [|congruence].
      eexists. apply invalidCommits_Some. split; [|reflexivity].
      intros c Hin Hf.
      destruct (decide (7 <= String.length (CommitSHA c))%nat) as [?|Hshort]; [done|].
      exfalso. apply Hno, Exists_exists. exists c. split; [done|]. split; [done | lia].
  - intros (c & Hin & Hf & Hlen).
    destruct (invalidcommitmsg.invalidCommits repoCommits []) as [found|] eqn:Hrun; [|done].
    apply invalidCommits_Some in Hrun as [Hall _]. specialize (Hall c Hin Hf). lia.
Qed.

End Commits.

Section InvalidCommitMsg.

Import labelplugins.

Variable deps : Deps.
Variable gc : Client.
Variable pr : PullRequestEvent.

Let org := github.Login (github.Owner (Repo pr)).
Let repo := github.Name (Repo pr).
Let number := Number pr.

(** The calls of a run whose listings succeed and whose loop ends. *)
Lemma handle_listed labels repoCommits found :
  invalidcommitmsg.isPRChanged pr = true →
  GetIssueLabels gc org repo number = (labels, None) →
  ListPullRequestCommits gc org repo number = Ok repoCommits →
  invalidcommitmsg.invalidCommits repoCommits [] = Some found →
  (invalidcommitmsg.handle deps gc pr).2 = Returns None
  ∧ filter (fun c => is_change c = true) (invalidcommitmsg.handle deps gc pr).1
    = match found with
      | [] =>
          if HasLabel deps invalidcommitmsg.invalidCommitMsgLabel labels
          then [CallRemoveLabel org repo number invalidcommitmsg.invalidCommitMsgLabel;
                CallPruneComments invalidcommitmsg.shouldPrune]
          else []
      | _ :: _ =>
          (if HasLabel deps invalidcommitmsg.invalidCommitMsgLabel labels then []
           else [CallAddLabel org repo number invalidcommitmsg.invalidCommitMsgLabel])
          ++ [CallCreateComment org repo number
                (FormatSimpleResponse deps (UserLogin pr)
                   (invalidcommitmsg.commentBody +:+ strings.Join found ", "))]
      end.
Proof.
  intros Hchanged Hlabels Hcommits Hfound. unfold invalidcommitmsg.handle.
  fold org repo number. rewrite Hchanged, Hlabels, Hcommits, Hfound. simpl.
  destruct (HasLabel deps invalidcommitmsg.invalidCommitMsgLabel labels);
    destruct found as [|sha found']; simpl; split; try done.
  - rewrite !filter_cons_False by (simpl; discriminate).
    rewrite filter_cons_True by done. rewrite filter_app, filter_change_logged. done.
  - rewrite !filter_cons_False by (simpl; discriminate).
    rewrite filter_cons_True by done. by rewrite filter_change_logged.
  - rewrite !filter_cons_False by (simpl; discriminate).
    rewrite filter_cons_True by done. rewrite filter_app, filter_change_logged. simpl.
    rewrite filter_cons_True by done. by rewrite filter_change_logged.
Qed.

Ltac handle_cases :=
  unfold invalidcommitmsg.handle; fold org repo number;
  destruct (invalidcommitmsg.isPRChanged pr) eqn:Hchanged; simpl;
  [destruct (GetIssueLabels gc org repo number) as [labels [e|]] eqn:Hlabels; simpl;
   [|destruct (ListPullRequestCommits gc org repo number) as [repoCommits|e] eqn:Hcommits;
     simpl;
     [destruct (invalidcommitmsg.invalidCommits repoCommits []) as [found|] eqn:Hfound;
      simpl;
      [destruct (HasLabel deps invalidcommitmsg.invalidCommitMsgLabel labels) eqn:Hhas;
       destruct found as [|sha found']; simpl|] |]] |].

(** X12: a run returns an error exactly when listing the labels fails,
    or listing the commits fails after the labels were listed, and it
    is that error; such a run has changed nothing.  A failure of
    AddLabel, RemoveLabel or CreateComment is never returned. *)
Theorem handle_returns_listing_errors (err : error) :
  ((invalidcommitmsg.handle deps gc pr).2 = Returns (Some err)
   ↔ invalidcommitmsg.isPRChanged pr = true
     ∧ ((GetIssueLabels gc org repo number).2 = Some err
        ∨ (GetIssueLabels gc org repo number).2 = None
          ∧ ListPullRequestCommits gc org repo number = Err err))
  ∧ ((invalidcommitmsg.handle deps gc pr).2 = Returns (Some err) →
     Forall (fun c => is_change c = false) (invalidcommitmsg.handle deps gc pr).1).
Proof.
  handle_cases; (split; [split|]); try done;
    try (intros [_ [?|[? ?]]]; done); try (intros [? _]; done).
  - intros [= ->]. split; [done|]. by left.
  - intros [_ [[= ->]|[? ?]]]; done.
  - intros _. by repeat constructor.
  - intros [= ->]. split; [done|]. by right.
  - intros [_ [?|[_ [= ->]]]]; done.
  - intros _. by repeat constructor.
Qed.

(** X13: a run panics exactly when both listings succeed and some
    commit whose message is taken for invalid has a SHA of fewer than
    seven bytes; it has then changed nothing. *)
Theorem handle_panics_on_short_sha :
  ((invalidcommitmsg.handle deps gc pr).2 = Panics
   ↔ invalidcommitmsg.isPRChanged pr = true
     ∧ (GetIssueLabels gc org repo number).2 = None
     ∧ ∃ repoCommits c,
         ListPullRequestCommits gc org repo number = Ok repoCommits
         ∧ c ∈ repoCommits ∧ invalidcommitmsg.flagged c = true
         ∧ (String.length (CommitSHA c) < 7)%nat)
  ∧ ((invalidcommitmsg.handle deps gc pr).2 = Panics →
     Forall (fun c => is_change c = false) (invalidcommitmsg.handle deps gc pr).1).
Proof.
  assert (∀ repoCommits found,
            invalidcommitmsg.invalidCommits repoCommits [] = Some found →
            ¬ ∃ repoCommits' c,
                @Ok (list RepositoryCommit) repoCommits = Ok repoCommits'
                ∧ c ∈ repoCommits' ∧ invalidcommitmsg.flagged c = true
                ∧ (String.length (CommitSHA c) < 7)%nat) as Hsome.
  { intros cs found Hfound (cs' & c & [= <-] & Hc).
    assert (invalidcommitmsg.invalidCommits cs [] = None) as Hnone
      by (apply invalidCommits_None; by exists c).
    congruence. }
  handle_cases; (split; [split|]); try done;
    try (intros (_ & _ & Hex); by eapply Hsome in Hex);
    try (intros (_ & _ & ? & ? & ? & _); done);
    try (intros (_ & ? & _); done);
    try (intros (? & _); done).
  - intros _. split; [done|]. split; [done|].
    apply invalidCommits_None in Hfound as (c & Hc). by exists repoCommits, c.
  - intros _. by repeat constructor.
Qed.

(** X14: when both listings succeed and no invalid commit has a short
    SHA, the run returns nil and changes the pull request as follows,
    whether or not these calls fail.  With no invalid commit: the label
    is removed and the comments are pruned if the pull request has the
    label, and nothing is done otherwise.  With invalid commits: the
    label is added unless the pull request has it, and then one comment
    is posted, which lists the first seven bytes of the SHA of every
    invalid commit, in the order of the commits, joined by a comma and
    a blank. *)
Theorem handle_reconciles_label labels repoCommits :
  invalidcommitmsg.isPRChanged pr = true →
  GetIssueLabels gc org repo number = (labels, None) →
  ListPullRequestCommits gc org repo number = Ok repoCommits →
  (∀ c, c ∈ repoCommits → invalidcommitmsg.flagged c = true →
        (7 <= String.length (CommitSHA c))%nat) →
  let invalid := filter (fun c => invalidcommitmsg.flagged c = true) repoCommits in
  let has := HasLabel deps invalidcommitmsg.invalidCommitMsgLabel labels in
  (invalidcommitmsg.handle deps gc pr).2 = Returns None
  ∧ filter (fun c => is_change c = true) (invalidcommitmsg.handle deps gc pr).1
    = match invalid with
      | [] =>
          if has
          then [CallRemoveLabel org repo number invalidcommitmsg.invalidCommitMsgLabel;
                CallPruneComments invalidcommitmsg.shouldPrune]
          else []
      | _ :: _ =>
          (if has then []
           else [CallAddLabel org repo number invalidcommitmsg.invalidCommitMsgLabel])
          ++ [CallCreateComment org repo number
                (FormatSimpleResponse deps (UserLogin pr)
                   (invalidcommitmsg.commentBody
                    +:+ strings.Join
                          (map (fun c => String.substring 0 7 (CommitSHA c)) invalid)
                          ", "))]
      end.
Proof.
  intros Hchanged Hlabels Hcommits Hlong invalid has.
  assert (invalidcommitmsg.invalidCommits repoCommits []
          = Some (map (fun c => String.substring 0 7 (CommitSHA c)) invalid)) as Hfound
    by (by apply invalidCommits_Some).
  destruct (handle_listed _ _ _ Hchanged Hlabels Hcommits Hfound) as [Hres Hcalls].
  split; [done|]. rewrite Hcalls. by destruct invalid.
Qed.

(** X15: commit messages without [#] and without [@] are all valid: on
    a pull request that has only such messages a run never panics,
    never adds the label and never comments, whatever the SHAs are; it
    only takes the label away if the pull request has it. *)
Theorem messages_without_hash_or_at_are_valid labels repoCommits :
  invalidcommitmsg.isPRChanged pr = true →
  GetIssueLabels gc org repo number = (labels, None) →
  ListPullRequestCommits gc org repo number = Ok repoCommits →
  (∀ c, c ∈ repoCommits →
        ("#"%char ∉ list_ascii_of_string (Message (RepoCommit c)))
        ∧ ("@"%char ∉ list_ascii_of_string (Message (RepoCommit c)))) →
  (invalidcommitmsg.handle deps gc pr).2 = Returns None
  ∧ filter (fun c => is_change c = true) (invalidcommitmsg.handle deps gc pr).1
    = if HasLabel deps invalidcommitmsg.invalidCommitMsgLabel labels
      then [CallRemoveLabel org repo number invalidcommitmsg.invalidCommitMsgLabel;
            CallPruneComments invalidcommitmsg.shouldPrune]
      else [].
Proof.
  intros Hchanged Hlabels Hcommits Hplain.
  assert (∀ c, c ∈ repoCommits → invalidcommitmsg.flagged c ≠ true) as Hvalid.
  { intros c Hin Hf. destruct (Hplain c Hin) as [Hhash Hat].
    by destruct (invalidMessage_has_hash_or_at _ Hf). }
  assert (filter (fun c => invalidcommitmsg.flagged c = true) repoCommits = []) as Hnone.
  { clear -Hvalid. induction repoCommits as [|c cs IH]; [done|].
    rewrite filter_cons_False by (apply Hvalid; left).
    apply IH. intros c' Hin. apply Hvalid. by right. }
  assert (invalidcommitmsg.invalidCommits repoCommits [] = Some []) as Hfound.
  { apply invalidCommits_Some. rewrite Hnone. split; [|done].
    intros c Hin Hf. by destruct (Hvalid c Hin). }
  exact (handle_listed _ _ _ Hchanged Hlabels Hcommits Hfound).
Qed.

(** X16: a run makes no call at all unless the action of the event is
    opened, reopened or synchronize.  Otherwise it first lists the
    labels, then the commits, each at most once, and every call that
    changes the pull request comes after both. *)
Theorem handle_lists_before_it_changes :
  ((invalidcommitmsg.handle deps gc pr).1 = []
   ↔ Action pr ∉ [github.PullRequestActionOpened; github.PullRequestActionReopened;
                  github.PullRequestActionSynchronize])
  ∧ ∃ rest,
      Forall (fun c => is_listing c = false) rest
      ∧ ((invalidcommitmsg.handle deps gc pr).1 = []
         ∨ (invalidcommitmsg.handle deps gc pr).1 = [CallGetIssueLabels org repo number]
         ∨ (invalidcommitmsg.handle deps gc pr).1
           = CallGetIssueLabels org repo number
             :: CallListPullRequestCommits org repo number :: rest).
Proof.
  assert (invalidcommitmsg.isPRChanged pr = false
          ↔ Action pr ∉ [github.PullRequestActionOpened; github.PullRequestActionReopened;
                         github.PullRequestActionSynchronize]) as Hact.
  { unfold invalidcommitmsg.isPRChanged. rewrite !not_elem_of_cons.
    destruct (String.eqb_spec (Action pr) github.PullRequestActionOpened) as [->|H1];
      [split; [done|]; by intros [? _]|].
    destruct (String.eqb_spec (Action pr) github.PullRequestActionReopened) as [->|H2];
      [split; [done|]; by intros (_ & ? & _)|].
    destruct (String.eqb_spec (Action pr) github.PullRequestActionSynchronize) as [->|H3];
      [split; [done|]; by intros (_ & _ & ? & _)|].
    split; [|done]. intros _. repeat split; try done. apply not_elem_of_nil. }
  split.
  - rewrite <- Hact. handle_cases; split; done.
  - handle_cases; eexists;
      (split; [|first [by left | right; left; reflexivity | right; right; reflexivity]]);
      repeat first [ apply List.Forall_nil
                   | apply List.Forall_cons; [done|]
                   | apply Forall_app_2
                   | apply Forall_logged; done ].
Qed.

Lemma prefix_append (sub post : string) : String.prefix sub (sub +:+ post) = true.
Proof.
  induction sub as [|ch sub IH]; simpl; [by destruct post|].
  change (String ch sub +:+ post) with (String ch (sub +:+ post)).
  destruct (ascii_dec ch ch); [exact IH | done].
Qed.

Lemma Contains_append (before sub after : string) :
  Contains (before +:+ sub +:+ after) sub = true.
Proof.
  induction before as [|ch before IH].
  - change ("" +:+ sub +:+ after) with (sub +:+ after).
    pose proof (prefix_append sub after) as Hprefix.
    destruct (sub +:+ after); cbn [Contains]; by rewrite Hprefix.
  - change (String ch before +:+ sub +:+ after) with (String ch (before +:+ sub +:+ after)).
    cbn [Contains]. rewrite IH. apply orb_true_r.
Qed.

(** X23: the pruner takes away what the plugin posts.  If the formatted
    response contains the message it formats, every comment a run
    posts is one that the predicate given to the comment pruner
    selects, so that a later run that finds all commits valid prunes
    it. *)
Theorem posted_comment_is_pruned_later :
  (∀ to message, ∃ before after,
      FormatSimpleResponse deps to message = before +:+ message +:+ after) →
  ∀ o r n comment,
    CallCreateComment o r n comment ∈ (invalidcommitmsg.handle deps gc pr).1 →
    invalidcommitmsg.shouldPrune {| IssueCommentBody := comment |} = true.
Proof.
  intros Hformat o r n comment.
  assert (∀ e msg, CallCreateComment o r n comment ∉ logged e msg) as Hlog.
  { intros [e|] msg; simpl; [|apply not_elem_of_nil].
    by intros ?%list_elem_of_singleton. }
  assert (∀ shas,
            invalidcommitmsg.shouldPrune
              {| IssueCommentBody :=
                   FormatSimpleResponse deps (UserLogin pr)
                     (invalidcommitmsg.commentBody +:+ shas) |} = true) as Hprune.
  { intros shas. unfold invalidcommitmsg.shouldPrune. simpl.
    destruct (Hformat (UserLogin pr) (invalidcommitmsg.commentBody +:+ shas))
      as (before & after & ->).
    rewrite append_assoc. apply Contains_append. }
  handle_cases; intros Hin;
    repeat first
      [ apply elem_of_cons in Hin as [Hin|Hin]; [first [done | by injection Hin as _ _ _ ->]|]
      | apply elem_of_app in Hin as [Hin|Hin]
      | by apply Hlog in Hin
      | by apply elem_of_nil in Hin ].
Qed.

End InvalidCommitMsg.

(** ** The invalidcommitmsg plugin on the fake client of its test *)

Section FakeRuns.

Import labelplugins.

Variable deps : Deps.
Variable pr : PullRequestEvent.

Let label := invalidcommitmsg.invalidCommitMsgLabel.

Lemma filter_flagged_fake msgs :
  filter (fun c => invalidcommitmsg.flagged c = true)
         (map (fun msg => {| CommitSHA := "1111111111";
                             RepoCommit := {| Message := msg |} |}) msgs)
  = map (fun msg => {| CommitSHA := "1111111111"; RepoCommit := {| Message := msg |} |})
        (filter (fun msg => invalidcommitmsg.invalidMessage msg = true) msgs).
Proof.
  induction msgs as [|msg msgs IH]; [done|]. simpl. rewrite !filter_cons.
  unfold invalidcommitmsg.flagged at 1. simpl.
  destruct (decide (invalidcommitmsg.invalidMessage msg = true)); simpl; by rewrite IH.
Qed.

Lemma fake_invalidCommits fc n :
  invalidcommitmsg.invalidCommits (fake.ListPullRequestCommits fc n) []
  = Some (map (fun _ => "1111111")
              (filter (fun msg => invalidcommitmsg.invalidMessage msg = true)
                      (fake.messages fc n))).
Proof.
  apply invalidCommits_Some. split.
  - intros c Hin _. apply list_elem_of_In, in_map_iff in Hin as (msg & <- & _). simpl. lia.
  - unfold fake.ListPullRequestCommits. fold (fake.messages fc n).
    rewrite filter_flagged_fake, map_map. done.
Qed.

(** The state of the fake after one run. *)
Lemma fake_run_state fc :
  invalidcommitmsg.isPRChanged pr = true →
  fake.run deps fc pr
  = (match filter (fun msg => invalidcommitmsg.invalidMessage msg = true)
                  (fake.messages fc (Number pr)) with
     | [] => if HasLabel deps label (fake.GetIssueLabels fc)
             then fake.RemoveLabel fc label else fc
     | (_ :: _) as bad =>
         fake.CreateComment
           (if HasLabel deps label (fake.GetIssueLabels fc) then fc
            else fake.AddLabel fc label)
           (Number pr)
           (FormatSimpleResponse deps (UserLogin pr)
              (invalidcommitmsg.commentBody
               +:+ strings.Join (map (fun _ => "1111111") bad) ", "))
     end, Returns None).
Proof.
  intros Hchanged. unfold fake.run, invalidcommitmsg.handle. rewrite Hchanged. simpl.
  rewrite fake_invalidCommits. fold label.
  destruct (HasLabel deps label (fake.GetIssueLabels fc));
    destruct (filter _ (fake.messages fc (Number pr))); cbn; reflexivity.
Qed.






Lemma existsb_invalidMessage msgs :
  existsb invalidcommitmsg.invalidMessage msgs
  = match filter (fun msg => invalidcommitmsg.invalidMessage msg = true) msgs with
    | [] => false
    | _ :: _ => true
    end.
Proof.
  induction msgs as [|msg msgs IH]; [done|]. simpl. rewrite filter_cons.
  destruct (decide (invalidcommitmsg.invalidMessage msg = true)) as [->|Hm]; [done|].
  apply not_true_is_false in Hm. by rewrite Hm, IH.
Qed.



Lemma NumComments_CreateComment fc n comment :
  fake.NumComments (fake.CreateComment fc n comment) = S (fake.NumComments fc).
Proof.
  unfold fake.NumComments, fake.CreateComment. simpl.
  assert (∀ (j1 j2 : Z) (z1 z2 : list string) (y : nat),
            (y + length z2 + length z1 = y + length z1 + length z2)%nat) as Hcomm
    by (intros; lia).
  destruct (fake.commentsAdded fc !! n) as [old|] eqn:Hn; simpl.
  - rewrite <- insert_delete_eq.
    rewrite map_fold_insert_L; [|by intros; apply Hcomm|by apply lookup_delete_eq].
    rewrite (map_fold_delete_L _ _ n old (fake.commentsAdded fc));
      [|by intros; apply Hcomm|done].
    rewrite length_app. simpl. lia.
  - rewrite map_fold_insert_L; [|by intros; apply Hcomm|done]. simpl. lia.
Qed.

(** X24: by the count of the fake client, a run posts exactly one
    comment when some commit message of the pull request is invalid
    and none otherwise, whatever labels the pull request has and
    whatever comments were counted before. *)
Theorem run_posts_one_comment_or_none fc :
  invalidcommitmsg.isPRChanged pr = true →
  fake.NumComments (fake.run deps fc pr).1
  = (fake.NumComments fc
     + if existsb invalidcommitmsg.invalidMessage (fake.messages fc (Number pr))
       then 1 else 0)%nat.
Proof.
  intros Hchanged. rewrite fake_run_state, existsb_invalidMessage by done. simpl.
  destruct (filter _ (fake.messages fc (Number pr)));
    destruct (HasLabel deps label (fake.GetIssueLabels fc));
    rewrite ?NumComments_CreateComment; unfold fake.NumComments; simpl; lia.
Qed.

(** X19: every case of the table of TestInvalidCommitMessage passes,
    if the label is not found among no labels and is found when it is
    the only label: no error, the expected labels added and removed,
    and one comment or none as the case expects. *)
Theorem TestInvalidCommitMessage_passes :
  HasLabel deps invalidcommitmsg.invalidCommitMsgLabel [] = false →
  HasLabel deps invalidcommitmsg.invalidCommitMsgLabel
    [{| LabelName := invalidcommitmsg.invalidCommitMsgLabel |}] = true →
  Forall (fake.passes deps) fake.testcases.
Proof.
  intros Hnone Hone. unfold fake.testcases.
  repeat (apply List.Forall_cons;
          [unfold fake.passes, invalidcommitmsg.handle; cbn [fake.action];
           first [ change (invalidcommitmsg.isPRChanged (fake.makeFakePullRequestEvent _))
                     with false
                 | change (invalidcommitmsg.isPRChanged (fake.makeFakePullRequestEvent _))
                     with true ];
           cbn -[invalidcommitmsg.invalidCommits fake.NumComments];
           rewrite ?Hnone, ?Hone;
           match goal with
           | |- context [invalidcommitmsg.invalidCommits ?cs ?acc] =>
               let r := eval vm_compute in (invalidcommitmsg.invalidCommits cs acc) in
               change (invalidcommitmsg.invalidCommits cs acc) with r
           | _ => idtac
           end;
           cbn -[fake.NumComments];
           repeat split; vm_compute; reflexivity|]).
  apply List.Forall_nil.
Qed.

End FakeRuns.

(** ** The cherrypick plugin *)

Section CherryPick.

Import labelplugins.

Variable deps : Deps.
Variable gc : Client.
Variable pr : PullRequestEvent.

Let org := github.Login (github.Owner (Repo pr)).
Let repo := github.Name (Repo pr).
Let number := Number pr.

Ltac handlePR_cases :=
  unfold cherrypick.handlePR; fold org repo number;
  destruct (String.eqb_spec (Action pr) github.PullRequestActionOpened) as [Hopened|Hopened];
  destruct (String.eqb_spec (Action pr) github.PullRequestActionReopened)
    as [Hreopened|Hreopened];
  simpl;
  destruct (String.prefix "release-" (BaseRef pr)) eqn:Hbranch; simpl;
  try (destruct (GetIssueLabels gc org repo number) as [labels err] eqn:Hlabels; simpl;
       destruct (HasLabel deps cherrypick.cpApprovedLabel labels) eqn:Happroved;
       destruct (HasLabel deps cherrypick.cpUnapprovedLabel labels) eqn:Hunapproved;
       simpl).

(** X20: handlePR returns nil whatever the client answers; it makes a
    call only for an opened or reopened pull request whose base branch
    starts with release-; and the only label it ever adds or removes
    is the not-approved label of this pull request: the approved label
    is never touched. *)
Theorem handlePR_never_fails :
  (cherrypick.handlePR deps gc pr).2 = None
  ∧ ((cherrypick.handlePR deps gc pr).1 ≠ []
     ↔ (Action pr = github.PullRequestActionOpened
        ∨ Action pr = github.PullRequestActionReopened)
       ∧ String.prefix "release-" (BaseRef pr) = true)
  ∧ ∀ c, c ∈ (cherrypick.handlePR deps gc pr).1 → is_label_change c = true →
         c = CallAddLabel org repo number cherrypick.cpUnapprovedLabel
         ∨ c = CallRemoveLabel org repo number cherrypick.cpUnapprovedLabel.
Proof.
  assert (∀ e msg c, c ∈ logged e msg → is_label_change c = true → False) as Hlog.
  { intros [e|] msg c; simpl; [|by intros ?%elem_of_nil].
    by intros ->%list_elem_of_singleton. }
  handlePR_cases; (split; [done|]); (split; [split|]);
    try done; try (intros [[?|?] ?]; done); try (intros _; split; [by auto | done]);
    try (by intros c ?%elem_of_nil).
  all: intros c Hin Hc; simpl in Hin;
    repeat first
      [ apply elem_of_cons in Hin as [->|Hin]; [first [done | by left | by right]|]
      | apply elem_of_app in Hin as [Hin|Hin]; [by destruct (Hlog _ _ _ Hin Hc)|]
      | by destruct (Hlog _ _ _ Hin Hc)
      | by apply elem_of_nil in Hin ].
Qed.

(** X21: for an opened or reopened pull request against a release
    branch, what handlePR changes depends only on the labels the
    listing handed back, whether or not the listing or a later call
    failed.  With the approved label: the not-approved label is
    removed if it is there, and nothing else is done.  Without it:
    nothing is done if the not-approved label is there, and otherwise
    the not-approved label is added and then one comment is posted
    that names the base branch. *)
Theorem handlePR_reconciles :
  Action pr = github.PullRequestActionOpened
  ∨ Action pr = github.PullRequestActionReopened →
  String.prefix "release-" (BaseRef pr) = true →
  let labels := (GetIssueLabels gc org repo number).1 in
  filter (fun c => is_change c = true) (cherrypick.handlePR deps gc pr).1
  = if HasLabel deps cherrypick.cpApprovedLabel labels then
      if HasLabel deps cherrypick.cpUnapprovedLabel labels
      then [CallRemoveLabel org repo number cherrypick.cpUnapprovedLabel]
      else []
    else if HasLabel deps cherrypick.cpUnapprovedLabel labels then []
    else [CallAddLabel org repo number cherrypick.cpUnapprovedLabel;
          CallCreateComment org repo number
            (FormatSimpleResponse deps (UserLogin pr)
               (cherrypick.labelUnapprovedBody
                +:+ cherrypick.assignPatchReleaseManager (BaseRef pr)))].
Proof.
  intros Haction Hrelease labels0. subst labels0.
  handlePR_cases; try done; try (by destruct Haction);
    rewrite ?filter_cons_False by (simpl; discriminate);
    rewrite ?filter_app, ?filter_cons_True by done;
    rewrite ?filter_app, ?filter_change_logged; simpl;
    rewrite ?filter_cons_True by done;
    rewrite ?filter_change_logged; done.
Qed.

(** X22: a failed listing of the labels does not stop handlePR.  When
    the listing fails and hands back no labels, and no label is found
    among no labels, the failure is logged and the pull request is
    treated as one without labels: the not-approved label is added and
    the comment is posted. *)
Theorem failed_listing_labels_unapproved err :
  Action pr = github.PullRequestActionOpened
  ∨ Action pr = github.PullRequestActionReopened →
  String.prefix "release-" (BaseRef pr) = true →
  GetIssueLabels gc org repo number = ([], Some err) →
  HasLabel deps cherrypick.cpApprovedLabel [] = false →
  HasLabel deps cherrypick.cpUnapprovedLabel [] = false →
  ∃ rest,
    (cherrypick.handlePR deps gc pr).1
    = CallGetIssueLabels org repo number
      :: CallErrorf err ("failed to list labels on  " +:+ ref org repo number)
      :: CallAddLabel org repo number cherrypick.cpUnapprovedLabel :: rest
    ∧ filter (fun c => is_change c = true) rest
      = [CallCreateComment org repo number
           (FormatSimpleResponse deps (UserLogin pr)
              (cherrypick.labelUnapprovedBody
               +:+ cherrypick.assignPatchReleaseManager (BaseRef pr)))].
Proof.
  intros Haction Hrelease Hlisting Hnone1 Hnone2.
  unfold cherrypick.handlePR. fold org repo number.
  assert (negb (Action pr =? github.PullRequestActionOpened)%string
          && negb (Action pr =? github.PullRequestActionReopened)%string = false) as ->.
  { destruct Haction as [->| ->]; [done|]. by rewrite String.eqb_refl, andb_false_r. }
  rewrite Hrelease, Hlisting, Hnone1, Hnone2. simpl.
  eexists. split; [reflexivity|].
  rewrite filter_app, filter_change_logged. simpl.
  rewrite filter_cons_True by done. by rewrite filter_change_logged.
Qed.

End CherryPick.

(** ** The two label plugins on concrete pull requests *)

Lemma handle_reconciles_label_witness :
  filter (fun c => labelplugins.is_change c = true)
         (invalidcommitmsg.handle Cases.deps (Cases.answering ["lgtm"] Cases.commits)
            (Cases.event github.PullRequestActionOpened "master")).1
  = [labelplugins.CallAddLabel "kubernetes" "test-infra" 5
       invalidcommitmsg.invalidCommitMsgLabel;
     labelplugins.CallCreateComment "kubernetes" "test-infra" 5
       ("@alice: " +:+ invalidcommitmsg.commentBody +:+ "89abcde, fedcba9")].
Proof.
  edestruct (handle_reconciles_label Cases.deps (Cases.answering ["lgtm"] Cases.commits)
               (Cases.event github.PullRequestActionOpened "master"))
    as [_ Hcalls].
  - reflexivity.
  - reflexivity.
  - reflexivity.
  - intros c Hc _.
    repeat (apply elem_of_cons in Hc as [->|Hc]; [simpl; lia|]).
    by apply elem_of_nil in Hc.
  - exact Hcalls.
Defined.

Lemma messages_without_hash_or_at_are_valid_witness :
  filter (fun c => labelplugins.is_change c = true)
         (invalidcommitmsg.handle Cases.deps
            (Cases.answering [invalidcommitmsg.invalidCommitMsgLabel] Cases.plainCommits)
            (Cases.event github.PullRequestActionOpened "master")).1
  = [labelplugins.CallRemoveLabel "kubernetes" "test-infra" 5
       invalidcommitmsg.invalidCommitMsgLabel;
     labelplugins.CallPruneComments invalidcommitmsg.shouldPrune].
Proof.
  edestruct (messages_without_hash_or_at_are_valid Cases.deps
               (Cases.answering [invalidcommitmsg.invalidCommitMsgLabel] Cases.plainCommits)
               (Cases.event github.PullRequestActionOpened "master"))
    as [_ Hcalls].
  - reflexivity.
  - reflexivity.
  - reflexivity.
  - intros c Hc.
    repeat (apply elem_of_cons in Hc as [->|Hc];
            [split; intros Hin; apply list_elem_of_In in Hin; simpl in Hin;
             intuition discriminate|]).
    by apply elem_of_nil in Hc.
  - exact Hcalls.
Defined.



Lemma TestInvalidCommitMessage_passes_witness :
  Forall (fake.passes Cases.deps) fake.testcases.
Proof. apply TestInvalidCommitMessage_passes; reflexivity. Defined.

Lemma handlePR_reconciles_witness :
  filter (fun c => labelplugins.is_change c = true)
         (cherrypick.handlePR Cases.deps
            (Cases.answering [cherrypick.cpApprovedLabel; cherrypick.cpUnapprovedLabel] [])
            (Cases.event github.PullRequestActionOpened "release-1.12")).1
  = [labelplugins.CallRemoveLabel "kubernetes" "test-infra" 5 cherrypick.cpUnapprovedLabel].
Proof.
  apply (handlePR_reconciles Cases.deps
           (Cases.answering [cherrypick.cpApprovedLabel; cherrypick.cpUnapprovedLabel] [])
           (Cases.event github.PullRequestActionOpened "release-1.12")).
  - by left.
  - reflexivity.
Defined.

Lemma failed_listing_labels_unapproved_witness :
  ∃ rest,
    (cherrypick.handlePR Cases.deps Cases.down
       (Cases.event github.PullRequestActionReopened "release-1.12")).1
    = labelplugins.CallGetIssueLabels "kubernetes" "test-infra" 5
      :: labelplugins.CallErrorf "502 Bad Gateway"
           "failed to list labels on  kubernetes/test-infra#5"
      :: labelplugins.CallAddLabel "kubernetes" "test-infra" 5 cherrypick.cpUnapprovedLabel
      :: rest
    ∧ filter (fun c => labelplugins.is_change c = true) rest
      = [labelplugins.CallCreateComment "kubernetes" "test-infra" 5
           (labelplugins.FormatSimpleResponse Cases.deps "alice"
              (cherrypick.labelUnapprovedBody
               +:+ cherrypick.assignPatchReleaseManager "release-1.12"))].
Proof.
  apply (failed_listing_labels_unapproved Cases.deps Cases.down
           (Cases.event github.PullRequestActionReopened "release-1.12")
           "502 Bad Gateway").
  - by right.
  - reflexivity.
  - reflexivity.
  - reflexivity.
  - reflexivity.
Defined.

Lemma posted_comment_is_pruned_later_witness :
  invalidcommitmsg.shouldPrune
    {| labelplugins.IssueCommentBody :=
         "@alice: " +:+ invalidcommitmsg.commentBody +:+ "89abcde, fedcba9" |} = true.
Proof.
  apply (posted_comment_is_pruned_later Cases.deps (Cases.answering ["lgtm"] Cases.commits)
           (Cases.event github.PullRequestActionOpened "master"))
    with (o := "kubernetes") (r := "test-infra") (n := 5).
  - intros to message. exists ("@" +:+ to +:+ ": "), "". simpl.
    by rewrite append_empty_r, <- !append_assoc.
  - vm_compute. do 3 apply list_elem_of_further. apply list_elem_of_here.
Defined.

Lemma run_posts_one_comment_or_none_witness : fake.NumComments Cases.once = 1%nat.
Proof.
  apply (run_posts_one_comment_or_none Cases.deps Cases.synchronize Cases.mentioning).
  reflexivity.
Defined.
